(** * github-mcp-server: body text filter, repository path validator
      and local git tools

    A shallow embedding of [pkg/bodyfilter] ([SetFilterPatterns],
    [FilterBody]), of [pkg/git/tools.go] ([validateRepoPath] and the
    handlers of the tools listed by [AllGitTools]) and of the helper of
    [pkg/translations], together with the parts of the Go standard
    library they call ([unicode/utf8], [unicode], [strings], [strconv],
    [regexp], [path/filepath], [os]).  The git operations behind
    [gitops.GitOperations], the decoder of [encoding/json] and viper are
    parameters of the handlers and of the helper.

    A Go [string] is a sequence of bytes: it is modelled by [string]
    (a list of 8-bit [ascii] characters).  A rune is a code point in [N].
    The loops of the library that advance by the width of a rune are
    written with fuel, the length of their input, which is shown below to
    be enough. *)

From Stdlib Require Import List String Ascii NArith ZArith Lia Bool Arith.
From Stdlib Require DecimalString.
Import ListNotations.

Open Scope list_scope.
Open Scope string_scope.

(** ** Byte strings *)

Module gostring.

(** The line feed, Go's ['\n']. *)
Definition LF : string := String (ascii_of_nat 10) "".

(** [s[n:]] *)
Fixpoint drop (n : nat) (s : string) : string :=
  match n, s with
  | O, _ => s
  | S n', String _ s' => drop n' s'
  | S _, EmptyString => EmptyString
  end.

(** [s[:n]] *)
Fixpoint take (n : nat) (s : string) : string :=
  match n, s with
  | O, _ => EmptyString
  | S n', String c s' => String c (take n' s')
  | S _, EmptyString => EmptyString
  end.

(** [s[i]] as a number; 0 out of range (never read there). *)
Definition byteAt (s : string) (i : nat) : N :=
  match String.get i s with
  | Some c => N_of_ascii c
  | None => 0%N
  end.

(** [strings.HasPrefix(s, prefix)]:
    [len(s) >= len(prefix) && s[:len(prefix)] == prefix]. *)
Definition HasPrefix (s pre : string) : bool :=
  (String.length pre <=? String.length s)%nat
  && String.eqb (take (String.length pre) s) pre.

(** [strings.Contains(s, sub)] as a proposition. *)
Definition Contains (s sub : string) : Prop :=
  exists a b, s = a ++ sub ++ b.

End gostring.

Import gostring.

(** ** unicode/utf8 *)

Module utf8.

Definition RuneError : N := 0xFFFD.
Definition RuneSelf : N := 0x80.
Definition UTFMax : nat := 4.

Definition locb : N := 0x80.
Definition hicb : N := 0xBF.
Definition maskx : N := 0x3F.
Definition mask2 : N := 0x1F.
Definition mask3 : N := 0x0F.
Definition mask4 : N := 0x07.

(** An entry of the table [first]: [AS] for ASCII, [XX] for a byte that
    starts no sequence, [Lead sz lo hi] for the first byte of a sequence
    of [sz] bytes whose second byte lies in the accept range [lo..hi]. *)
Inductive firstInfo : Type :=
| AS
| XX
| Lead (sz : nat) (lo hi : N).

Definition first (b : N) : firstInfo :=
  if (b <? 0x80)%N then AS
  else if (b <? 0xC2)%N then XX
  else if (b <? 0xE0)%N then Lead 2 locb hicb
  else if (b =? 0xE0)%N then Lead 3 0xA0%N hicb
  else if (b <? 0xED)%N then Lead 3 locb hicb
  else if (b =? 0xED)%N then Lead 3 locb 0x9F%N
  else if (b <? 0xF0)%N then Lead 3 locb hicb
  else if (b =? 0xF0)%N then Lead 4 0x90%N hicb
  else if (b <? 0xF4)%N then Lead 4 locb hicb
  else if (b =? 0xF4)%N then Lead 4 locb 0x8F%N
  else XX.

(** [utf8.DecodeRuneInString]: the first rune of [s] and its width in
    bytes; [(RuneError, 0)] on the empty string and [(RuneError, 1)] on
    an invalid or truncated encoding. *)
Definition DecodeRuneInString (s : string) : N * nat :=
  match s with
  | EmptyString => (RuneError, 0)
  | String c0 t0 =>
    let s0 := N_of_ascii c0 in
    match first s0 with
    | AS => (s0, 1)
    | XX => (RuneError, 1)
    | Lead sz lo hi =>
      if (String.length s <? sz)%nat then (RuneError, 1) else
      match t0 with
      | EmptyString => (RuneError, 1)
      | String c1 t1 =>
        let s1 := N_of_ascii c1 in
        if ((s1 <? lo) || (hi <? s1))%N then (RuneError, 1) else
        if (sz <=? 2)%nat then
          (N.lor (N.shiftl (N.land s0 mask2) 6) (N.land s1 maskx), 2)
        else
        match t1 with
        | EmptyString => (RuneError, 1)
        | String c2 t2 =>
          let s2 := N_of_ascii c2 in
          if ((s2 <? locb) || (hicb <? s2))%N then (RuneError, 1) else
          if (sz <=? 3)%nat then
            (N.lor (N.lor (N.shiftl (N.land s0 mask3) 12)
                          (N.shiftl (N.land s1 maskx) 6))
                   (N.land s2 maskx), 3)
          else
          match t2 with
          | EmptyString => (RuneError, 1)
          | String c3 _ =>
            let s3 := N_of_ascii c3 in
            if ((s3 <? locb) || (hicb <? s3))%N then (RuneError, 1) else
            (N.lor (N.lor (N.lor (N.shiftl (N.land s0 mask4) 18)
                                 (N.shiftl (N.land s1 maskx) 12))
                          (N.shiftl (N.land s2 maskx) 6))
                   (N.land s3 maskx), 4)
          end
        end
      end
    end
  end.

(** [utf8.RuneStart]: the byte is not a continuation byte. *)
Definition RuneStart (b : N) : bool :=
  negb (N.land b 0xC0 =? 0x80)%N.

(** The loop of [DecodeLastRuneInString] that walks [start] backwards,
    down to [lim], until it stands on a byte that can start a rune. *)
Fixpoint backToStart (fuel : nat) (s : string) (start lim : Z) : Z :=
  match fuel with
  | O => start
  | S fuel' =>
    if (start <? lim)%Z then start
    else if RuneStart (byteAt s (Z.to_nat start)) then start
    else backToStart fuel' s (start - 1)%Z lim
  end.

(** [utf8.DecodeLastRuneInString]: the last rune of [s] and its width. *)
Definition DecodeLastRuneInString (s : string) : N * nat :=
  let end_ := String.length s in
  if (end_ =? 0)%nat then (RuneError, 0) else
  let r := byteAt s (end_ - 1) in
  if (r <? RuneSelf)%N then (r, 1) else
  let lim := Z.max 0 (Z.of_nat end_ - Z.of_nat UTFMax) in
  let start := backToStart UTFMax s (Z.of_nat end_ - 2)%Z lim in
  let start := Z.to_nat (Z.max 0 start) in
  let '(r, size) := DecodeRuneInString (drop start s) in
  if (start + size =? end_)%nat then (r, size) else (RuneError, 1).

(** A decoded rune together with the bytes it was read from. *)
Record Rune : Type := mkRune { code : N; raw : string }.

(** The runes of [s] from left to right, as [for _, r := range s] and the
    regexp machine's [step] see them. *)
Fixpoint runesFrom (fuel : nat) (s : string) : list Rune :=
  match fuel with
  | O => []
  | S fuel' =>
    match s with
    | EmptyString => []
    | String _ _ =>
      let '(r, w) := DecodeRuneInString s in
      mkRune r (take w s) :: runesFrom fuel' (drop w s)
    end
  end.

Definition runes (s : string) : list Rune := runesFrom (String.length s) s.

(** The bytes a list of runes was read from. *)
Fixpoint bytes (rs : list Rune) : string :=
  match rs with
  | [] => EmptyString
  | r :: rs' => raw r ++ bytes rs'
  end.

End utf8.

(** ** unicode *)

Module unicode.

Definition MaxLatin1 : N := 0xFF.

(** The [White_Space] range table, outside Latin-1. *)
Definition White_Space (r : N) : bool :=
  ((r =? 0x1680) || ((0x2000 <=? r) && (r <=? 0x200A))
   || (r =? 0x2028) || (r =? 0x2029) || (r =? 0x202F)
   || (r =? 0x205F) || (r =? 0x3000))%N.

(** [unicode.IsSpace] *)
Definition IsSpace (r : N) : bool :=
  if (r <=? MaxLatin1)%N then
    ((r =? 9) || (r =? 10) || (r =? 11) || (r =? 12) || (r =? 13)
     || (r =? 32) || (r =? 0x85) || (r =? 0xA0))%N
  else White_Space r.

End unicode.

(** ** strings *)

Module strings.

Import utf8.

(** The loop of [strings.TrimLeftFunc]: skip the leading runes that
    satisfy [f]. *)
Fixpoint trimLeftLoop (fuel : nat) (f : N -> bool) (s : string) : string :=
  match fuel with
  | O => s
  | S fuel' =>
    match s with
    | EmptyString => EmptyString
    | String _ _ =>
      let '(r, w) := DecodeRuneInString s in
      if f r then trimLeftLoop fuel' f (drop w s) else s
    end
  end.

Definition TrimLeftFunc (s : string) (f : N -> bool) : string :=
  trimLeftLoop (String.length s) f s.

(** The loop of [strings.TrimRightFunc]: drop the trailing runes that
    satisfy [f], decoding backwards from the end. *)
Fixpoint trimRightLoop (fuel : nat) (f : N -> bool) (s : string) : string :=
  match fuel with
  | O => s
  | S fuel' =>
    match s with
    | EmptyString => EmptyString
    | String _ _ =>
      let '(r, size) := DecodeLastRuneInString s in
      if f r then trimRightLoop fuel' f (take (String.length s - size) s)
      else s
    end
  end.

Definition TrimRightFunc (s : string) (f : N -> bool) : string :=
  trimRightLoop (String.length s) f s.

(** [strings.TrimFunc] *)
Definition TrimFunc (s : string) (f : N -> bool) : string :=
  TrimRightFunc (TrimLeftFunc s f) f.

(** [strings.TrimSpace]: all leading and trailing white space removed,
    as defined by Unicode. *)
Definition TrimSpace (s : string) : string :=
  TrimFunc s unicode.IsSpace.

(** [strings.Index(s, substr)]: the index of the first instance of
    [substr] in [s]; [None] is Go's [-1]. *)
Fixpoint Index (s substr : string) : option nat :=
  if HasPrefix s substr then Some 0
  else
    match s with
    | EmptyString => None
    | String _ s' => option_map S (Index s' substr)
    end.

(** [strings.Contains(s, substr)]: [Index(s, substr) >= 0]. *)
Definition Contains (s substr : string) : bool :=
  match Index s substr with
  | Some _ => true
  | None => false
  end.

(** The loop of [genSplit] for a separator that is not empty: cut at the
    first instance of [sep], go on behind it.  It takes
    [Count(s, sep)] turns, at most one for each byte of [s]. *)
Fixpoint splitLoop (fuel : nat) (s sep : string) : list string :=
  match fuel with
  | O => [s]
  | S fuel' =>
    match Index s sep with
    | None => [s]
    | Some m =>
      take m s :: splitLoop fuel' (drop (m + String.length sep) s) sep
    end
  end.

(** [strings.Split(s, sep)]: [s] sliced into the substrings separated by
    [sep]; with an empty [sep], exploded into its UTF-8 sequences. *)
Definition Split (s sep : string) : list string :=
  if String.eqb sep "" then map raw (runes s)
  else splitLoop (String.length s) s sep.

(** [strings.Join(elems, sep)] *)
Definition Join (elems : list string) (sep : string) : string :=
  String.concat sep elems.

End strings.

(** ** regexp *)

Module regexp.

Import utf8.

(** The fragment of RE2 syntax trees ([regexp/syntax]) the package uses:
    literals, character classes, greedy repetition of a class, the line
    and text anchors, concatenation and alternation.  A class is the
    predicate on runes its range table decides.

    The machine reads its input rune by rune, as [inputString.step] does
    with [utf8.DecodeRuneInString]: an invalid byte is the rune
    [RuneError] of width one, which [.] and the negated classes accept.
    The context of a position, for [^] and [$] under [(?m)], is the rune
    before it and the rune at it. *)
Inductive Regexp : Type :=
| EmptyMatch
| Literal (cs : list N)
| CharClass (p : N -> bool)
| Star (p : N -> bool)
| Concat (r1 r2 : Regexp)
| Alternate (r1 r2 : Regexp)
| BeginLine
| EndLine
| BeginText
| EndText.

(** [x+] is compiled as [x] followed by the greedy loop [x*]. *)
Definition Plus (p : N -> bool) : Regexp := Concat (CharClass p) (Star p).

(** The literal made of the (ASCII) characters of [s]. *)
Definition Str (s : string) : Regexp :=
  Literal (map N_of_ascii (list_ascii_of_string s)).

(** A position of the machine: the rune before it ([None] at the
    beginning of the text) and the runes from it on. *)
Definition Pos : Type := (option N * list Rune)%type.

Definition Cont : Type := option N -> list Rune -> option Pos.

(** The greedy loop [p*]: one more rune first, the continuation at the
    current position when that fails. *)
Fixpoint starK (p : N -> bool) (prev : option N) (inp : list Rune)
         (k : Cont) : option Pos :=
  match inp with
  | x :: inp' =>
    if p (code x) then
      match starK p (Some (code x)) inp' k with
      | Some res => Some res
      | None => k prev inp
      end
    else k prev inp
  | [] => k prev inp
  end.

Fixpoint literalK (cs : list N) (prev : option N) (inp : list Rune)
         (k : Cont) : option Pos :=
  match cs with
  | [] => k prev inp
  | c :: cs' =>
    match inp with
    | x :: inp' =>
      if (code x =? c)%N then literalK cs' (Some (code x)) inp' k else None
    | [] => None
    end
  end.

(** The match a backtracking search finds first (leftmost-first, the
    semantics of [regexp.Compile]), in continuation-passing style. *)
Fixpoint matchK (re : Regexp) (prev : option N) (inp : list Rune)
         (k : Cont) : option Pos :=
  match re with
  | EmptyMatch => k prev inp
  | Literal cs => literalK cs prev inp k
  | CharClass p =>
    match inp with
    | x :: inp' => if p (code x) then k (Some (code x)) inp' else None
    | [] => None
    end
  | Star p => starK p prev inp k
  | Concat r1 r2 => matchK r1 prev inp (fun pv i => matchK r2 pv i k)
  | Alternate r1 r2 =>
    match matchK r1 prev inp k with
    | Some res => Some res
    | None => matchK r2 prev inp k
    end
  | BeginLine =>
    match prev with
    | None => k prev inp
    | Some c => if (c =? 10)%N then k prev inp else None
    end
  | EndLine =>
    match inp with
    | [] => k prev inp
    | x :: _ => if (code x =? 10)%N then k prev inp else None
    end
  | BeginText =>
    match prev with
    | None => k prev inp
    | Some _ => None
    end
  | EndText =>
    match inp with
    | [] => k prev inp
    | _ :: _ => None
    end
  end.

(** A match of [re] that starts exactly at the position: the position
    where it ends. *)
Definition matchAt (re : Regexp) (prev : option N) (inp : list Rune)
  : option Pos :=
  matchK re prev inp (fun pv i => Some (pv, i)).

(** The loop of [Regexp.replaceAll].  [afterMatch] says that the previous
    match ended at this very position: an empty match there is not
    replaced.  After an empty match, and where nothing matches, the
    machine moves on by one rune. *)
Fixpoint replaceAll (fuel : nat) (re : Regexp) (repl : string)
         (prev : option N) (inp : list Rune) (afterMatch : bool) : string :=
  match fuel with
  | O => bytes inp
  | S fuel' =>
    match matchAt re prev inp with
    | Some (pv, rest) =>
      if (List.length rest <? List.length inp)%nat then
        repl ++ replaceAll fuel' re repl pv rest true
      else
        (if afterMatch then "" else repl) ++
        match inp with
        | [] => ""
        | x :: inp' =>
          raw x ++ replaceAll fuel' re repl (Some (code x)) inp' false
        end
    | None =>
      match inp with
      | [] => ""
      | x :: inp' =>
        raw x ++ replaceAll fuel' re repl (Some (code x)) inp' false
      end
    end
  end.

(** [re.ReplaceAllString(src, repl)], for a [repl] without [$]. *)
Definition ReplaceAllString (re : Regexp) (src repl : string) : string :=
  let inp := runes src in
  replaceAll (S (List.length inp)) re repl None inp false.

(** [re.MatchString(s)]: some position of [s] starts a match. *)
Fixpoint matchFrom (re : Regexp) (prev : option N) (inp : list Rune)
  : bool :=
  match matchAt re prev inp with
  | Some _ => true
  | None =>
    match inp with
    | [] => false
    | x :: inp' => matchFrom re (Some (code x)) inp'
    end
  end.

Definition MatchString (re : Regexp) (s : string) : bool :=
  matchFrom re None (runes s).

(** Character classes of the patterns below. *)
Definition anyCharNotNL (r : N) : bool := negb (r =? 10)%N.
Definition notRune (c : N) (r : N) : bool := negb (r =? c)%N.
Definition isRune (c : N) (r : N) : bool := (r =? c)%N.
(** Perl's [\s]: [[\t\n\f\r ]]. *)
Definition perlSpace (r : N) : bool :=
  ((r =? 9) || (r =? 10) || (r =? 12) || (r =? 13) || (r =? 32))%N.

End regexp.

(** ** pkg/bodyfilter *)

Module bodyfilter.

Import regexp.

(** [(?m)^Co-Authored-By:.*$] *)
Definition coAuthoredByRe : Regexp :=
  Concat BeginLine
    (Concat (Str "Co-Authored-By:")
       (Concat (Star anyCharNotNL) EndLine)).

(** [(?s)---\s*Pull Request opened by \[[^\]]+\]\([^)]+\) with guidance from [^\n]+] *)
Definition prFooterRe : Regexp :=
  Concat (Str "---")
    (Concat (Star perlSpace)
       (Concat (Str "Pull Request opened by [")
          (Concat (Plus (notRune 93))
             (Concat (Str "](")
                (Concat (Plus (notRune 41))
                   (Concat (Str ") with guidance from ")
                      (Plus (notRune 10)))))))).

(** [defaultFilterPatterns] *)
Definition defaultFilterPatterns : list string :=
  [ "(?m)^Co-Authored-By:.*$";
    "(?s)---\s*Pull Request opened by \[[^\]]+\]\([^)]+\) with guidance from [^\n]+" ].

(** The package state: the variable [filterPatterns] and what the
    package has written to the standard logger. *)
Record Package : Type := mkPackage {
  filterPatterns : list Regexp;
  logged : list string
}.

Section Configure.

(** [regexp.Compile]: the compiled pattern, or the error's text. *)
Variable Compile : string -> Regexp + string.
(** The verb [%q] of [fmt]: the pattern as a quoted Go literal. *)
Variable Quote : string -> string.

Definition warning (pattern err : string) : string :=
  "Warning: failed to compile filter pattern " ++ Quote pattern
  ++ ": " ++ err.

(** One turn of the loop over [patterns]. *)
Definition setFilterPattern (pkg : Package) (pattern : string) : Package :=
  match Compile pattern with
  | inr err =>
    mkPackage (filterPatterns pkg) (logged pkg ++ [warning pattern err])%list
  | inl compiled =>
    mkPackage (filterPatterns pkg ++ [compiled])%list (logged pkg)
  end.

(** [SetFilterPatterns] *)
Definition SetFilterPatterns (patterns : list string) (pkg : Package)
  : Package :=
  fold_left setFilterPattern patterns (mkPackage [] (logged pkg)).

(** [init] *)
Definition init (pkg : Package) : Package :=
  SetFilterPatterns defaultFilterPatterns pkg.

End Configure.

(** The compiled forms of [defaultFilterPatterns], in order. *)
Definition defaultFilterRegexps : list Regexp :=
  [coAuthoredByRe; prFooterRe].

(** [\n{3,}]: three line feeds, then the greedy loop. *)
Definition multipleNewlines : Regexp :=
  Concat (Literal [10; 10; 10]%N) (Star (isRune 10)).

(** [FilterBody], reading the package variable [filterPatterns]. *)
Definition FilterBody (filterPatterns : list Regexp) (body : string)
  : string :=
  if String.eqb body "" then body
  else
    let filtered :=
      fold_left (fun filtered pattern => ReplaceAllString pattern filtered "")
                filterPatterns body in
    let filtered := ReplaceAllString multipleNewlines filtered (LF ++ LF) in
    strings.TrimSpace filtered.

End bodyfilter.

(** ** os *)

Module os.

(** The error numbers of the system calls behind [Getwd] and [Stat]. *)
Inductive Errno : Type :=
| ENOENT
| ENOTDIR
| EACCES
| ELOOP
| ENAMETOOLONG
| EIO.

(** [os.IsNotExist(err)] for the error of a failed system call:
    [Errno.Is(ErrNotExist)] holds of [ENOENT] alone. *)
Definition IsNotExist (err : option Errno) : bool :=
  match err with
  | Some ENOENT => true
  | _ => false
  end.

(** What the process sees of the operating system: the current working
    directory and the outcome of [stat] on each path ([None] is a nil
    error, the entry was found). *)
Record OS : Type := mkOS {
  Getwd : string + Errno;
  Stat : string -> option Errno
}.

(** [os.IsPathSeparator] on Unix. *)
Definition IsPathSeparator (c : ascii) : bool := Ascii.eqb c "/"%char.

End os.

(** ** path/filepath (Unix) *)

Module filepath.

(** The elements of [path] between separators; [cur] is the element
    being read. *)
Fixpoint splitElems (path cur : string) : list string :=
  match path with
  | EmptyString => [cur]
  | String c path' =>
    if os.IsPathSeparator c then cur :: splitElems path' ""
    else splitElems path' (cur ++ String c "")
  end.

(** One element processed by the loop of [Clean]; [out] holds the
    elements written so far, last first. *)
Definition cleanStep (rooted : bool) (out : list string) (elem : string)
  : list string :=
  if String.eqb elem "" || String.eqb elem "." then out
  else if String.eqb elem ".." then
    match out with
    | top :: out' =>
      if String.eqb top ".." then elem :: out else out'
    | [] => if rooted then [] else [elem]
    end
  else elem :: out.

(** [filepath.Clean]: the shortest path equivalent to [path] by purely
    lexical processing. *)
Definition Clean (path : string) : string :=
  match path with
  | EmptyString => "."
  | String c _ =>
    let rooted := os.IsPathSeparator c in
    let out := rev (fold_left (cleanStep rooted) (splitElems path "") []) in
    let body := String.concat "/" out in
    if rooted then "/" ++ body
    else if String.eqb body "" then "." else body
  end.

(** [filepath.IsAbs] *)
Definition IsAbs (path : string) : bool := HasPrefix path "/".

(** [filepath.Join]: the elements from the first non-empty one on,
    separated by [/], and cleaned. *)
Fixpoint Join (elem : list string) : string :=
  match elem with
  | [] => ""
  | e :: elem' =>
    if String.eqb e "" then Join elem'
    else Clean (String.concat "/" elem)
  end.

(** [filepath.Abs] *)
Definition Abs (sys : os.OS) (path : string) : string + os.Errno :=
  if IsAbs path then inl (Clean path)
  else
    match os.Getwd sys with
    | inr err => inr err
    | inl wd => inl (Join [wd; path])
    end.

(** The first loop of [Base]: strip the trailing slashes. *)
Fixpoint stripTrailingSlashes (fuel : nat) (path : string) : string :=
  match fuel with
  | O => path
  | S fuel' =>
    match String.get (String.length path - 1) path with
    | Some c =>
      if os.IsPathSeparator c
      then stripTrailingSlashes fuel' (take (String.length path - 1) path)
      else path
    | None => path
    end
  end.

(** The second loop of [Base], which walks [i] down from the last byte
    to the last separator: the result is [i + 1], where the last
    element starts ([0] when the loop ends with [i = -1]). *)
Fixpoint lastElemStart (path : string) (k : nat) : nat :=
  match k with
  | O => O
  | S i =>
    match String.get i path with
    | Some c => if os.IsPathSeparator c then k else lastElemStart path i
    | None => lastElemStart path i
    end
  end.

(** [filepath.Base]: the last element of [path]. *)
Definition Base (path : string) : string :=
  if String.eqb path "" then "."
  else
    let path := stripTrailingSlashes (String.length path) path in
    let path := drop (lastElemStart path (String.length path)) path in
    if String.eqb path "" then "/" else path.

End filepath.

(** ** strconv *)

Module strconv.

(** [strconv.Itoa(n)], which is what the verb [%d] of [fmt] prints, for
    an [n] that is not negative. *)
Definition Itoa (n : nat) : string :=
  DecimalString.NilEmpty.string_of_uint (Nat.to_uint n).

End strconv.

(** ** pkg/git *)

Module git.

(** The errors of [validateRepoPath], by the format that builds them. *)
Inductive PathError : Type :=
| NoRepository
  (* "no repository specified and no defaults configured" *)
| InvalidPath (err : os.Errno)
  (* "invalid path: %w" *)
| AccessDenied (absPath : string)
  (* "access denied - path outside allowed repositories: %s" *)
| NotAGitRepository (absPath : string).
  (* "not a git repository: %s" *)

(** The loop that sets [isAllowed], with its [break]. *)
Fixpoint isAllowedLoop (absPath : string) (allowedPaths : list string)
  : bool :=
  match allowedPaths with
  | [] => false
  | repoPath :: allowedPaths' =>
    if HasPrefix absPath repoPath then true
    else isAllowedLoop absPath allowedPaths'
  end.

(** [validateRepoPath] *)
Definition validateRepoPath (sys : os.OS) (requestedPath : string)
           (allowedPaths : list string) : string + PathError :=
  if String.eqb requestedPath "" then
    match allowedPaths with
    | first :: _ => inl first
    | [] => inr NoRepository
    end
  else
    match filepath.Abs sys requestedPath with
    | inr err => inr (InvalidPath err)
    | inl absPath =>
      let isAllowed := isAllowedLoop absPath allowedPaths in
      if negb isAllowed && (0 <? List.length allowedPaths)%nat then
        inr (AccessDenied absPath)
      else
        let gitDirPath := filepath.Join [absPath; ".git"] in
        if os.IsNotExist (os.Stat sys gitDirPath) then
          inr (NotAGitRepository absPath)
        else inl absPath
    end.

(** *** The tools of [tools.go] *)

(** [gitops.GitOperations]: each operation answers with its output or
    with the text of its error. *)
Record GitOperations : Type := mkGitOperations {
  GetStatus : string -> string + string;
  GetDiffUnstaged : string -> string + string;
  GetDiffStaged : string -> string + string;
  GetDiff : string -> string -> string + string;
  CommitChanges : string -> string -> string + string;
  AddFiles : string -> list string -> string + string;
  ResetStaged : string -> string + string;
  GetLog : string -> Z -> list string + string;
  CreateBranch : string -> string -> string -> string + string;
  CheckoutBranch : string -> string -> string + string;
  InitRepo : string -> string + string;
  ShowCommit : string -> string -> string + string;
  PushChanges : string -> string -> string -> string + string;
  PullChanges : string -> string -> string -> string + string;
  ApplyPatchFromString : string -> string -> string + string;
  ApplyPatchFromFile : string -> string -> string + string
}.

(** A call of a method of [GitOperations], with its arguments. *)
Inductive Call : Type :=
| GetStatusCall (repoPath : string)
| GetDiffUnstagedCall (repoPath : string)
| GetDiffStagedCall (repoPath : string)
| GetDiffCall (repoPath target : string)
| CommitChangesCall (repoPath message : string)
| AddFilesCall (repoPath : string) (files : list string)
| ResetStagedCall (repoPath : string)
| GetLogCall (repoPath : string) (maxCount : Z)
| CreateBranchCall (repoPath branchName baseBranch : string)
| CheckoutBranchCall (repoPath branchName : string)
| InitRepoCall (repoPath : string)
| ShowCommitCall (repoPath revision : string)
| PushChangesCall (repoPath remote branch : string)
| PullChangesCall (repoPath remote branch : string)
| ApplyPatchFromStringCall (repoPath patchString : string)
| ApplyPatchFromFileCall (repoPath patchFilePath : string).

(** The first argument of every method: the directory git runs in. *)
Definition repoPathOf (c : Call) : string :=
  match c with
  | GetStatusCall p | GetDiffUnstagedCall p | GetDiffStagedCall p
  | GetDiffCall p _ | CommitChangesCall p _ | AddFilesCall p _
  | ResetStagedCall p | GetLogCall p _ | CreateBranchCall p _ _
  | CheckoutBranchCall p _ | InitRepoCall p | ShowCommitCall p _
  | PushChangesCall p _ _ | PullChangesCall p _ _
  | ApplyPatchFromStringCall p _ | ApplyPatchFromFileCall p _ => p
  end.

(** [GitToolDependencies] *)
Record GitToolDependencies : Type := mkGitToolDependencies {
  GetGitOps : GitOperations;
  GetRepoPaths : list string
}.

(** [mcp.CallToolRequest], of which the handlers read
    [Params.Arguments], the raw JSON of the arguments. *)
Record CallToolRequest : Type := mkCallToolRequest {
  ParamsArguments : string
}.

(** [mcp.CallToolResult] as [utils.NewToolResultText] and
    [utils.NewToolResultError] build it. *)
Inductive CallToolResult : Type :=
| NewToolResultText (text : string)
| NewToolResultError (message : string).

(** What a handler has done when it returns: its result, and the git
    operations it has called, in order. *)
Record Outcome : Type := mkOutcome {
  result : CallToolResult;
  calls : list Call
}.

(** The files of [GitAdd]: a single file, or a comma-separated or a
    space-delimited list, each entry trimmed. *)
Definition parseFiles (filesStr : string) : list string :=
  if strings.Contains filesStr "," then
    map strings.TrimSpace (strings.Split filesStr ",")
  else if strings.Contains filesStr " " then
    map strings.TrimSpace (strings.Split filesStr " ")
  else [filesStr].

(** The loop of [GitListRepositories]; [i] is the index of the first of
    [repoPaths]. *)
Fixpoint listRepositoriesLoop (i : nat) (repoPaths : list string) : string :=
  match repoPaths with
  | [] => ""
  | repoPath :: repoPaths' =>
    let repoName := filepath.Base repoPath in
    (strconv.Itoa (i + 1) ++ ". " ++ repoName ++ " (" ++ repoPath ++ ")" ++ LF)
    ++ listRepositoriesLoop (i + 1) repoPaths'
  end.

Section Tools.

(** Go's [float64] and the conversion [int(f)]. *)
Variable float64 : Type.
Variable int : float64 -> Z.

(** What [json.Unmarshal] stores in an [any]. *)
#[warnings="-register-all"] Inductive Value : Type :=
| VNil
| VBool (b : bool)
| VFloat64 (f : float64)
| VString (s : string)
| VSlice (elems : list Value)
| VMap (fields : list (string * Value)).

(** A [map[string]any], read by key. *)
Definition Args : Type := string -> option Value.

(** [v.(string)], of the value found under a key. *)
Definition asString (v : option Value) : option string :=
  match v with
  | Some (VString s) => Some s
  | _ => None
  end.

(** [v.(float64)] *)
Definition asFloat64 (v : option Value) : option float64 :=
  match v with
  | Some (VFloat64 f) => Some f
  | _ => None
  end.

(** The operating system the process runs on. *)
Variable sys : os.OS.
(** The text of the error of [Getwd]. *)
Variable errorText : os.Errno -> string.
(** [json.Unmarshal] into a [map[string]any]: the map, or the text of
    the error. *)
Variable Unmarshal : string -> Args + string.

(** The text of an error of [validateRepoPath]. *)
Definition Error (err : PathError) : string :=
  match err with
  | NoRepository => "no repository specified and no defaults configured"
  | InvalidPath e => "invalid path: " ++ errorText e
  | AccessDenied absPath =>
    "access denied - path outside allowed repositories: " ++ absPath
  | NotAGitRepository absPath => "not a git repository: " ++ absPath
  end.

(** A return before any git operation is called. *)
Definition returns (r : CallToolResult) : Outcome := mkOutcome r [].

(** A return behind the call [c]. *)
Definition returnsAfter (c : Call) (r : CallToolResult) : Outcome :=
  mkOutcome r [c].

(** The statement all handlers but [GitInit] start with: [requestedPath]
    is the string under [repo_path], if there is one. *)
Definition requestedPathOf (args : Args) : string :=
  match asString (args "repo_path") with
  | Some val => val
  | None => ""
  end.

(** The string under [key], or the empty string: the optional
    arguments of [GitCreateBranch], [GitPush] and [GitPull]. *)
Definition optionalString (args : Args) (key : string) : string :=
  match args key with
  | Some v =>
    match asString (Some v) with
    | Some s => s
    | None => ""
    end
  | None => ""
  end.

(** [GitStatus] *)
Definition GitStatus (deps : GitToolDependencies) (request : CallToolRequest)
  : Outcome :=
  match Unmarshal (ParamsArguments request) with
  | inr err =>
    returns (NewToolResultError ("Failed to parse arguments: " ++ err))
  | inl args =>
    let requestedPath := requestedPathOf args in
    match validateRepoPath sys requestedPath (GetRepoPaths deps) with
    | inr err =>
      returns (NewToolResultError ("Repository path error: " ++ Error err))
    | inl repoPath =>
      match GetStatus (GetGitOps deps) repoPath with
      | inr err =>
        returnsAfter (GetStatusCall repoPath)
          (NewToolResultError ("Failed to get status: " ++ err))
      | inl status =>
        returnsAfter (GetStatusCall repoPath)
          (NewToolResultText
             ("Repository status for " ++ repoPath ++ ":" ++ LF ++ status))
      end
    end
  end.

(** [GitDiffUnstaged] *)
Definition GitDiffUnstaged (deps : GitToolDependencies)
           (request : CallToolRequest) : Outcome :=
  match Unmarshal (ParamsArguments request) with
  | inr err =>
    returns (NewToolResultError ("Failed to parse arguments: " ++ err))
  | inl args =>
    let requestedPath := requestedPathOf args in
    match validateRepoPath sys requestedPath (GetRepoPaths deps) with
    | inr err =>
      returns (NewToolResultError ("Repository path error: " ++ Error err))
    | inl repoPath =>
      match GetDiffUnstaged (GetGitOps deps) repoPath with
      | inr err =>
        returnsAfter (GetDiffUnstagedCall repoPath)
          (NewToolResultError ("Failed to get unstaged diff: " ++ err))
      | inl diff =>
        returnsAfter (GetDiffUnstagedCall repoPath)
          (NewToolResultText
             ("Unstaged changes for " ++ repoPath ++ ":" ++ LF ++ diff))
      end
    end
  end.

(** [GitDiffStaged] *)
Definition GitDiffStaged (deps : GitToolDependencies)
           (request : CallToolRequest) : Outcome :=
  match Unmarshal (ParamsArguments request) with
  | inr err =>
    returns (NewToolResultError ("Failed to parse arguments: " ++ err))
  | inl args =>
    let requestedPath := requestedPathOf args in
    match validateRepoPath sys requestedPath (GetRepoPaths deps) with
    | inr err =>
      returns (NewToolResultError ("Repository path error: " ++ Error err))
    | inl repoPath =>
      match GetDiffStaged (GetGitOps deps) repoPath with
      | inr err =>
        returnsAfter (GetDiffStagedCall repoPath)
          (NewToolResultError ("Failed to get staged diff: " ++ err))
      | inl diff =>
        returnsAfter (GetDiffStagedCall repoPath)
          (NewToolResultText
             ("Staged changes for " ++ repoPath ++ ":" ++ LF ++ diff))
      end
    end
  end.

(** [GitDiff] *)
Definition GitDiff (deps : GitToolDependencies) (request : CallToolRequest)
  : Outcome :=
  match Unmarshal (ParamsArguments request) with
  | inr err =>
    returns (NewToolResultError ("Failed to parse arguments: " ++ err))
  | inl args =>
    let requestedPath := requestedPathOf args in
    match validateRepoPath sys requestedPath (GetRepoPaths deps) with
    | inr err =>
      returns (NewToolResultError ("Repository path error: " ++ Error err))
    | inl repoPath =>
      match asString (args "target") with
      | None => returns (NewToolResultError "target must be a string")
      | Some target =>
        match GetDiff (GetGitOps deps) repoPath target with
        | inr err =>
          returnsAfter (GetDiffCall repoPath target)
            (NewToolResultError ("Failed to get diff: " ++ err))
        | inl diff =>
          returnsAfter (GetDiffCall repoPath target)
            (NewToolResultText
               ("Diff with " ++ target ++ " for " ++ repoPath ++ ":" ++ LF
                ++ diff))
        end
      end
    end
  end.

(** [GitCommit] *)
Definition GitCommit (deps : GitToolDependencies) (request : CallToolRequest)
  : Outcome :=
  match Unmarshal (ParamsArguments request) with
  | inr err =>
    returns (NewToolResultError ("Failed to parse arguments: " ++ err))
  | inl args =>
    let requestedPath := requestedPathOf args in
    match validateRepoPath sys requestedPath (GetRepoPaths deps) with
    | inr err =>
      returns (NewToolResultError ("Repository path error: " ++ Error err))
    | inl repoPath =>
      match asString (args "message") with
      | None => returns (NewToolResultError "message must be a string")
      | Some message =>
        match CommitChanges (GetGitOps deps) repoPath message with
        | inr err =>
          returnsAfter (CommitChangesCall repoPath message)
            (NewToolResultError ("Failed to commit: " ++ err))
        | inl result =>
          returnsAfter (CommitChangesCall repoPath message)
            (NewToolResultText result)
        end
      end
    end
  end.

(** [GitAdd] *)
Definition GitAdd (deps : GitToolDependencies) (request : CallToolRequest)
  : Outcome :=
  match Unmarshal (ParamsArguments request) with
  | inr err =>
    returns (NewToolResultError ("Failed to parse arguments: " ++ err))
  | inl argsMap =>
    let requestedPath := requestedPathOf argsMap in
    match validateRepoPath sys requestedPath (GetRepoPaths deps) with
    | inr err =>
      returns (NewToolResultError ("Repository path error: " ++ Error err))
    | inl repoPath =>
      match asString (argsMap "files") with
      | None => returns (NewToolResultError "files must be a string")
      | Some filesStr =>
        let files := parseFiles filesStr in
        match AddFiles (GetGitOps deps) repoPath files with
        | inr err =>
          returnsAfter (AddFilesCall repoPath files)
            (NewToolResultError ("Failed to add files: " ++ err))
        | inl result =>
          returnsAfter (AddFilesCall repoPath files)
            (NewToolResultText result)
        end
      end
    end
  end.

(** [GitReset] *)
Definition GitReset (deps : GitToolDependencies) (request : CallToolRequest)
  : Outcome :=
  match Unmarshal (ParamsArguments request) with
  | inr err =>
    returns (NewToolResultError ("Failed to parse arguments: " ++ err))
  | inl args =>
    let requestedPath := requestedPathOf args in
    match validateRepoPath sys requestedPath (GetRepoPaths deps) with
    | inr err =>
      returns (NewToolResultError ("Repository path error: " ++ Error err))
    | inl repoPath =>
      match ResetStaged (GetGitOps deps) repoPath with
      | inr err =>
        returnsAfter (ResetStagedCall repoPath)
          (NewToolResultError ("Failed to reset: " ++ err))
      | inl result =>
        returnsAfter (ResetStagedCall repoPath) (NewToolResultText result)
      end
    end
  end.

(** [GitLog] *)
Definition GitLog (deps : GitToolDependencies) (request : CallToolRequest)
  : Outcome :=
  match Unmarshal (ParamsArguments request) with
  | inr err =>
    returns (NewToolResultError ("Failed to parse arguments: " ++ err))
  | inl args =>
    let requestedPath := requestedPathOf args in
    match validateRepoPath sys requestedPath (GetRepoPaths deps) with
    | inr err =>
      returns (NewToolResultError ("Repository path error: " ++ Error err))
    | inl repoPath =>
      let maxCount :=
        match args "max_count" with
        | Some maxCountInterface =>
          match asFloat64 (Some maxCountInterface) with
          | Some maxCountFloat => int maxCountFloat
          | None => 10%Z
          end
        | None => 10%Z
        end in
      match GetLog (GetGitOps deps) repoPath maxCount with
      | inr err =>
        returnsAfter (GetLogCall repoPath maxCount)
          (NewToolResultError ("Failed to get log: " ++ err))
      | inl logs =>
        returnsAfter (GetLogCall repoPath maxCount)
          (NewToolResultText
             ("Commit history for " ++ repoPath ++ ":" ++ LF
              ++ strings.Join logs LF))
      end
    end
  end.

(** [GitCreateBranch] *)
Definition GitCreateBranch (deps : GitToolDependencies)
           (request : CallToolRequest) : Outcome :=
  match Unmarshal (ParamsArguments request) with
  | inr err =>
    returns (NewToolResultError ("Failed to parse arguments: " ++ err))
  | inl args =>
    let requestedPath := requestedPathOf args in
    match validateRepoPath sys requestedPath (GetRepoPaths deps) with
    | inr err =>
      returns (NewToolResultError ("Repository path error: " ++ Error err))
    | inl repoPath =>
      match asString (args "branch_name") with
      | None => returns (NewToolResultError "branch_name must be a string")
      | Some branchName =>
        let baseBranch := optionalString args "base_branch" in
        match CreateBranch (GetGitOps deps) repoPath branchName baseBranch
        with
        | inr err =>
          returnsAfter (CreateBranchCall repoPath branchName baseBranch)
            (NewToolResultError ("Failed to create branch: " ++ err))
        | inl result =>
          returnsAfter (CreateBranchCall repoPath branchName baseBranch)
            (NewToolResultText result)
        end
      end
    end
  end.

(** [GitCheckout] *)
Definition GitCheckout (deps : GitToolDependencies)
           (request : CallToolRequest) : Outcome :=
  match Unmarshal (ParamsArguments request) with
  | inr err =>
    returns (NewToolResultError ("Failed to parse arguments: " ++ err))
  | inl args =>
    let requestedPath := requestedPathOf args in
    match validateRepoPath sys requestedPath (GetRepoPaths deps) with
    | inr err =>
      returns (NewToolResultError ("Repository path error: " ++ Error err))
    | inl repoPath =>
      match asString (args "branch_name") with
      | None => returns (NewToolResultError "branch_name must be a string")
      | Some branchName =>
        match CheckoutBranch (GetGitOps deps) repoPath branchName with
        | inr err =>
          returnsAfter (CheckoutBranchCall repoPath branchName)
            (NewToolResultError ("Failed to checkout branch: " ++ err))
        | inl result =>
          returnsAfter (CheckoutBranchCall repoPath branchName)
            (NewToolResultText result)
        end
      end
    end
  end.

(** [GitShow] *)
Definition GitShow (deps : GitToolDependencies) (request : CallToolRequest)
  : Outcome :=
  match Unmarshal (ParamsArguments request) with
  | inr err =>
    returns (NewToolResultError ("Failed to parse arguments: " ++ err))
  | inl args =>
    let requestedPath := requestedPathOf args in
    match validateRepoPath sys requestedPath (GetRepoPaths deps) with
    | inr err =>
      returns (NewToolResultError ("Repository path error: " ++ Error err))
    | inl repoPath =>
      match asString (args "revision") with
      | None => returns (NewToolResultError "revision must be a string")
      | Some revision =>
        match ShowCommit (GetGitOps deps) repoPath revision with
        | inr err =>
          returnsAfter (ShowCommitCall repoPath revision)
            (NewToolResultError ("Failed to show commit: " ++ err))
        | inl result =>
          returnsAfter (ShowCommitCall repoPath revision)
            (NewToolResultText result)
        end
      end
    end
  end.

(** [GitInit] *)
Definition GitInit (deps : GitToolDependencies) (request : CallToolRequest)
  : Outcome :=
  match Unmarshal (ParamsArguments request) with
  | inr err =>
    returns (NewToolResultError ("Failed to parse arguments: " ++ err))
  | inl args =>
    match asString (args "repo_path") with
    | None =>
      returns
        (NewToolResultError "repo_path must be specified for initialization")
    | Some requestedPath =>
      if String.eqb requestedPath "" then
        returns
          (NewToolResultError
             "repo_path must be specified for initialization")
      else
        match filepath.Abs sys requestedPath with
        | inr err =>
          returns
            (NewToolResultError
               ("Failed to get absolute path: " ++ errorText err))
        | inl absPath =>
          match InitRepo (GetGitOps deps) absPath with
          | inr err =>
            returnsAfter (InitRepoCall absPath)
              (NewToolResultError
                 ("Failed to initialize repository: " ++ err))
          | inl result =>
            returnsAfter (InitRepoCall absPath) (NewToolResultText result)
          end
        end
    end
  end.

(** [GitPush] *)
Definition GitPush (deps : GitToolDependencies) (request : CallToolRequest)
  : Outcome :=
  match Unmarshal (ParamsArguments request) with
  | inr err =>
    returns (NewToolResultError ("Failed to parse arguments: " ++ err))
  | inl args =>
    let requestedPath := requestedPathOf args in
    match validateRepoPath sys requestedPath (GetRepoPaths deps) with
    | inr err =>
      returns (NewToolResultError ("Repository path error: " ++ Error err))
    | inl repoPath =>
      let remote := optionalString args "remote" in
      let branch := optionalString args "branch" in
      match PushChanges (GetGitOps deps) repoPath remote branch with
      | inr err =>
        returnsAfter (PushChangesCall repoPath remote branch)
          (NewToolResultError ("Failed to push changes: " ++ err))
      | inl result =>
        returnsAfter (PushChangesCall repoPath remote branch)
          (NewToolResultText result)
      end
    end
  end.

(** [GitPull] *)
Definition GitPull (deps : GitToolDependencies) (request : CallToolRequest)
  : Outcome :=
  match Unmarshal (ParamsArguments request) with
  | inr err =>
    returns (NewToolResultError ("Failed to parse arguments: " ++ err))
  | inl args =>
    let requestedPath := requestedPathOf args in
    match validateRepoPath sys requestedPath (GetRepoPaths deps) with
    | inr err =>
      returns (NewToolResultError ("Repository path error: " ++ Error err))
    | inl repoPath =>
      let remote := optionalString args "remote" in
      let branch := optionalString args "branch" in
      match PullChanges (GetGitOps deps) repoPath remote branch with
      | inr err =>
        returnsAfter (PullChangesCall repoPath remote branch)
          (NewToolResultError ("Failed to pull changes: " ++ err))
      | inl result =>
        returnsAfter (PullChangesCall repoPath remote branch)
          (NewToolResultText result)
      end
    end
  end.

(** [GitListRepositories] *)
Definition GitListRepositories (deps : GitToolDependencies)
           (request : CallToolRequest) : Outcome :=
  let repoPaths := GetRepoPaths deps in
  if (List.length repoPaths =? 0)%nat then
    returns (NewToolResultText "No repositories configured")
  else
    returns
      (NewToolResultText
         (("Available repositories (" ++ strconv.Itoa (List.length repoPaths)
           ++ "):" ++ LF ++ LF)
          ++ listRepositoriesLoop 0 repoPaths)).

(** [GitApplyPatchString] *)
Definition GitApplyPatchString (deps : GitToolDependencies)
           (request : CallToolRequest) : Outcome :=
  match Unmarshal (ParamsArguments request) with
  | inr err =>
    returns (NewToolResultError ("Failed to parse arguments: " ++ err))
  | inl args =>
    let requestedPath := requestedPathOf args in
    match validateRepoPath sys requestedPath (GetRepoPaths deps) with
    | inr err =>
      returns (NewToolResultError ("Repository path error: " ++ Error err))
    | inl repoPath =>
      match asString (args "patch_string") with
      | None => returns (NewToolResultError "patch_string must be a string")
      | Some patchString =>
        if String.eqb (strings.TrimSpace patchString) "" then
          returns (NewToolResultError "patch_string cannot be empty")
        else
          match ApplyPatchFromString (GetGitOps deps) repoPath patchString
          with
          | inr err =>
            returnsAfter (ApplyPatchFromStringCall repoPath patchString)
              (NewToolResultError ("Failed to apply patch: " ++ err))
          | inl result =>
            returnsAfter (ApplyPatchFromStringCall repoPath patchString)
              (NewToolResultText result)
          end
      end
    end
  end.

(** [GitApplyPatchFile] *)
Definition GitApplyPatchFile (deps : GitToolDependencies)
           (request : CallToolRequest) : Outcome :=
  match Unmarshal (ParamsArguments request) with
  | inr err =>
    returns (NewToolResultError ("Failed to parse arguments: " ++ err))
  | inl args =>
    let requestedPath := requestedPathOf args in
    match validateRepoPath sys requestedPath (GetRepoPaths deps) with
    | inr err =>
      returns (NewToolResultError ("Repository path error: " ++ Error err))
    | inl repoPath =>
      match asString (args "patch_file") with
      | None => returns (NewToolResultError "patch_file must be a string")
      | Some patchFile =>
        if String.eqb (strings.TrimSpace patchFile) "" then
          returns (NewToolResultError "patch_file cannot be empty")
        else
          match filepath.Abs sys patchFile with
          | inr err =>
            returns
              (NewToolResultError
                 ("Invalid patch file path: " ++ errorText err))
          | inl absPath =>
            if os.IsNotExist (os.Stat sys absPath) then
              returns
                (NewToolResultError
                   ("Patch file does not exist: " ++ absPath))
            else
              match ApplyPatchFromFile (GetGitOps deps) repoPath absPath with
              | inr err =>
                returnsAfter (ApplyPatchFromFileCall repoPath absPath)
                  (NewToolResultError ("Failed to apply patch: " ++ err))
              | inl result =>
                returnsAfter (ApplyPatchFromFileCall repoPath absPath)
                  (NewToolResultText result)
              end
          end
      end
    end
  end.

(** [AllGitTools]: the handlers in the order of the list, each under
    the [Name] of its tool. *)
Definition AllGitTools
  : list (string * (GitToolDependencies -> CallToolRequest -> Outcome)) :=
  [ ("git_status", GitStatus);
    ("git_diff_unstaged", GitDiffUnstaged);
    ("git_diff_staged", GitDiffStaged);
    ("git_diff", GitDiff);
    ("git_commit", GitCommit);
    ("git_add", GitAdd);
    ("git_reset", GitReset);
    ("git_log", GitLog);
    ("git_create_branch", GitCreateBranch);
    ("git_checkout", GitCheckout);
    ("git_show", GitShow);
    ("git_init", GitInit);
    ("git_push", GitPush);
    ("git_pull", GitPull);
    ("git_list_repositories", GitListRepositories);
    ("git_apply_patch_string", GitApplyPatchString);
    ("git_apply_patch_file", GitApplyPatchFile) ].

End Tools.

Arguments VNil {float64}.
Arguments VBool {float64} b.
Arguments VFloat64 {float64} f.
Arguments VString {float64} s.
Arguments VSlice {float64} elems.
Arguments VMap {float64} fields.
Arguments asString {float64} v.
Arguments asFloat64 {float64} v.
Arguments requestedPathOf {float64} args.
Arguments optionalString {float64} args key.

End git.


(** ** pkg/translations *)

Module translations.

Import regexp bodyfilter.

(** [NullTranslationHelper] *)
Definition NullTranslationHelper (_ defaultValue : string) : string :=
  defaultValue.

(** A [map[string]string], read by key. *)
Definition Map : Type := string -> option string.

(** [map[string]string{}] *)
Definition emptyMap : Map := fun _ => None.

(** [m[key] = value] *)
Definition store (m : Map) (key value : string) : Map :=
  fun k => if String.eqb k key then Some value else m k.

(** What is wrong when [v.ReadInConfig()] fails: the file is not there
    ([viper.ConfigFileNotFoundError]), or another error, with its
    text. *)
Inductive ConfigError : Type :=
| ConfigFileNotFoundError
| OtherError (text : string).

Section Helper.

(** [strings.ToUpper] *)
Variable ToUpper : string -> string.

(** viper: an instance, and the methods the package calls on it. *)
Variable Viper : Type.
Variable New : Viper.
Variable ReadInConfig : Viper -> Viper * option ConfigError.
Variable IsSet : Viper -> string -> bool.
Variable GetStringSlice : Viper -> string -> list string.
Variable SetDefault : Viper -> string -> string -> Viper.
Variable GetString : Viper -> string -> string.

(** [regexp.Compile] and the verb [%q], as [bodyfilter] uses them. *)
Variable Compile : string -> Regexp + string.
Variable Quote : string -> string.

(** What the returned functions have captured: [translationKeyMap] and
    the viper instance [v]. *)
Record Captured : Type := mkCaptured {
  translationKeyMap : Map;
  v : Viper
}.

(** [log.Printf], on the standard logger the package [bodyfilter] writes
    to as well. *)
Definition Printf (line : string) (pkg : Package) : Package :=
  mkPackage (filterPatterns pkg) (logged pkg ++ [line])%list.

(** [TranslationHelper], up to its [return]: the configuration is read
    and the filter patterns it lists are installed. *)
Definition TranslationHelper (pkg : Package) : Captured * Package :=
  let '(v, err) := ReadInConfig New in
  let pkg :=
    match err with
    | Some (OtherError text) =>
      Printf ("Could not read JSON config: " ++ text) pkg
    | Some ConfigFileNotFoundError => pkg
    | None => pkg
    end in
  let pkg :=
    if IsSet v "filter_patterns" then
      let patterns := GetStringSlice v "filter_patterns" in
      if (0 <? List.length patterns)%nat then
        SetFilterPatterns Compile Quote patterns
          (Printf ("Loading " ++ strconv.Itoa (List.length patterns)
                   ++ " filter patterns from config") pkg)
      else pkg
    else pkg in
  (mkCaptured emptyMap v, pkg).

(** The first function [TranslationHelper] returns, called with the
    environment [env] of the process at the time of the call. *)
Definition translate (env : string -> option string) (st : Captured)
           (key defaultValue : string) : string * Captured :=
  let key := ToUpper key in
  match translationKeyMap st key with
  | Some value => (value, st)
  | None =>
    match env ("GITHUB_MCP_" ++ key) with
    | Some value =>
      (value, mkCaptured (store (translationKeyMap st) key value) (v st))
    | None =>
      let v' := SetDefault (v st) key defaultValue in
      let value := GetString v' key in
      (value, mkCaptured (store (translationKeyMap st) key value) v')
    end
  end.

End Helper.

End translations.

(** ** pkg/bodyfilter, the table of [TestFilterBody] *)

Module bodyfilter_test.

(** The cases of [TestFilterBody]: input and expected output. *)
Definition tests : list (string * string) :=
  [
    (* empty string *)
    (EmptyString,
     EmptyString);
    (* no patterns to filter *)
    ("This is a normal PR description" ++ LF ++ LF ++ "With multiple lines",
     "This is a normal PR description" ++ LF ++ LF ++ "With multiple lines");
    (* single Co-Authored-By line *)
    ("Fix bug in authentication" ++ LF ++ LF ++ "Co-Authored-By: John Doe <john@example.com>",
     "Fix bug in authentication");
    (* multiple Co-Authored-By lines *)
    ("Fix bug in authentication" ++ LF ++ LF ++ "Co-Authored-By: John Doe <john@example.com>" ++ LF ++ "Co-Authored-By: Jane Smith <jane@example.com>",
     "Fix bug in authentication");
    (* Co-Authored-By in middle of text *)
    ("This is the description" ++ LF ++ LF ++ "Co-Authored-By: John Doe <john@example.com>" ++ LF ++ LF ++ "More content here",
     "This is the description" ++ LF ++ LF ++ "More content here");
    (* Co-Authored-By with different formats *)
    ("PR description" ++ LF ++ LF ++ "Co-Authored-By: John Doe <john@example.com>" ++ LF ++ "Co-Authored-By: Jane Smith <jane.smith@company.org>" ++ LF ++ "Co-Authored-By: Bob <bob123@test.co.uk>",
     "PR description");
    (* text containing 'Co-Authored-By' but not at line start *)
    ("This mentions Co-Authored-By: but not at start",
     "This mentions Co-Authored-By: but not at start");
    (* multiple blank lines cleanup *)
    ("Description" ++ LF ++ LF ++ LF ++ "Co-Authored-By: John Doe <john@example.com>" ++ LF ++ LF ++ LF ++ "More text",
     "Description" ++ LF ++ LF ++ "More text");
    (* real-world git commit message *)
    ("Add new feature for user authentication" ++ LF ++ LF ++ "This PR implements OAuth2 authentication flow." ++ LF ++ LF ++ "Fixes #123" ++ LF ++ LF ++ "Co-Authored-By: Alice Developer <alice@example.com>" ++ LF ++ "Co-Authored-By: Bob Reviewer <bob@example.com>",
     "Add new feature for user authentication" ++ LF ++ LF ++ "This PR implements OAuth2 authentication flow." ++ LF ++ LF ++ "Fixes #123");
    (* only Co-Authored-By lines *)
    ("Co-Authored-By: John Doe <john@example.com>" ++ LF ++ "Co-Authored-By: Jane Smith <jane@example.com>",
     EmptyString);
    (* preserves other trailers *)
    ("Fix critical bug" ++ LF ++ LF ++ "Signed-off-by: Developer <dev@example.com>" ++ LF ++ "Co-Authored-By: John Doe <john@example.com>" ++ LF ++ "Reviewed-by: Reviewer <reviewer@example.com>",
     "Fix critical bug" ++ LF ++ LF ++ "Signed-off-by: Developer <dev@example.com>" ++ LF ++ LF ++ "Reviewed-by: Reviewer <reviewer@example.com>");
    (* whitespace only *)
    ("   " ++ LF ++ LF ++ "   ",
     EmptyString);
    (* Co-Authored-By with various spacing *)
    ("Description" ++ LF ++ LF ++ "Co-Authored-By:    John Doe    <john@example.com>" ++ LF ++ "Co-Authored-By: Jane<jane@example.com>",
     "Description");
    (* filters out John Doe Co-Authored-By *)
    ("Fix authentication bug" ++ LF ++ LF ++ "This PR fixes the authentication issue." ++ LF ++ LF ++ "Co-Authored-By: John <john@doe.example>",
     "Fix authentication bug" ++ LF ++ LF ++ "This PR fixes the authentication issue.");
    (* filters out John Doe with other co-authors *)
    ("Add new feature" ++ LF ++ LF ++ "Co-Authored-By: Developer <dev@example.com>" ++ LF ++ "Co-Authored-By: John <john@doe.example>" ++ LF ++ "Co-Authored-By: Reviewer <reviewer@example.com>",
     "Add new feature");
    (* filters out generic PR footer - AI Coder *)
    ("Fix authentication bug" ++ LF ++ LF ++ "This PR fixes the authentication issue." ++ LF ++ LF ++ "---" ++ LF ++ "Pull Request opened by [AI Coder](https://aicoder.example/) with guidance from the PR author",
     "Fix authentication bug" ++ LF ++ LF ++ "This PR fixes the authentication issue.");
    (* filters out generic PR footer with extra whitespace *)
    ("Add new feature" ++ LF ++ LF ++ "Implementation details here." ++ LF ++ LF ++ "---" ++ LF ++ "Pull Request opened by [DevBot](https://devbot.example/) with guidance from the PR author" ++ LF,
     "Add new feature" ++ LF ++ LF ++ "Implementation details here.");
    (* filters out generic PR footer with other content *)
    ("Update documentation" ++ LF ++ LF ++ "Changes:" ++ LF ++ "- Updated README" ++ LF ++ "- Added examples" ++ LF ++ LF ++ "---" ++ LF ++ "Pull Request opened by [CodeAssist](https://codeassist.example/) with guidance from the PR author" ++ LF ++ LF ++ "Co-Authored-By: Developer <dev@example.com>",
     "Update documentation" ++ LF ++ LF ++ "Changes:" ++ LF ++ "- Updated README" ++ LF ++ "- Added examples");
    (* filters out generic PR footer - different tool name *)
    ("Implement new feature" ++ LF ++ LF ++ "Feature description here." ++ LF ++ LF ++ "---" ++ LF ++ "Pull Request opened by [AI Assistant](https://example.com/) with guidance from the developer",
     "Implement new feature" ++ LF ++ LF ++ "Feature description here.");
    (* filters out generic PR footer - different URL format *)
    ("Bug fix" ++ LF ++ LF ++ "Fixed the issue." ++ LF ++ LF ++ "---" ++ LF ++ "Pull Request opened by [CodeBot](https://codebot.io/app) with guidance from the team",
     "Bug fix" ++ LF ++ LF ++ "Fixed the issue.");
    (* filters out generic PR footer - minimal format *)
    ("Quick fix" ++ LF ++ LF ++ "---" ++ LF ++ "Pull Request opened by [X](http://x.com) with guidance from Y",
     "Quick fix")
  ].

(** The input of [TestFilterBodyIdempotent]. *)
Definition idempotentInput : string :=
  "PR description" ++ LF ++ LF
  ++ "Co-Authored-By: John Doe <john@example.com>" ++ LF ++ LF
  ++ "More content".

End bodyfilter_test.

Import utf8 regexp bodyfilter.

(** ** The vocabulary of the specification *)

Module spec.

Section Configure.

Variable Compile : string -> Regexp + string.
Variable Quote : string -> string.

(** The compiled forms of the patterns that compile, in input order. *)
Definition compiledInOrder (patterns : list string) : list Regexp :=
  flat_map (fun pattern =>
              match Compile pattern with
              | inl compiled => [compiled]
              | inr _ => []
              end) patterns.

(** One warning for each pattern that does not compile, in input
    order. *)
Definition warningsInOrder (patterns : list string) : list string :=
  flat_map (fun pattern =>
              match Compile pattern with
              | inl _ => []
              | inr err => [warning Quote pattern err]
              end) patterns.

End Configure.

(** [stat] finds a [.git] entry (directory or file) directly beneath
    [absPath]. *)
Definition hasGitEntry (sys : os.OS) (absPath : string) : Prop :=
  os.Stat sys (filepath.Join [absPath; ".git"]) = None.

(** A file system in which [/etc/passwd] is a regular file: [stat] finds
    it, and fails with [ENOTDIR] on every path that goes through it. *)
Definition passwdIsAFile : os.OS :=
  os.mkOS (inl "/")
          (fun path =>
             if String.eqb path "/etc/passwd" then None
             else if HasPrefix path "/etc/passwd/" then Some os.ENOTDIR
             else Some os.ENOENT).

(** A file system with no entry at all. *)
Definition emptyFS : os.OS :=
  os.mkOS (inl "/") (fun _ => Some os.ENOENT).

(** *** Line feeds and white space in byte strings *)

(** [s] holds no line-feed byte. *)
Fixpoint noLF (s : string) : bool :=
  match s with
  | EmptyString => true
  | String c t => negb (N_of_ascii c =? 10)%N && noLF t
  end.

(** The number of leading line-feed bytes. *)
Fixpoint leadLF (s : string) : nat :=
  match s with
  | String c t => if (N_of_ascii c =? 10)%N then S (leadLF t) else 0
  | EmptyString => 0
  end.

(** No line feed is followed by two more. *)
Fixpoint noTripleLF (s : string) : bool :=
  match s with
  | String c t =>
    (negb (N_of_ascii c =? 10)%N || (leadLF t <? 2)%nat) && noTripleLF t
  | EmptyString => true
  end.

(** The first rune of [s] is white space. *)
Definition startsWithSpace (s : string) : bool :=
  unicode.IsSpace (fst (DecodeRuneInString s)).

(** The last rune of [s] is white space. *)
Definition endsWithSpace (s : string) : bool :=
  unicode.IsSpace (fst (DecodeLastRuneInString s)).

(** Every rune of [s] is white space. *)
Definition whitespaceOnly (s : string) : Prop :=
  Forall (fun x => unicode.IsSpace (code x) = true) (runes s).





(** *** Runes *)

(** What a rune read off a string is known to satisfy: it has bytes; the
    line feed is the byte 10 and no other rune holds that byte; a rune
    other than [RuneError] is decided by its own bytes. *)
Record wfRune (x : Rune) : Prop := {
  wf_nonempty : raw x <> "";
  wf_lf : code x = 10%N -> raw x = LF;
  wf_nolf : code x <> 10%N -> noLF (raw x) = true;
  wf_stable : code x <> RuneError ->
              forall t, DecodeRuneInString (raw x ++ t)
                        = (code x, String.length (raw x))
}.

Definition spaceRune (x : Rune) : Prop :=
  wfRune x /\ unicode.IsSpace (code x) = true.

(** The runes of an ASCII string: one per byte. *)
Definition asciiRunes (s : string) : list Rune :=
  map (fun c => mkRune (N_of_ascii c) (String c "")) (list_ascii_of_string s).

(** *** Matches *)

(** The spans a syntax tree can match, whatever the context. *)
Fixpoint denotes (re : Regexp) (m : list Rune) : Prop :=
  match re with
  | EmptyMatch | BeginLine | EndLine | BeginText | EndText => m = []
  | Literal cs => map code m = cs
  | CharClass p => exists x, m = [x] /\ p (code x) = true
  | Star p => Forall (fun x => p (code x) = true) m
  | Concat r1 r2 =>
    exists m1 m2, m = (m1 ++ m2)%list /\ denotes r1 m1 /\ denotes r2 m2
  | Alternate r1 r2 => denotes r1 m \/ denotes r2 m
  end.

(** The input left once the leading runes in class [p] are passed. *)
Fixpoint skipClass (p : N -> bool) (inp : list Rune) : list Rune :=
  match inp with
  | x :: inp' => if p (code x) then skipClass p inp' else inp
  | [] => []
  end.

(** The number of leading line-feed runes. *)
Fixpoint lfRun (inp : list Rune) : nat :=
  match inp with
  | x :: inp' => if (code x =? 10)%N then S (lfRun inp') else 0
  | [] => 0
  end.

(** The first rune of [inp], if any, is outside the class [p]. *)
Definition stopsAt (p : N -> bool) (inp : list Rune) : Prop :=
  match inp with
  | [] => True
  | x :: _ => p (code x) = false
  end.

(** [prFooterRe] up to its last element, [[^\n]+]. *)
Definition prFooterHead : Regexp :=
  Concat (Str "---")
    (Concat (Star perlSpace)
       (Concat (Str "Pull Request opened by [")
          (Concat (Plus (notRune 93))
             (Concat (Str "](")
                (Concat (Plus (notRune 41))
                   (Str ") with guidance from ")))))).

(** The runes of the phrase in front of the attribution. *)
Definition guidanceFrom : list N :=
  map N_of_ascii (list_ascii_of_string ") with guidance from ").

(** *** Inputs *)

(** A co-author trailer behind a blank. *)
Definition indentedTrailer : string := " Co-Authored-By: x".

(** A footer whose marker is cut from its phrase by another footer. *)
Definition nestedFooter : string :=
  "--- ---Pull Request opened by [X](u) with guidance from Y" ++ LF
  ++ "Pull Request opened by [X](u) with guidance from Z".

(** The minimal footer of [TestFilterBody]. *)
Definition minimalFooter : string :=
  "Quick fix" ++ LF ++ LF ++ "---" ++ LF
  ++ "Pull Request opened by [X](http://x.com) with guidance from Y".

(** The trailer block of the specification's example. *)
Definition trailerBlock : string :=
  "Signed-off-by: Dev <d@x.com>" ++ LF
  ++ "Co-Authored-By: J <j@x.com>" ++ LF
  ++ "Reviewed-by: R <r@x.com>".

(** The case [preserves other trailers] of [TestFilterBody]. *)
Definition otherTrailers : string :=
  "Fix critical bug" ++ LF ++ LF
  ++ "Signed-off-by: Developer <dev@example.com>" ++ LF
  ++ "Co-Authored-By: John Doe <john@example.com>" ++ LF
  ++ "Reviewed-by: Reviewer <reviewer@example.com>".

End spec.

Import spec.


(** ** The vocabulary of the further properties *)

Module props.

(** *** Paths *)

(** [e] holds no path separator. *)
Fixpoint noSeparator (e : string) : bool :=
  match e with
  | EmptyString => true
  | String c t => negb (os.IsPathSeparator c) && noSeparator t
  end.

(** A path element that names an entry: not empty, not [.], not [..],
    and without separator. *)
Definition realElem (e : string) : Prop :=
  e <> "" /\ e <> "." /\ e <> ".." /\ noSeparator e = true.

(** A rooted path in normal form: [/] followed by real elements joined by
    [/]. *)
Definition cleanRooted (p : string) : Prop :=
  exists elems, Forall realElem elems /\ p = "/" ++ String.concat "/" elems.

(** The operating system reports an absolute working directory. *)
Definition absoluteWd (sys : os.OS) : Prop :=
  forall wd, os.Getwd sys = inl wd -> filepath.IsAbs wd = true.

(** A file system that holds the repository [/repos/a] and the file
    [/tmp/fix.patch], and nothing else; the process runs in [/home/u]. *)
Definition oneRepo : os.OS :=
  os.mkOS (inl "/home/u")
          (fun path =>
             if String.eqb path "/repos/a/.git" then None
             else if String.eqb path "/tmp/fix.patch" then None
             else Some os.ENOENT).

End props.

Import props.


Module props_text.

(** *** Texts *)

(** None of the rules matches anywhere in [s]. *)
Definition matchesNone (rules : list Regexp) (s : string) : bool :=
  forallb (fun re => negb (MatchString re s)) rules.

(** [s] with every run of line feeds cut down to two; [run] counts the
    line feeds kept of the run being read. *)
Fixpoint capLF (run : nat) (s : string) : string :=
  match s with
  | EmptyString => EmptyString
  | String c t =>
    if (N_of_ascii c =? 10)%N then
      if (run <? 2)%nat then String c (capLF (S run) t) else capLF run t
    else String c (capLF 0 t)
  end.

(** The same on runes. *)
Fixpoint capRunes (run : nat) (inp : list Rune) : string :=
  match inp with
  | [] => ""
  | x :: inp' =>
    if (code x =? 10)%N then
      if (run <? 2)%nat then raw x ++ capRunes (S run) inp'
      else capRunes run inp'
    else raw x ++ capRunes 0 inp'
  end.





(** Two paragraphs with a blank line between them. *)
Definition twoParagraphs : string :=
  "Fix bug" ++ LF ++ LF ++ "Details: see the issue".

(** A compiler that knows the two default patterns and nothing else. *)
Definition compilesDefaults (pattern : string) : Regexp + string :=
  if String.eqb pattern (nth 0 defaultFilterPatterns "")
  then inl coAuthoredByRe
  else if String.eqb pattern (nth 1 defaultFilterPatterns "")
       then inl prFooterRe
       else inr "error parsing regexp".

End props_text.

Import props_text.


Module props_files.

(** *** Separated lists *)

(** [s] holds no byte [c]. *)
Fixpoint lacks (c : ascii) (s : string) : bool :=
  match s with
  | EmptyString => true
  | String d t => negb (Ascii.eqb d c) && lacks c t
  end.

(** The number of bytes [c] in [s]. *)
Fixpoint countByte (c : ascii) (s : string) : nat :=
  match s with
  | EmptyString => 0
  | String d t => (if Ascii.eqb d c then 1 else 0) + countByte c t
  end.

(** The index of the first byte [c] in [s]. *)
Fixpoint indexByte (c : ascii) (s : string) : option nat :=
  match s with
  | EmptyString => None
  | String d t => if Ascii.eqb d c then Some 0 else option_map S (indexByte c t)
  end.

(** The pieces of [s] between the bytes [c]; [cur] is the piece being
    read. *)
Fixpoint pieces (c : ascii) (s cur : string) : list string :=
  match s with
  | EmptyString => [cur]
  | String d t =>
    if Ascii.eqb d c then cur :: pieces c t ""
    else pieces c t (cur ++ String d "")
  end.

(** A file name with nothing in it, or nothing but white space. *)
Definition blank (f : string) : Prop := whitespaceOnly f.

(** Neither end of [f] is white space. *)
Definition trimmed (f : string) : Prop :=
  startsWithSpace f = false /\ endsWithSpace f = false.

End props_files.

Import props_files.


Module props_tools.

Import git.

(** *** Requests *)

(** Git operations that all succeed, with the output [ok]. *)
Definition okOps : GitOperations :=
  mkGitOperations
    (fun _ => inl "ok") (fun _ => inl "ok") (fun _ => inl "ok")
    (fun _ _ => inl "ok") (fun _ _ => inl "ok") (fun _ _ => inl "ok")
    (fun _ => inl "ok") (fun _ _ => inl ["ok"]) (fun _ _ _ => inl "ok")
    (fun _ _ => inl "ok") (fun _ => inl "ok") (fun _ _ => inl "ok")
    (fun _ _ _ => inl "ok") (fun _ _ _ => inl "ok") (fun _ _ => inl "ok")
    (fun _ _ => inl "ok").

(** A server set up for the repositories beneath [/repos]. *)
Definition reposDeps : GitToolDependencies :=
  mkGitToolDependencies okOps ["/repos"].

(** The arguments of a request: a map with the given strings. *)
Definition stringArgs (fields : list (string * string)) : Args Z :=
  fun key =>
    match find (fun kv => String.eqb (fst kv) key) fields with
    | Some kv => Some (VString (snd kv))
    | None => None
    end.

(** A decoder for requests whose arguments are the strings [fields]. *)
Definition decodesTo (fields : list (string * string))
  : string -> Args Z + string :=
  fun _ => inl (stringArgs fields).

(** Arguments whose [repo_path] is a number. *)
Definition numberAsPath : Args Z :=
  fun key =>
    if String.eqb key "repo_path" then Some (VFloat64 42%Z) else None.

(** A decoder that rejects every request. *)
Definition rejects : string -> Args Z + string :=
  fun _ => inr "unexpected end of JSON input".

(** Some text for the error of [Getwd]. *)
Definition errnoText (e : os.Errno) : string := "getwd failed".

(** A request; its raw arguments are read by the decoder alone. *)
Definition aRequest : CallToolRequest := mkCallToolRequest "{}".

End props_tools.

Import props_tools.

(** * Properties *)

(** ** The test table of the package passes on the model *)

Example TestFilterBody :
  forallb (fun t => String.eqb (FilterBody defaultFilterRegexps (fst t)) (snd t))
          bodyfilter_test.tests = true.
Proof. vm_compute. reflexivity. Qed.

Example TestFilterBodyIdempotent :
  FilterBody defaultFilterRegexps
    (FilterBody defaultFilterRegexps bodyfilter_test.idempotentInput)
  = FilterBody defaultFilterRegexps bodyfilter_test.idempotentInput.
Proof. vm_compute. reflexivity. Qed.

(** ** Byte strings: basic facts *)

Lemma append_nil_r (s : string) : s ++ "" = s.
Proof. induction s as [|c s IH]; simpl; [reflexivity | now rewrite IH]. Qed.

Lemma append_assoc (a b c : string) : (a ++ b) ++ c = a ++ (b ++ c).
Proof. induction a as [|x a IH]; simpl; [reflexivity | now rewrite IH]. Qed.

Lemma length_append (a b : string) :
  String.length (a ++ b) = String.length a + String.length b.
Proof. induction a as [|x a IH]; simpl; [reflexivity | now rewrite IH]. Qed.

Lemma take_drop (n : nat) (s : string) : take n s ++ drop n s = s.
Proof.
  revert s; induction n as [|n IH]; intros [|c s]; simpl; try reflexivity.
  now rewrite IH.
Qed.

Lemma take_append (a b : string) : take (String.length a) (a ++ b) = a.
Proof. induction a as [|x a IH]; simpl; [now destruct b | now rewrite IH]. Qed.

Lemma drop_append (a b : string) : drop (String.length a) (a ++ b) = b.
Proof. induction a as [|x a IH]; simpl; [reflexivity | exact IH]. Qed.

Lemma length_take (n : nat) (s : string) :
  String.length (take n s) = Nat.min n (String.length s).
Proof.
  revert s; induction n as [|n IH]; intros [|c s]; simpl; try reflexivity.
  now rewrite IH.
Qed.

Lemma length_drop (n : nat) (s : string) :
  String.length (drop n s) = String.length s - n.
Proof.
  revert s; induction n as [|n IH]; intros [|c s]; simpl; try reflexivity.
  apply IH.
Qed.

(** [HasPrefix s pre] decides that [s] is [pre] followed by something. *)
Lemma HasPrefix_spec (s pre : string) :
  HasPrefix s pre = true <-> exists t, s = pre ++ t.
Proof.
  unfold HasPrefix. rewrite andb_true_iff, Nat.leb_le, String.eqb_eq. split.
  - intros [_ H]. exists (drop (String.length pre) s).
    rewrite <- H at 1. symmetry. apply take_drop.
  - intros [t ->]. rewrite length_append, take_append. split; [lia | reflexivity].
Qed.

(** ** unicode/utf8: decoding *)

Lemma first_lead (b : N) (sz : nat) (lo hi : N) :
  first b = Lead sz lo hi ->
  (0x80 <= lo)%N /\ (hi <= 0xBF)%N /\ (0xC2 <= b)%N /\ (2 <= sz <= 4)%nat.
Proof.
  unfold first, locb, hicb.
  repeat match goal with
         | |- context [if ?c then _ else _] => destruct c eqn:?
         end; intros H; try discriminate; injection H as <- <- <-;
    repeat match goal with
           | H : (_ <? _)%N = false |- _ => apply N.ltb_ge in H
           end; repeat split; lia.
Qed.


(** Width bounds. *)
Lemma DecodeRuneInString_width (s : string) (r : N) (w : nat) :
  s <> "" -> DecodeRuneInString s = (r, w) ->
  (1 <= w <= String.length s)%nat.
Proof.
  intros Hs. unfold DecodeRuneInString.
  destruct s as [|c0 [|c1 [|c2 [|c3 t]]]]; [congruence | | | |];
    cbn [String.length];
    destruct (first (N_of_ascii c0)) as [| |sz lo hi];
    repeat match goal with
           | |- context [if ?c then _ else _] => destruct c eqn:?
           end;
    intros H; injection H as <- <-;
    repeat match goal with
           | H : (_ <? _)%nat = false |- _ => apply Nat.ltb_ge in H
           | H : (_ <=? _)%nat = false |- _ => apply Nat.leb_gt in H
           | H : (_ <=? _)%nat = true |- _ => apply Nat.leb_le in H
           end; cbn [String.length] in *; lia.
Qed.

Lemma lor_lt_pow2_l (a b n : N) : (N.lor a b < 2 ^ n)%N -> (a < 2 ^ n)%N.
Proof.
  intros H. destruct (N.eq_dec a 0) as [->|Ha].
  - apply N.neq_0_lt_0. apply N.pow_nonzero. discriminate.
  - assert (Hab : N.lor a b <> 0%N).
    { intros E. apply N.lor_eq_0_iff in E. tauto. }
    apply N.log2_lt_pow2; [lia|].
    apply N.log2_lt_pow2 in H; [|lia].
    rewrite N.log2_lor in H. lia.
Qed.

Lemma lor_lt_pow2_r (a b n : N) : (N.lor a b < 2 ^ n)%N -> (b < 2 ^ n)%N.
Proof. rewrite N.lor_comm. apply lor_lt_pow2_l. Qed.

Ltac bits_to_arith :=
  unfold mask2, mask3, mask4, maskx, locb, hicb in *;
  change 0x1F%N with (N.ones 5) in *;
  change 0x0F%N with (N.ones 4) in *;
  change 0x07%N with (N.ones 3) in *;
  change 0x3F%N with (N.ones 6) in *;
  rewrite ?N.land_ones, ?N.shiftl_mul_pow2 in *;
  repeat match goal with
         | H : (_ <? _)%N = false |- _ => apply N.ltb_ge in H
         | H : (_ <? _)%N = true |- _ => apply N.ltb_lt in H
         | H : (_ =? _)%N = true |- _ => apply N.eqb_eq in H
         | H : (_ =? _)%N = false |- _ => apply N.eqb_neq in H
         end;
  change (2 ^ 3)%N with 8%N in *; change (2 ^ 4)%N with 16%N in *;
  change (2 ^ 5)%N with 32%N in *; change (2 ^ 6)%N with 64%N in *;
  change (2 ^ 7)%N with 128%N in *;
  change (2 ^ 12)%N with 4096%N in *; change (2 ^ 18)%N with 262144%N in *;
  zify; Z.to_euclidean_division_equations; lia.

(** The leading bits of a multi-byte sequence put its value at or above
    [RuneSelf]: overlong encodings are not accepted. *)
Lemma lead_value_bound (b s1 : N) (sz : nat) (lo hi : N) :
  first b = Lead sz lo hi ->
  ((s1 <? lo) || (hi <? s1))%N = false ->
  (sz = 2 /\ (128 <= N.shiftl (N.land b mask2) 6)%N)
  \/ (sz = 3 /\ ((128 <= N.shiftl (N.land b mask3) 12)%N
                 \/ (128 <= N.shiftl (N.land s1 maskx) 6)%N))
  \/ (sz = 4 /\ ((128 <= N.shiftl (N.land b mask4) 18)%N
                 \/ (128 <= N.shiftl (N.land s1 maskx) 12)%N)).
Proof.
  unfold first. intros F R. apply orb_false_iff in R. destruct R as [R1 R2].
  repeat match type of F with
         | (if ?c then _ else _) = _ => destruct c eqn:?
         end; try discriminate F; injection F as <- <- <-.
  - left. split; [reflexivity | bits_to_arith].
  - right; left. split; [reflexivity | right; bits_to_arith].
  - right; left. split; [reflexivity | left; bits_to_arith].
  - right; left. split; [reflexivity | left; bits_to_arith].
  - right; left. split; [reflexivity | left; bits_to_arith].
  - right; right. split; [reflexivity | right; bits_to_arith].
  - right; right. split; [reflexivity | left; bits_to_arith].
  - right; right. split; [reflexivity | left; bits_to_arith].
Qed.

(** A rune below [RuneSelf] is read from the single byte of that value. *)
Lemma DecodeRuneInString_ascii_inv (s : string) (r : N) (w : nat) :
  DecodeRuneInString s = (r, w) -> (r < 0x80)%N ->
  exists c t, s = String c t /\ N_of_ascii c = r /\ w = 1.
Proof.
  intros H Hr. destruct s as [|c0 t0].
  - injection H as <- <-. vm_compute in Hr. discriminate.
  - exists c0, t0. split; [reflexivity|].
    change (r < 2 ^ 7)%N in Hr.
    unfold DecodeRuneInString in H.
    destruct (first (N_of_ascii c0)) as [| |sz lo hi] eqn:F.
    + now injection H as <- <-.
    + injection H as <- <-. vm_compute in Hr. discriminate.
    + exfalso.
      assert (Hbad : ~ (RuneError < 2 ^ 7)%N) by (vm_compute; discriminate).
      destruct (String.length (String c0 t0) <? sz)%nat;
        [injection H as <- <-; exact (Hbad Hr)|].
      destruct t0 as [|c1 t1]; [injection H as <- <-; exact (Hbad Hr)|].
      destruct ((N_of_ascii c1 <? lo) || (hi <? N_of_ascii c1))%N eqn:R;
        [injection H as <- <-; exact (Hbad Hr)|].
      pose proof (lead_value_bound _ _ _ _ _ F R) as B.
      repeat match type of H with
             | (if ?c then _ else _) = _ => destruct c eqn:?
             | match ?t with EmptyString => _ | String _ _ => _ end = _ =>
               destruct t
             end;
        injection H as <- <-; try (exact (Hbad Hr));
        repeat match goal with
               | H : (N.lor _ _ < 2 ^ 7)%N |- _ =>
                 let H1 := fresh in let H2 := fresh in
                 pose proof (lor_lt_pow2_l _ _ _ H) as H1;
                 pose proof (lor_lt_pow2_r _ _ _ H) as H2; clear H
               end;
        repeat match goal with
               | H : (_ <=? _)%nat = true |- _ => apply Nat.leb_le in H
               | H : (_ <=? _)%nat = false |- _ => apply Nat.leb_gt in H
               end;
        change (2 ^ 7)%N with 128%N in *; lia.
Qed.

(** A rune other than [RuneError] is decided by its own bytes. *)
Lemma DecodeRuneInString_stable (s t : string) (r : N) (w : nat) :
  DecodeRuneInString s = (r, w) -> r <> RuneError ->
  DecodeRuneInString (take w s ++ t) = (r, w).
Proof.
  intros H Hr. destruct s as [|c0 t0].
  - injection H as <- <-. congruence.
  - unfold DecodeRuneInString in H.
    destruct (first (N_of_ascii c0)) as [| |sz lo hi] eqn:F.
    + injection H as <- <-. simpl. now rewrite F.
    + injection H as <- <-. congruence.
    + pose proof (first_lead _ _ _ _ F) as (_ & _ & _ & Hsz).
      destruct (String.length (String c0 t0) <? sz)%nat;
        [injection H as <- <-; congruence|].
      destruct t0 as [|c1 t1]; [injection H as <- <-; congruence|].
      destruct ((N_of_ascii c1 <? lo) || (hi <? N_of_ascii c1))%N eqn:R1;
        [injection H as <- <-; congruence|].
      destruct (sz <=? 2)%nat eqn:S2.
      { injection H as <- <-. apply Nat.leb_le in S2.
        cbn [take append]. unfold DecodeRuneInString. rewrite F.
        replace (String.length _ <? sz)%nat with false
          by (symmetry; apply Nat.ltb_ge; cbn [String.length]; lia).
        rewrite R1. replace (sz <=? 2)%nat with true
          by (symmetry; now apply Nat.leb_le). reflexivity. }
      destruct t1 as [|c2 t2]; [injection H as <- <-; congruence|].
      destruct ((N_of_ascii c2 <? locb) || (hicb <? N_of_ascii c2))%N eqn:R2;
        [injection H as <- <-; congruence|].
      destruct (sz <=? 3)%nat eqn:S3.
      { injection H as <- <-. apply Nat.leb_le in S3.
        cbn [take append]. unfold DecodeRuneInString. rewrite F.
        replace (String.length _ <? sz)%nat with false
          by (symmetry; apply Nat.ltb_ge; cbn [String.length]; lia).
        rewrite R1, S2, R2. replace (sz <=? 3)%nat with true
          by (symmetry; now apply Nat.leb_le). reflexivity. }
      destruct t2 as [|c3 t3]; [injection H as <- <-; congruence|].
      destruct ((N_of_ascii c3 <? locb) || (hicb <? N_of_ascii c3))%N eqn:R3;
        [injection H as <- <-; congruence|].
      injection H as <- <-.
      cbn [take append]. unfold DecodeRuneInString. rewrite F.
      replace (String.length _ <? sz)%nat with false
        by (symmetry; apply Nat.ltb_ge; cbn [String.length]; lia).
      rewrite R1, S2, R2, S3, R3. reflexivity.
Qed.

(** The bytes of a rune other than the line feed hold no line feed. *)
Lemma DecodeRuneInString_noLF (s : string) (r : N) (w : nat) :
  DecodeRuneInString s = (r, w) -> r <> 10%N -> noLF (take w s) = true.
Proof.
  intros H Hr. destruct s as [|c0 t0].
  - injection H as <- <-. reflexivity.
  - unfold DecodeRuneInString in H.
    assert (Hhigh : forall b lo, (0x80 <= lo)%N -> (b <? lo)%N = false ->
                                 negb (b =? 10)%N = true).
    { intros b lo Hlo Hb. apply N.ltb_ge in Hb. apply negb_true_iff.
      apply N.eqb_neq. lia. }
    destruct (first (N_of_ascii c0)) as [| |sz lo hi] eqn:F.
    + injection H as <- <-. simpl. rewrite andb_true_r.
      apply negb_true_iff. now apply N.eqb_neq.
    + injection H as <- <-. simpl. rewrite andb_true_r.
      apply negb_true_iff, N.eqb_neq. intros E. rewrite E in F.
      vm_compute in F. discriminate.
    + pose proof (first_lead _ _ _ _ F) as (Hlo & _ & Hb & _).
      assert (H0 : negb (N_of_ascii c0 =? 10)%N = true)
        by (apply negb_true_iff, N.eqb_neq; lia).
      assert (Hone : noLF (take 1 (String c0 t0)) = true)
        by (simpl; now rewrite H0).
      destruct (String.length (String c0 t0) <? sz)%nat;
        [injection H as <- <-; exact Hone|].
      destruct t0 as [|c1 t1]; [injection H as <- <-; exact Hone|].
      destruct ((N_of_ascii c1 <? lo) || (hi <? N_of_ascii c1))%N eqn:R1;
        [injection H as <- <-; exact Hone|].
      apply orb_false_iff in R1. destruct R1 as [R1 _].
      apply (Hhigh _ _ Hlo) in R1.
      destruct (sz <=? 2)%nat.
      { injection H as <- <-. simpl. now rewrite H0, R1. }
      destruct t1 as [|c2 t2]; [injection H as <- <-; exact Hone|].
      destruct ((N_of_ascii c2 <? locb) || (hicb <? N_of_ascii c2))%N eqn:R2;
        [injection H as <- <-; exact Hone|].
      apply orb_false_iff in R2. destruct R2 as [R2 _].
      apply (Hhigh _ locb) in R2; [|unfold locb; lia].
      destruct (sz <=? 3)%nat.
      { injection H as <- <-. simpl. now rewrite H0, R1, R2. }
      destruct t2 as [|c3 t3]; [injection H as <- <-; exact Hone|].
      destruct ((N_of_ascii c3 <? locb) || (hicb <? N_of_ascii c3))%N eqn:R3;
        [injection H as <- <-; exact Hone|].
      apply orb_false_iff in R3. destruct R3 as [R3 _].
      apply (Hhigh _ locb) in R3; [|unfold locb; lia].
      injection H as <- <-. simpl. now rewrite H0, R1, R2, R3.
Qed.

(** [runesFrom] does not depend on the fuel, once there is enough. *)
Lemma runesFrom_fuel (n m : nat) (s : string) :
  (String.length s <= n)%nat -> (String.length s <= m)%nat ->
  runesFrom n s = runesFrom m s.
Proof.
  revert m s; induction n as [|n IH]; intros m s Hn Hm.
  - destruct s; [|simpl in Hn; lia]. now destruct m.
  - destruct s as [|c t]; [now destruct m|].
    destruct m as [|m]; [simpl in Hm; lia|].
    cbn [runesFrom].
    destruct (DecodeRuneInString (String c t)) as [r w] eqn:D.
    assert (Hw : (1 <= w <= String.length (String c t))%nat)
      by (eapply DecodeRuneInString_width; [discriminate | exact D]).
    f_equal. apply IH; rewrite length_drop; lia.
Qed.

Lemma runes_nil : runes "" = [].
Proof. reflexivity. Qed.

Lemma runes_cons (s : string) (r : N) (w : nat) :
  s <> "" -> DecodeRuneInString s = (r, w) ->
  runes s = mkRune r (take w s) :: runes (drop w s).
Proof.
  intros Hs D. unfold runes at 1.
  destruct s as [|c t]; [congruence|].
  cbn [String.length runesFrom]. rewrite D. f_equal.
  pose proof (DecodeRuneInString_width _ _ _ Hs D) as Hw.
  apply runesFrom_fuel; rewrite length_drop; cbn [String.length] in *; lia.
Qed.

(** Induction along the runes of a string. *)
Lemma runes_ind (P : string -> list Rune -> Prop) :
  P "" [] ->
  (forall s r w, s <> "" -> DecodeRuneInString s = (r, w) ->
                 (1 <= w <= String.length s)%nat ->
                 P (drop w s) (runes (drop w s)) ->
                 P s (mkRune r (take w s) :: runes (drop w s))) ->
  forall s, P s (runes s).
Proof.
  intros Hnil Hcons s.
  remember (String.length s) as n eqn:Hn.
  revert s Hn. induction n as [n IH] using lt_wf_ind. intros s Hn.
  destruct s as [|c t]; [exact Hnil|].
  destruct (DecodeRuneInString (String c t)) as [r w] eqn:D.
  assert (Hs : String c t <> "") by discriminate.
  pose proof (DecodeRuneInString_width _ _ _ Hs D) as Hw.
  rewrite (runes_cons _ _ _ Hs D).
  apply Hcons; try assumption.
  apply (IH (String.length (drop w (String c t)))); [|reflexivity].
  rewrite length_drop. lia.
Qed.

Lemma bytes_runes (s : string) : bytes (runes s) = s.
Proof.
  apply (runes_ind (fun s l => bytes l = s)); [reflexivity|].
  intros s0 r w _ _ _ IH. cbn [bytes raw]. rewrite IH. apply take_drop.
Qed.

Lemma bytes_app (l1 l2 : list Rune) :
  bytes (l1 ++ l2)%list = bytes l1 ++ bytes l2.
Proof.
  induction l1 as [|x l1 IH]; simpl; [reflexivity|].
  now rewrite IH, append_assoc.
Qed.

Lemma runes_wf (s : string) : Forall wfRune (runes s).
Proof.
  apply (runes_ind (fun _ l => Forall wfRune l)); [constructor|].
  intros s0 r w Hs D Hw IH. constructor; [|exact IH].
  constructor; cbn [code raw].
  - destruct s0; [congruence|]. destruct w; [lia|]. discriminate.
  - intros ->.
    destruct (DecodeRuneInString_ascii_inv _ _ _ D eq_refl)
      as (c & t & -> & Hc & ->).
    simpl. unfold LF. f_equal.
    rewrite <- (ascii_N_embedding c), Hc. reflexivity.
  - now apply DecodeRuneInString_noLF.
  - intros Hr t. rewrite length_take.
    rewrite Nat.min_l by lia. now apply DecodeRuneInString_stable.
Qed.

(** Runes that are decided by their own bytes are read back from them. *)
Lemma runes_bytes_app (l : list Rune) (t : string) :
  Forall (fun x => wfRune x /\ code x <> RuneError) l ->
  runes (bytes l ++ t) = (l ++ runes t)%list.
Proof.
  induction 1 as [|x l [Hx Hr] _ IH]; [reflexivity|].
  cbn [bytes]. rewrite append_assoc.
  pose proof (wf_stable x Hx Hr (bytes l ++ t)) as D.
  assert (Hne : raw x ++ bytes l ++ t <> "").
  { pose proof (wf_nonempty x Hx). destruct (raw x); [congruence|discriminate]. }
  rewrite (runes_cons _ _ _ Hne D).
  rewrite take_append, drop_append, IH. destruct x; reflexivity.
Qed.

(** ** regexp: the machine *)

Lemma literalK_sound (cs : list N) :
  forall prev inp k res,
    literalK cs prev inp k = Some res ->
    exists m pv rest,
      inp = (m ++ rest)%list /\ map code m = cs /\ k pv rest = Some res.
Proof.
  induction cs as [|c cs IH]; intros prev inp k res H; simpl in H.
  - exists [], prev, inp. auto.
  - destruct inp as [|x inp']; [discriminate|].
    destruct (code x =? c)%N eqn:E; [|discriminate].
    apply N.eqb_eq in E.
    destruct (IH _ _ _ _ H) as (m & pv & rest & -> & Hm & Hk).
    exists (x :: m), pv, rest. simpl. rewrite Hm, E. auto.
Qed.

Lemma starK_sound (p : N -> bool) :
  forall inp prev k res,
    starK p prev inp k = Some res ->
    exists m pv rest,
      inp = (m ++ rest)%list /\ Forall (fun x => p (code x) = true) m
      /\ k pv rest = Some res.
Proof.
  induction inp as [|x inp' IH]; intros prev k res H; simpl in H.
  - exists [], prev, []. auto.
  - destruct (p (code x)) eqn:E.
    + destruct (starK p (Some (code x)) inp' k) as [res'|] eqn:S.
      * injection H as <-.
        destruct (IH _ _ _ S) as (m & pv & rest & -> & Hm & Hk).
        exists (x :: m), pv, rest. auto.
      * exists [], prev, (x :: inp'). auto.
    + exists [], prev, (x :: inp'). auto.
Qed.

(** Whatever the machine returns is what the continuation returned at the
    end of a span of the tree's language. *)
Lemma matchK_sound (re : Regexp) :
  forall prev inp k res,
    matchK re prev inp k = Some res ->
    exists m pv rest,
      inp = (m ++ rest)%list /\ denotes re m /\ k pv rest = Some res.
Proof.
  induction re as [|cs|p|p|r1 IH1 r2 IH2|r1 IH1 r2 IH2| | | |];
    intros prev inp k res H; cbn [matchK] in H.
  - exists [], prev, inp. simpl. auto.
  - apply literalK_sound in H. exact H.
  - destruct inp as [|x inp']; [discriminate|].
    destruct (p (code x)) eqn:E; [|discriminate].
    exists [x], (Some (code x)), inp'. simpl. eauto.
  - apply starK_sound in H. exact H.
  - destruct (IH1 _ _ _ _ H) as (m1 & pv1 & rest1 & -> & D1 & H1).
    destruct (IH2 _ _ _ _ H1) as (m2 & pv2 & rest2 & -> & D2 & H2).
    exists (m1 ++ m2)%list, pv2, rest2. rewrite app_assoc. simpl. eauto 7.
  - destruct (matchK r1 prev inp k) as [res'|] eqn:E.
    + injection H as <-.
      destruct (IH1 _ _ _ _ E) as (m & pv & rest & -> & D & Hk).
      exists m, pv, rest. simpl. auto.
    + destruct (IH2 _ _ _ _ H) as (m & pv & rest & -> & D & Hk).
      exists m, pv, rest. simpl. auto.
  - exists [], prev, inp. simpl.
    destruct prev as [c|]; [destruct (c =? 10)%N; [|discriminate]|]; auto.
  - exists [], prev, inp. simpl.
    destruct inp as [|x inp']; [|destruct (code x =? 10)%N; [|discriminate]];
      auto.
  - exists [], prev, inp. simpl. destruct prev; [discriminate|]. auto.
  - exists [], prev, inp. simpl. destruct inp; [|discriminate]. auto.
Qed.

Lemma matchAt_sound (re : Regexp) (prev : option N) (inp : list Rune)
      (pv : option N) (rest : list Rune) :
  matchAt re prev inp = Some (pv, rest) ->
  exists m, inp = (m ++ rest)%list /\ denotes re m.
Proof.
  intros H. destruct (matchK_sound _ _ _ _ _ H) as (m & pv' & rest' & -> & D & E).
  injection E as -> ->. eauto.
Qed.

(** With nothing after it the greedy loop runs to the first rune outside
    the class. *)
Lemma starK_final (p : N -> bool) (inp : list Rune) (prev : option N) :
  exists pv, starK p prev inp (fun pv i => Some (pv, i)) = Some (pv, skipClass p inp).
Proof.
  revert prev; induction inp as [|x inp' IH]; intros prev; simpl.
  - now exists prev.
  - destruct (p (code x)).
    + destruct (IH (Some (code x))) as [pv ->]. now exists pv.
    + now exists prev.
Qed.

Lemma skipClass_head (p : N -> bool) (inp : list Rune) :
  match skipClass p inp with
  | [] => True
  | x :: _ => p (code x) = false
  end.
Proof.
  induction inp as [|x inp' IH]; simpl; [exact I|].
  destruct (p (code x)) eqn:E; [exact IH | exact E].
Qed.

Lemma skipClass_isRune_lfRun (inp : list Rune) :
  skipClass (isRune 10) inp = skipn (lfRun inp) inp.
Proof.
  induction inp as [|x inp' IH]; simpl; [reflexivity|].
  unfold isRune at 1. destruct (code x =? 10)%N; [exact IH | reflexivity].
Qed.

Lemma lfRun_le (inp : list Rune) : (lfRun inp <= List.length inp)%nat.
Proof.
  induction inp as [|x inp' IH]; simpl; [lia|].
  destruct (code x =? 10)%N; lia.
Qed.

Lemma lfRun_skipn (inp : list Rune) : lfRun (skipn (lfRun inp) inp) = 0.
Proof.
  induction inp as [|x inp' IH]; simpl; [reflexivity|].
  destruct (code x =? 10)%N eqn:E; simpl; [exact IH | now rewrite E].
Qed.

(** [\n{3,}] matches at a position only when at least three line feeds
    stand there, and takes the whole run. *)
Lemma matchAt_multipleNewlines_some (prev : option N) (inp : list Rune)
      (pv : option N) (rest : list Rune) :
  matchAt multipleNewlines prev inp = Some (pv, rest) ->
  (3 <= lfRun inp)%nat /\ rest = skipn (lfRun inp) inp.
Proof.
  unfold matchAt, multipleNewlines. cbn [matchK literalK].
  destruct inp as [|a [|b [|c inp']]]; cbn [lfRun]; try discriminate.
  - destruct (code a =? 10)%N; discriminate.
  - destruct (code a =? 10)%N; [|discriminate].
    destruct (code b =? 10)%N; discriminate.
  - destruct (code a =? 10)%N; [|discriminate].
    destruct (code b =? 10)%N; [|discriminate].
    destruct (code c =? 10)%N; [|discriminate].
    destruct (starK_final (isRune 10) inp' (Some (code c))) as [pv' E].
    rewrite E. intros H. injection H as <- <-.
    cbn [skipn]. rewrite skipClass_isRune_lfRun. split; [lia | reflexivity].
Qed.

(** Where [\n{3,}] does not match, fewer than three line feeds stand. *)
Lemma matchAt_multipleNewlines_none (prev : option N) (inp : list Rune) :
  matchAt multipleNewlines prev inp = None -> (lfRun inp <= 2)%nat.
Proof.
  unfold matchAt, multipleNewlines. cbn [matchK literalK].
  destruct inp as [|a [|b [|c inp']]]; cbn [lfRun]; try lia.
  - destruct (code a =? 10)%N; lia.
  - destruct (code a =? 10)%N; [|lia]. destruct (code b =? 10)%N; lia.
  - destruct (code a =? 10)%N; [|lia]. destruct (code b =? 10)%N; [|lia].
    destruct (code c =? 10)%N; [|lia].
    destruct (starK_final (isRune 10) inp' (Some (code c))) as [pv E].
    rewrite E. discriminate.
Qed.

Lemma code_asciiRunes (s : string) :
  map code (asciiRunes s) = map N_of_ascii (list_ascii_of_string s).
Proof. unfold asciiRunes. rewrite map_map. reflexivity. Qed.

Lemma literalK_run (m : list Rune) :
  forall prev rest k,
    literalK (map code m) prev (m ++ rest)%list k
    = k (fold_left (fun _ x => Some (code x)) m prev) rest.
Proof.
  induction m as [|x m IH]; intros prev rest k; simpl; [reflexivity|].
  rewrite N.eqb_refl. apply IH.
Qed.

Lemma starK_run (p : N -> bool) (k : Cont) (res : Pos) (rest : list Rune) :
  stopsAt p rest ->
  forall m prev,
    Forall (fun x => p (code x) = true) m ->
    k (fold_left (fun _ x => Some (code x)) m prev) rest = Some res ->
    starK p prev (m ++ rest)%list k = Some res.
Proof.
  intros Hstop. induction m as [|x m IH]; intros prev Hm Hk; simpl in *.
  - destruct rest as [|y rest']; simpl; [exact Hk|].
    simpl in Hstop. now rewrite Hstop.
  - inversion Hm as [|? ? Hx Hm']; subst. rewrite Hx.
    now rewrite (IH _ Hm' Hk).
Qed.

Lemma concat_Str_run (s : string) (R : Regexp) (X : list Rune) (k : Cont)
      (res : Pos) :
  (forall pv, matchK R pv X k = Some res) ->
  forall pv, matchK (Concat (Str s) R) pv (asciiRunes s ++ X)%list k = Some res.
Proof.
  intros H pv. unfold Str. cbn [matchK]. rewrite <- code_asciiRunes.
  rewrite literalK_run. apply H.
Qed.

Lemma concat_Star_run (p : N -> bool) (R : Regexp) (m X : list Rune)
      (k : Cont) (res : Pos) :
  Forall (fun x => p (code x) = true) m -> stopsAt p X ->
  (forall pv, matchK R pv X k = Some res) ->
  forall pv, matchK (Concat (Star p) R) pv (m ++ X)%list k = Some res.
Proof.
  intros Hm HX H pv. cbn [matchK]. apply starK_run; auto.
Qed.

Lemma concat_Plus_run (p : N -> bool) (R : Regexp) (m X : list Rune)
      (k : Cont) (res : Pos) :
  m <> [] -> Forall (fun x => p (code x) = true) m -> stopsAt p X ->
  (forall pv, matchK R pv X k = Some res) ->
  forall pv, matchK (Concat (Plus p) R) pv (m ++ X)%list k = Some res.
Proof.
  intros Hne Hm HX H pv. destruct m as [|x m]; [congruence|].
  inversion Hm as [|? ? Hx Hm']; subst.
  cbn [matchK Plus app]. rewrite Hx. apply starK_run; auto.
Qed.

Lemma Plus_final_run (p : N -> bool) (m rest : list Rune) :
  m <> [] -> Forall (fun x => p (code x) = true) m -> stopsAt p rest ->
  forall pv,
    matchK (Plus p) pv (m ++ rest)%list (fun pv i => Some (pv, i))
    = Some (fold_left (fun _ x => Some (code x)) m None, rest).
Proof.
  intros Hne Hm HX pv. destruct m as [|x m]; [congruence|].
  inversion Hm as [|? ? Hx Hm']; subst.
  cbn [matchK Plus app]. rewrite Hx. apply starK_run; auto.
Qed.

(** The footer rule matches a footer of the documented form, whatever
    white space, line breaks included, stands after the marker, and stops
    at the end of the attribution line. *)
Lemma prFooterRe_matches (prev : option N)
      (ws tool url attribution rest : list Rune) :
  Forall (fun x => perlSpace (code x) = true) ws ->
  tool <> [] -> Forall (fun x => code x <> 93%N) tool ->
  url <> [] -> Forall (fun x => code x <> 41%N) url ->
  attribution <> [] -> Forall (fun x => code x <> 10%N) attribution ->
  stopsAt (notRune 10) rest ->
  exists pv,
    matchAt prFooterRe prev
      (asciiRunes "---" ++ ws ++ asciiRunes "Pull Request opened by ["
       ++ tool ++ asciiRunes "](" ++ url
       ++ asciiRunes ") with guidance from " ++ attribution ++ rest)%list
    = Some (pv, rest).
Proof.
  intros Hws Ht1 Ht2 Hu1 Hu2 Ha1 Ha2 Hrest.
  assert (Hnot : forall c l, Forall (fun x => code x <> c) l ->
                             Forall (fun x => notRune c (code x) = true) l).
  { intros c l. apply Forall_impl. intros x Hx. unfold notRune.
    apply negb_true_iff. now apply N.eqb_neq. }
  eexists. unfold matchAt, prFooterRe.
  apply concat_Str_run.
  apply concat_Star_run; [exact Hws | reflexivity |].
  apply concat_Str_run.
  apply concat_Plus_run; [exact Ht1 | now apply Hnot | reflexivity |].
  apply concat_Str_run.
  apply concat_Plus_run; [exact Hu1 | now apply Hnot | reflexivity |].
  apply concat_Str_run.
  apply Plus_final_run; [exact Ha1 | now apply Hnot | exact Hrest].
Qed.

Lemma skipClass_split (p : N -> bool) (inp : list Rune) :
  exists m, inp = (m ++ skipClass p inp)%list
            /\ Forall (fun x => p (code x) = true) m.
Proof.
  induction inp as [|x inp IH]; simpl; [now exists []|].
  destruct (p (code x)) eqn:E; [|now exists []].
  destruct IH as (m & Hm & Hp). exists (x :: m). simpl.
  rewrite <- Hm. auto.
Qed.

Lemma denotes_prFooterHead (m : list Rune) :
  denotes prFooterHead m -> exists h, map code m = (h ++ guidanceFrom)%list.
Proof.
  unfold prFooterHead.
  assert (Step : forall A R m,
             (forall m', denotes R m' ->
                         exists h, map code m' = (h ++ guidanceFrom)%list) ->
             denotes (Concat A R) m ->
             exists h, map code m = (h ++ guidanceFrom)%list).
  { intros A R m0 HR (m1 & m2 & -> & _ & D2).
    destruct (HR _ D2) as [h Hh]. exists (map code m1 ++ h)%list.
    now rewrite map_app, Hh, app_assoc. }
  revert m. repeat (intros m; apply Step; clear m).
  intros m D. exists []. exact D.
Qed.

(** Every match of the footer rule ends with the attribution, which runs
    to the end of its line and no further. *)
Lemma prFooterRe_match_ends_line (prev : option N) (inp : list Rune)
      (pv : option N) (rest : list Rune) :
  matchAt prFooterRe prev inp = Some (pv, rest) ->
  exists head attribution,
    inp = (head ++ attribution ++ rest)%list
    /\ (exists h, map code head = (h ++ guidanceFrom)%list)
    /\ attribution <> []
    /\ Forall (fun x => code x <> 10%N) attribution
    /\ stopsAt (notRune 10) rest.
Proof.
  unfold matchAt. intros H.
  change (matchK (Concat prFooterHead (Plus (notRune 10))) prev inp
                 (fun pv i => Some (pv, i)) = Some (pv, rest)) in H.
  cbn [matchK] in H. fold matchK in H.
  apply matchK_sound in H. destruct H as (head & pv1 & rest1 & -> & D & H).
  exists head. cbn [Plus matchK] in H.
  destruct rest1 as [|x rest1]; [discriminate|].
  destruct (notRune 10 (code x)) eqn:Ex; [|discriminate].
  destruct (starK_final (notRune 10) rest1 (Some (code x))) as [pv' E].
  rewrite E in H. injection H as <- <-.
  destruct (skipClass_split (notRune 10) rest1) as (m & Hm & Hp).
  exists (x :: m). repeat split.
  - simpl. now rewrite <- Hm.
  - now apply denotes_prFooterHead.
  - discriminate.
  - constructor.
    + unfold notRune in Ex. apply negb_true_iff in Ex. now apply N.eqb_neq.
    + revert Hp. apply Forall_impl. intros y Hy. unfold notRune in Hy.
      apply negb_true_iff in Hy. now apply N.eqb_neq.
  - apply skipClass_head.
Qed.

Lemma noLF_append (u v : string) : noLF (u ++ v) = noLF u && noLF v.
Proof.
  induction u as [|c u IH]; simpl; [reflexivity|].
  now rewrite IH, andb_assoc.
Qed.

Lemma noLF_bytes (l : list Rune) :
  Forall wfRune l -> Forall (fun x => code x <> 10%N) l ->
  noLF (bytes l) = true.
Proof.
  induction 1 as [|x l Hx _ IH]; intros H; [reflexivity|].
  inversion H as [|? ? Hc H']; subst. cbn [bytes].
  rewrite noLF_append, (wf_nolf x Hx Hc), (IH H'). reflexivity.
Qed.

Lemma stopsAt_bytes (rest : list Rune) :
  Forall wfRune rest -> stopsAt (notRune 10) rest ->
  bytes rest = "" \/ exists t, bytes rest = LF ++ t.
Proof.
  destruct rest as [|x rest]; [now left|].
  intros H Hs. inversion H as [|? ? Hx _]; subst. right.
  simpl in Hs. unfold notRune in Hs. apply negb_false_iff, N.eqb_eq in Hs.
  exists (bytes rest). cbn [bytes]. now rewrite (wf_lf x Hx Hs).
Qed.

(** ** Line feeds and white space *)

Lemma noTripleLF_not_contains (s : string) :
  noTripleLF s = true -> ~ Contains s (LF ++ LF ++ LF).
Proof.
  intros H (a & b & E). revert s H E.
  induction a as [|c a IH]; intros s H E; subst s.
  - vm_compute in H. discriminate.
  - cbn [append noTripleLF] in H. apply andb_true_iff in H.
    exact (IH _ (proj2 H) eq_refl).
Qed.

Lemma leadLF_noLF_append (u v : string) :
  noLF u = true -> u <> "" -> leadLF (u ++ v) = 0.
Proof.
  destruct u as [|c u]; [congruence|]. simpl.
  intros H _. apply andb_true_iff in H. destruct H as [H _].
  apply negb_true_iff in H. now rewrite H.
Qed.

Lemma noTripleLF_noLF_append (u v : string) :
  noLF u = true -> noTripleLF (u ++ v) = noTripleLF v.
Proof.
  induction u as [|c u IH]; simpl; [reflexivity|].
  intros H. apply andb_true_iff in H. destruct H as [H Hu].
  rewrite H. simpl. auto.
Qed.

(** The gaps are collapsed: after [\n{3,}] is replaced by two line feeds
    no three line feeds are left in a row. *)
Lemma replaceAll_multipleNewlines (fuel : nat) :
  forall prev inp afterMatch,
    (List.length inp < fuel)%nat -> Forall wfRune inp ->
    let out := replaceAll fuel multipleNewlines (LF ++ LF) prev inp afterMatch in
    noTripleLF out = true /\ (leadLF out <= lfRun inp)%nat
    /\ (leadLF out <= 2)%nat.
Proof.
  induction fuel as [|fuel IH]; intros prev inp am Hlen Hwf; [lia|].
  cbn [replaceAll].
  destruct (matchAt multipleNewlines prev inp) as [[pv rest]|] eqn:M.
  - apply matchAt_multipleNewlines_some in M. destruct M as [M ->].
    pose proof (lfRun_le inp) as Hle.
    assert (Hlt : (List.length (skipn (lfRun inp) inp) < List.length inp)%nat)
      by (rewrite length_skipn; lia).
    apply Nat.ltb_lt in Hlt. rewrite Hlt. apply Nat.ltb_lt in Hlt.
    destruct (IH pv (skipn (lfRun inp) inp) true) as (H1 & H2 & H3);
      [lia | |].
    { rewrite <- (firstn_skipn (lfRun inp) inp) in Hwf.
      now apply Forall_app in Hwf. }
    rewrite lfRun_skipn in H2.
    set (rec := replaceAll fuel multipleNewlines (LF ++ LF) pv
                           (skipn (lfRun inp) inp) true) in *.
    cbv zeta. change ((LF ++ LF) ++ rec)
      with (String (ascii_of_nat 10) (String (ascii_of_nat 10) rec)).
    cbn [noTripleLF leadLF]. change (N_of_ascii (ascii_of_nat 10)) with 10%N.
    cbn [N.eqb Pos.eqb negb orb]. rewrite H1.
    replace (leadLF rec) with 0 by lia. cbn. split; [reflexivity | lia].
  - apply matchAt_multipleNewlines_none in M.
    destruct inp as [|x inp']; [cbn; repeat split; lia|].
    inversion Hwf as [|? ? Hx Hwf']; subst.
    destruct (IH (Some (code x)) inp' false) as (H1 & H2 & H3);
      [simpl in Hlen; lia | exact Hwf' |].
    set (rec := replaceAll fuel multipleNewlines (LF ++ LF) (Some (code x))
                           inp' false) in *.
    cbv zeta. cbn [lfRun] in *.
    destruct (code x =? 10)%N eqn:E.
    + apply N.eqb_eq in E. rewrite (wf_lf x Hx E).
      change (LF ++ rec) with (String (ascii_of_nat 10) rec).
      cbn [noTripleLF leadLF]. change (N_of_ascii (ascii_of_nat 10)) with 10%N.
      cbn [N.eqb Pos.eqb negb orb]. rewrite H1, andb_true_r.
      split; [apply Nat.ltb_lt; lia | lia].
    + apply N.eqb_neq in E.
      rewrite noTripleLF_noLF_append by (now apply wf_nolf).
      rewrite leadLF_noLF_append; [| now apply wf_nolf | now apply wf_nonempty].
      split; [exact H1 | lia].
Qed.

Lemma ReplaceAllString_multipleNewlines (s : string) :
  ~ Contains (ReplaceAllString multipleNewlines s (LF ++ LF)) (LF ++ LF ++ LF).
Proof.
  apply noTripleLF_not_contains. unfold ReplaceAllString.
  apply replaceAll_multipleNewlines; [lia | apply runes_wf].
Qed.

(** Slices of a string hold only what the string holds. *)
Lemma Contains_drop (n : nat) (s sub : string) :
  Contains (drop n s) sub -> Contains s sub.
Proof.
  intros (a & b & E). exists (take n s ++ a), b.
  rewrite append_assoc, <- E. symmetry. apply take_drop.
Qed.

Lemma Contains_take (n : nat) (s sub : string) :
  Contains (take n s) sub -> Contains s sub.
Proof.
  intros (a & b & E). exists a, (b ++ drop n s).
  rewrite <- (take_drop n s) at 1. rewrite E. now rewrite !append_assoc.
Qed.

Lemma drop_drop (n m : nat) (s : string) : drop n (drop m s) = drop (m + n) s.
Proof.
  revert s; induction m as [|m IH]; intros s; [reflexivity|].
  destruct s as [|c s]; simpl; [now destruct n | apply IH].
Qed.

Lemma take_take (n m : nat) (s : string) :
  take n (take m s) = take (Nat.min n m) s.
Proof.
  revert m s; induction n as [|n IH]; intros m s; [reflexivity|].
  destruct m as [|m]; [reflexivity|].
  destruct s as [|c s]; simpl; [reflexivity | now rewrite IH].
Qed.

Lemma trimLeftLoop_drop (f : N -> bool) (fuel : nat) (s : string) :
  exists n, strings.trimLeftLoop fuel f s = drop n s.
Proof.
  revert s; induction fuel as [|fuel IH]; intros s; [now exists 0|].
  destruct s as [|c t]; [now exists 0|].
  cbn [strings.trimLeftLoop].
  destruct (DecodeRuneInString (String c t)) as [r w].
  destruct (f r); [|now exists 0].
  destruct (IH (drop w (String c t))) as [n ->].
  exists (w + n). apply drop_drop.
Qed.

Lemma trimRightLoop_take (f : N -> bool) (fuel : nat) (s : string) :
  exists n, strings.trimRightLoop fuel f s = take n s.
Proof.
  revert s; induction fuel as [|fuel IH]; intros s.
  - exists (String.length s). rewrite <- (append_nil_r s) at 3.
    now rewrite take_append.
  - destruct s as [|c t]; [now exists 0|].
    cbn [strings.trimRightLoop].
    destruct (DecodeLastRuneInString (String c t)) as [r size].
    destruct (f r).
    + destruct (IH (take (String.length (String c t) - size) (String c t)))
        as [n ->].
      rewrite take_take. eauto.
    + exists (String.length (String c t)).
      rewrite <- (append_nil_r (String c t)) at 3. now rewrite take_append.
Qed.

Lemma TrimSpace_slice (s : string) :
  exists i j, strings.TrimSpace s = take j (drop i s).
Proof.
  unfold strings.TrimSpace, strings.TrimFunc, strings.TrimRightFunc,
    strings.TrimLeftFunc.
  destruct (trimLeftLoop_drop unicode.IsSpace (String.length s) s) as [i ->].
  destruct (trimRightLoop_take unicode.IsSpace
              (String.length (drop i s)) (drop i s)) as [j ->].
  eauto.
Qed.

(** [trimLeftLoop] stops in front of a rune that is not white space. *)
Lemma trimLeftLoop_stops (fuel : nat) (s : string) :
  (String.length s <= fuel)%nat ->
  unicode.IsSpace
    (fst (DecodeRuneInString (strings.trimLeftLoop fuel unicode.IsSpace s)))
  = false.
Proof.
  revert s; induction fuel as [|fuel IH]; intros s Hlen.
  - destruct s; [reflexivity | simpl in Hlen; lia].
  - destruct s as [|c t]; [reflexivity|].
    cbn [strings.trimLeftLoop].
    destruct (DecodeRuneInString (String c t)) as [r w] eqn:D.
    destruct (unicode.IsSpace r) eqn:E.
    + apply IH. rewrite length_drop.
      assert (Hne : String c t <> "") by discriminate.
      pose proof (DecodeRuneInString_width _ _ _ Hne D). lia.
    + now rewrite D.
Qed.

Lemma backToStart_le (fuel : nat) (s : string) (start lim : Z) :
  (backToStart fuel s start lim <= start)%Z.
Proof.
  revert start; induction fuel as [|fuel IH]; intros start; simpl; [lia|].
  destruct (start <? lim)%Z; [lia|].
  destruct (RuneStart _); [lia|].
  specialize (IH (start - 1)%Z). lia.
Qed.

Lemma DecodeLastRuneInString_width (s : string) (r : N) (size : nat) :
  s <> "" -> DecodeLastRuneInString s = (r, size) ->
  (1 <= size <= String.length s)%nat.
Proof.
  intros Hs. unfold DecodeLastRuneInString.
  assert (Hlen : (1 <= String.length s)%nat)
    by (destruct s; [congruence | simpl; lia]).
  destruct (String.length s =? 0)%nat eqn:E0;
    [apply Nat.eqb_eq in E0; lia|].
  destruct (byteAt s (String.length s - 1) <? RuneSelf)%N.
  { intros H. injection H as <- <-. lia. }
  set (start := Z.to_nat (Z.max 0 (backToStart UTFMax s
                  (Z.of_nat (String.length s) - 2)
                  (Z.max 0 (Z.of_nat (String.length s) - Z.of_nat UTFMax))))).
  assert (Hstart : (start < String.length s)%nat).
  { subst start.
    pose proof (backToStart_le UTFMax s (Z.of_nat (String.length s) - 2)
                  (Z.max 0 (Z.of_nat (String.length s) - Z.of_nat UTFMax))).
    lia. }
  destruct (DecodeRuneInString (drop start s)) as [r' size'].
  destruct (start + size' =? String.length s)%nat eqn:E.
  - apply Nat.eqb_eq in E. intros H. injection H as <- <-. lia.
  - intros H. injection H as <- <-. lia.
Qed.

(** [trimRightLoop] stops behind a rune that is not white space. *)
Lemma trimRightLoop_stops (fuel : nat) (s : string) :
  (String.length s <= fuel)%nat ->
  unicode.IsSpace
    (fst (DecodeLastRuneInString
            (strings.trimRightLoop fuel unicode.IsSpace s)))
  = false.
Proof.
  revert s; induction fuel as [|fuel IH]; intros s Hlen.
  - destruct s; [reflexivity | simpl in Hlen; lia].
  - destruct s as [|c t]; [reflexivity|].
    cbn [strings.trimRightLoop].
    destruct (DecodeLastRuneInString (String c t)) as [r size] eqn:D.
    destruct (unicode.IsSpace r) eqn:E.
    + apply IH. rewrite length_take.
      assert (Hne : String c t <> "") by discriminate.
      pose proof (DecodeLastRuneInString_width _ _ _ Hne D). lia.
    + now rewrite D.
Qed.

(** The loops of the trimming functions do not depend on the fuel, once
    there is enough. *)
Lemma trimLeftLoop_fuel (f : N -> bool) (f1 : nat) :
  forall f2 s,
    (String.length s <= f1)%nat -> (String.length s <= f2)%nat ->
    strings.trimLeftLoop f1 f s = strings.trimLeftLoop f2 f s.
Proof.
  induction f1 as [|f1 IH]; intros f2 s H1 H2.
  - destruct s; [now destruct f2 | simpl in H1; lia].
  - destruct s as [|c t]; [now destruct f2|].
    destruct f2 as [|f2]; [simpl in H2; lia|].
    cbn [strings.trimLeftLoop].
    destruct (DecodeRuneInString (String c t)) as [r w] eqn:D.
    destruct (f r); [|reflexivity].
    assert (Hne : String c t <> "") by discriminate.
    pose proof (DecodeRuneInString_width _ _ _ Hne D).
    apply IH; rewrite length_drop; lia.
Qed.

Lemma trimRightLoop_fuel (f : N -> bool) (f1 : nat) :
  forall f2 s,
    (String.length s <= f1)%nat -> (String.length s <= f2)%nat ->
    strings.trimRightLoop f1 f s = strings.trimRightLoop f2 f s.
Proof.
  induction f1 as [|f1 IH]; intros f2 s H1 H2.
  - destruct s; [now destruct f2 | simpl in H1; lia].
  - destruct s as [|c t]; [now destruct f2|].
    destruct f2 as [|f2]; [simpl in H2; lia|].
    cbn [strings.trimRightLoop].
    destruct (DecodeLastRuneInString (String c t)) as [r size] eqn:D.
    destruct (f r); [|reflexivity].
    assert (Hne : String c t <> "") by discriminate.
    pose proof (DecodeLastRuneInString_width _ _ _ Hne D).
    apply IH; rewrite length_take; lia.
Qed.

(** A prefix that begins with white space begins the whole string with
    it. *)
Lemma leading_space_take (n : nat) (s : string) :
  unicode.IsSpace (fst (DecodeRuneInString (take n s))) = true ->
  unicode.IsSpace (fst (DecodeRuneInString s)) = true.
Proof.
  destruct (DecodeRuneInString (take n s)) as [r w] eqn:D. cbn [fst].
  intros E.
  assert (Hr : r <> RuneError) by (intros ->; vm_compute in E; discriminate).
  pose proof (DecodeRuneInString_stable _ (drop w (take n s) ++ drop n s)
                                        _ _ D Hr) as H.
  rewrite <- append_assoc, take_drop, take_drop in H. now rewrite H.
Qed.

Lemma TrimSpace_no_leading_space (s : string) :
  unicode.IsSpace (fst (DecodeRuneInString (strings.TrimSpace s))) = false.
Proof.
  unfold strings.TrimSpace, strings.TrimFunc.
  set (t := strings.TrimLeftFunc s unicode.IsSpace).
  assert (Ht : unicode.IsSpace (fst (DecodeRuneInString t)) = false)
    by (apply trimLeftLoop_stops; lia).
  unfold strings.TrimRightFunc.
  destruct (trimRightLoop_take unicode.IsSpace (String.length t) t) as [n ->].
  destruct (unicode.IsSpace (fst (DecodeRuneInString (take n t)))) eqn:E;
    [|reflexivity].
  apply leading_space_take in E. congruence.
Qed.

Lemma TrimSpace_no_trailing_space (s : string) :
  unicode.IsSpace (fst (DecodeLastRuneInString (strings.TrimSpace s))) = false.
Proof.
  unfold strings.TrimSpace, strings.TrimFunc, strings.TrimRightFunc.
  apply trimRightLoop_stops. lia.
Qed.

Lemma spaceRune_valid (l : list Rune) :
  Forall spaceRune l ->
  Forall (fun x => wfRune x /\ code x <> RuneError) l.
Proof.
  apply Forall_impl. intros x [Hx Hs]. split; [exact Hx|].
  intros E. rewrite E in Hs. vm_compute in Hs. discriminate.
Qed.

Lemma whitespaceOnly_spaceRunes (s : string) :
  whitespaceOnly s -> Forall spaceRune (runes s).
Proof.
  unfold whitespaceOnly. intros H. pose proof (runes_wf s) as W.
  rewrite Forall_forall in *. intros x Hx. split; auto.
Qed.

Lemma spaceRunes_whitespaceOnly (l : list Rune) :
  Forall spaceRune l -> whitespaceOnly (bytes l).
Proof.
  intros H. unfold whitespaceOnly.
  rewrite <- (append_nil_r (bytes l)).
  rewrite (runes_bytes_app l "" (spaceRune_valid l H)).
  rewrite app_nil_r. revert H. apply Forall_impl. now intros x [_ Hs].
Qed.

(** Replacing matches in white space leaves white space, when the
    replacement is white space. *)
Lemma replaceAll_spaceRunes (re : Regexp) (repl : string) (lr : list Rune) :
  Forall spaceRune lr -> repl = bytes lr ->
  forall fuel prev inp afterMatch,
    Forall spaceRune inp ->
    exists l, Forall spaceRune l
              /\ replaceAll fuel re repl prev inp afterMatch = bytes l.
Proof.
  intros Hlr ->. induction fuel as [|fuel IH]; intros prev inp am Hinp.
  - exists inp. auto.
  - cbn [replaceAll].
    assert (Hstep : exists l, Forall spaceRune l /\
              match inp with
              | [] => ""
              | x :: inp' =>
                raw x ++ replaceAll fuel re (bytes lr) (Some (code x)) inp' false
              end = bytes l).
    { destruct inp as [|x inp']; [now exists []|].
      inversion Hinp as [|? ? Hx Hinp']; subst.
      destruct (IH (Some (code x)) inp' false Hinp') as (l & Hl & ->).
      exists (x :: l). auto. }
    destruct Hstep as (ls & Hls & Es).
    destruct (matchAt re prev inp) as [[pv rest]|] eqn:M.
    + destruct (List.length rest <? List.length inp)%nat.
      * apply matchAt_sound in M. destruct M as (m & -> & _).
        apply Forall_app in Hinp. destruct Hinp as [_ Hrest].
        destruct (IH pv rest true Hrest) as (l & Hl & ->).
        exists (lr ++ l)%list. rewrite bytes_app. split; [|reflexivity].
        apply Forall_app. auto.
      * rewrite Es. destruct am.
        -- exists ls. auto.
        -- exists (lr ++ ls)%list. rewrite bytes_app. split; [|reflexivity].
           apply Forall_app. auto.
    + exists ls. auto.
Qed.

Lemma ReplaceAllString_whitespaceOnly (re : Regexp) (s repl : string)
      (lr : list Rune) :
  Forall spaceRune lr -> repl = bytes lr ->
  whitespaceOnly s -> whitespaceOnly (ReplaceAllString re s repl).
Proof.
  intros Hlr Hrepl Hs. unfold ReplaceAllString.
  destruct (replaceAll_spaceRunes re repl lr Hlr Hrepl
              (S (List.length (runes s))) None (runes s) false
              (whitespaceOnly_spaceRunes s Hs)) as (l & Hl & ->).
  now apply spaceRunes_whitespaceOnly.
Qed.

Lemma spaceRune_LF : spaceRune (mkRune 10 LF).
Proof.
  split; [|reflexivity]. constructor; cbn [code raw].
  - discriminate.
  - reflexivity.
  - congruence.
  - intros _ t. reflexivity.
Qed.

Lemma length_bytes_ge (l : list Rune) :
  Forall spaceRune l -> (List.length l <= String.length (bytes l))%nat.
Proof.
  induction 1 as [|x l [Hx _] _ IH]; simpl; [lia|].
  rewrite length_append. pose proof (wf_nonempty x Hx).
  destruct (raw x); [congruence | simpl; lia].
Qed.

Lemma trimLeftLoop_spaceRunes (l : list Rune) :
  Forall spaceRune l ->
  forall fuel, (List.length l <= fuel)%nat ->
               strings.trimLeftLoop fuel unicode.IsSpace (bytes l) = "".
Proof.
  induction 1 as [|x l [Hx Hs] Hl IH]; intros fuel Hfuel.
  - now destruct fuel.
  - destruct fuel as [|fuel]; [simpl in Hfuel; lia|].
    cbn [bytes strings.trimLeftLoop].
    assert (Hr : code x <> RuneError)
      by (intros E; rewrite E in Hs; vm_compute in Hs; discriminate).
    pose proof (wf_stable x Hx Hr (bytes l)) as D.
    pose proof (wf_nonempty x Hx) as Hne.
    destruct (raw x ++ bytes l) as [|c t] eqn:E.
    + reflexivity.
    + rewrite D, Hs, <- E, drop_append. apply IH. simpl in Hfuel. lia.
Qed.

Lemma TrimSpace_whitespaceOnly (s : string) :
  whitespaceOnly s -> strings.TrimSpace s = "".
Proof.
  intros H. apply whitespaceOnly_spaceRunes in H.
  unfold strings.TrimSpace, strings.TrimFunc, strings.TrimLeftFunc.
  rewrite <- (bytes_runes s) at 2.
  rewrite trimLeftLoop_spaceRunes; [reflexivity | exact H |].
  rewrite <- (bytes_runes s) at 2. now apply length_bytes_ge.
Qed.

Lemma fold_rules_whitespaceOnly (filterPatterns : list Regexp) (s : string) :
  whitespaceOnly s ->
  whitespaceOnly
    (fold_left (fun filtered pattern => ReplaceAllString pattern filtered "")
               filterPatterns s).
Proof.
  revert s; induction filterPatterns as [|re ps IH]; intros s H; simpl;
    [exact H|].
  apply IH. now apply (ReplaceAllString_whitespaceOnly re s "" []).
Qed.

(** ** The co-author rule on a line of its own *)








(** [replaceAll] does not depend on the fuel, once there is enough. *)
Lemma replaceAll_fuel (re : Regexp) (repl : string) (f1 : nat) :
  forall f2 prev inp afterMatch,
    (List.length inp < f1)%nat -> (List.length inp < f2)%nat ->
    replaceAll f1 re repl prev inp afterMatch
    = replaceAll f2 re repl prev inp afterMatch.
Proof.
  induction f1 as [|f1 IH]; intros f2 prev inp am H1 H2; [lia|].
  destruct f2 as [|f2]; [lia|]. cbn [replaceAll].
  assert (Hstep : match inp with
                  | [] => ""
                  | x :: inp' =>
                    raw x ++ replaceAll f1 re repl (Some (code x)) inp' false
                  end
                  = match inp with
                    | [] => ""
                    | x :: inp' =>
                      raw x ++ replaceAll f2 re repl (Some (code x)) inp' false
                    end).
  { destruct inp as [|x inp']; [reflexivity|]. simpl in *.
    now rewrite (IH f2) by lia. }
  destruct (matchAt re prev inp) as [[pv rest]|]; [|exact Hstep].
  destruct (List.length rest <? List.length inp)%nat eqn:E.
  - apply Nat.ltb_lt in E. now rewrite (IH f2) by lia.
  - now rewrite Hstep.
Qed.

Lemma concat_BeginLine_run (R : Regexp) (prev : option N) (inp : list Rune)
      (k : Cont) :
  prev = None \/ prev = Some 10%N ->
  matchK (Concat BeginLine R) prev inp k = matchK R prev inp k.
Proof. intros [-> | ->]; reflexivity. Qed.

(** At the start of a line the co-author rule takes the trailer to the
    end of the line. *)
Lemma matchAt_coAuthoredByRe_line (prev : option N) (value rest : list Rune) :
  prev = None \/ prev = Some 10%N ->
  Forall (fun x => code x <> 10%N) value ->
  stopsAt anyCharNotNL rest ->
  exists pv,
    matchAt coAuthoredByRe prev
            (asciiRunes "Co-Authored-By:" ++ value ++ rest)%list
    = Some (pv, rest)
    /\ pv <> Some 10%N.
Proof.
  intros Hprev Hvalue Hrest.
  exists (fold_left (fun _ x => Some (code x)) value (Some 58%N)).
  split.
  - unfold matchAt, coAuthoredByRe.
    rewrite concat_BeginLine_run by exact Hprev.
    unfold Str. cbn [matchK]. rewrite <- code_asciiRunes, literalK_run.
    cbn [asciiRunes list_ascii_of_string map fold_left].
    apply starK_run; [exact Hrest | |].
    + revert Hvalue. apply Forall_impl. intros x Hx. unfold anyCharNotNL.
      apply negb_true_iff. now apply N.eqb_neq.
    + destruct rest as [|y rest']; cbn; [reflexivity|].
      simpl in Hrest. unfold anyCharNotNL in Hrest.
      apply negb_false_iff in Hrest. now rewrite Hrest.
  - assert (G : forall l pv, pv <> Some 10%N ->
                  Forall (fun x => code x <> 10%N) l ->
                  fold_left (fun _ x => Some (code x)) l pv <> Some 10%N).
    { induction l as [|x l IHl]; intros pv Hpv Hl; [exact Hpv|].
      inversion Hl; subst. simpl. apply IHl; [congruence | assumption]. }
    apply G; [discriminate | exact Hvalue].
Qed.




Lemma replaceAll_step (fuel : nat) (re : Regexp) (repl : string)
      (prev : option N) (inp : list Rune) (afterMatch : bool) :
  replaceAll (S fuel) re repl prev inp afterMatch
  = match matchAt re prev inp with
    | Some (pv, rest) =>
      if (List.length rest <? List.length inp)%nat then
        repl ++ replaceAll fuel re repl pv rest true
      else
        (if afterMatch then "" else repl) ++
        match inp with
        | [] => ""
        | x :: inp' =>
          raw x ++ replaceAll fuel re repl (Some (code x)) inp' false
        end
    | None =>
      match inp with
      | [] => ""
      | x :: inp' =>
        raw x ++ replaceAll fuel re repl (Some (code x)) inp' false
      end
    end.
Proof. reflexivity. Qed.

(** ** SetFilterPatterns *)

Section ConfigureFacts.

Variable Compile : string -> Regexp + string.
Variable Quote : string -> string.

Lemma setFilterPatterns_loop (patterns : list string) (acc : Package) :
  fold_left (setFilterPattern Compile Quote) patterns acc
  = mkPackage (filterPatterns acc ++ compiledInOrder Compile patterns)%list
              (logged acc ++ warningsInOrder Compile Quote patterns)%list.
Proof.
  revert acc; induction patterns as [|p ps IH]; intros [fp lg]; simpl.
  - now rewrite !app_nil_r.
  - rewrite IH. unfold setFilterPattern.
    destruct (Compile p) as [re|err]; simpl;
      now rewrite <- ?app_assoc, ?app_nil_r.
Qed.

End ConfigureFacts.

(** C7. [SetFilterPatterns] is total: on every list of patterns and in
    every package state it installs exactly the compiled forms of the
    patterns that compile, in input order, whatever rule set was active
    before; a pattern that does not compile only adds a warning to the log
    and the loop goes on with the next one. *)
Theorem SetFilterPatterns_installs_compiled_in_order :
  forall (Compile : string -> Regexp + string) (Quote : string -> string)
         (patterns : list string) (pkg : Package),
    filterPatterns (SetFilterPatterns Compile Quote patterns pkg)
    = compiledInOrder Compile patterns
    /\ logged (SetFilterPatterns Compile Quote patterns pkg)
       = (logged pkg ++ warningsInOrder Compile Quote patterns)%list.
Proof.
  intros Compile Quote patterns pkg. unfold SetFilterPatterns.
  rewrite setFilterPatterns_loop. simpl. split; reflexivity.
Qed.

(** When the two default patterns compile to the syntax trees above,
    [init] installs [defaultFilterRegexps]. *)
Lemma init_installs_defaults
      (Compile : string -> Regexp + string) (Quote : string -> string)
      (pkg : Package) :
  map Compile defaultFilterPatterns = [inl coAuthoredByRe; inl prFooterRe] ->
  filterPatterns (init Compile Quote pkg) = defaultFilterRegexps.
Proof.
  intros H. unfold init, SetFilterPatterns.
  rewrite setFilterPatterns_loop. simpl in *.
  injection H as H1 H2. now rewrite H1, H2.
Qed.

(** ** validateRepoPath *)

Import git.

Lemma isAllowedLoop_false (absPath : string) (allowedPaths : list string) :
  isAllowedLoop absPath allowedPaths = false
  <-> forall repoPath, In repoPath allowedPaths ->
                       HasPrefix absPath repoPath = false.
Proof.
  induction allowedPaths as [|a l IH]; simpl.
  - split; [intros _ r [] | reflexivity].
  - destruct (HasPrefix absPath a) eqn:E.
    + split; [discriminate|]. intros H. rewrite <- E. apply H. now left.
    + rewrite IH. split.
      * intros H r [<-|Hr]; [exact E | now apply H].
      * intros H r Hr. apply H. now right.
Qed.

Lemma isAllowedLoop_true (absPath : string) (allowedPaths : list string) :
  isAllowedLoop absPath allowedPaths = true
  <-> exists repoPath, In repoPath allowedPaths /\
                       HasPrefix absPath repoPath = true.
Proof.
  induction allowedPaths as [|a l IH]; simpl.
  - split; [discriminate | intros [r [[] _]]].
  - destruct (HasPrefix absPath a) eqn:E.
    + split; [|reflexivity]. intros _. exists a. split; [now left | exact E].
    + rewrite IH. split.
      * intros [r [Hr Hp]]. exists r. split; [now right | exact Hp].
      * intros [r [[<-|Hr] Hp]]; [congruence|]. now exists r.
Qed.

(** C5. With an empty requested path, [validateRepoPath] fails exactly when
    the allowed list is empty, with the no-repository error; on a
    non-empty list it returns the first entry. *)
Theorem validateRepoPath_empty_request :
  forall (sys : os.OS) (allowedPaths : list string),
    ((exists err, validateRepoPath sys "" allowedPaths = inr err)
     <-> allowedPaths = [])
    /\ validateRepoPath sys "" [] = inr NoRepository
    /\ (forall first rest,
          validateRepoPath sys "" (first :: rest) = inl first).
Proof.
  intros sys allowedPaths. split; [|split; reflexivity].
  destruct allowedPaths as [|first rest]; simpl.
  - split; [reflexivity | intros _; now exists NoRepository].
  - split; [intros [err H]; discriminate | discriminate].
Qed.

(** C10. With an empty requested path and a non-empty allowed list the
    first entry is returned at once: the result does not depend on the
    file system, so neither the access-denied nor the not-a-git-repository
    error can come out, even when [stat] finds no [.git] under that
    entry. *)
Theorem validateRepoPath_default_unchecked :
  forall (sys : os.OS) (first : string) (rest : list string),
    validateRepoPath sys "" (first :: rest) = inl first
    /\ (forall p, validateRepoPath sys "" (first :: rest)
                  <> inr (AccessDenied p))
    /\ (forall p, validateRepoPath sys "" (first :: rest)
                  <> inr (NotAGitRepository p))
    /\ validateRepoPath (os.mkOS (os.Getwd sys) (fun _ => Some os.ENOENT))
                        "" (first :: rest) = inl first.
Proof.
  intros sys first rest. simpl. repeat split; intros; discriminate.
Qed.

(** Past the empty-request branch, the resolution of the path and the
    containment gate, only the [stat] of [.git] decides. *)
Lemma validateRepoPath_resolved
      (sys : os.OS) (requestedPath : string) (allowedPaths : list string)
      (absPath : string) :
  requestedPath <> "" ->
  filepath.Abs sys requestedPath = inl absPath ->
  negb (isAllowedLoop absPath allowedPaths)
  && (0 <? List.length allowedPaths)%nat = false ->
  validateRepoPath sys requestedPath allowedPaths
  = if os.IsNotExist (os.Stat sys (filepath.Join [absPath; ".git"]))
    then inr (NotAGitRepository absPath) else inl absPath.
Proof.
  intros Hreq Habs Hgate. unfold validateRepoPath.
  apply String.eqb_neq in Hreq. now rewrite Hreq, Habs, Hgate.
Qed.

(** C3. For a non-empty request and a non-empty allowed list,
    [validateRepoPath] fails with the access-denied error exactly when the
    request resolves to an absolute path of which no allowed entry is a
    string prefix.  The test is on bytes: [/home/user/repo-other] passes
    under the root [/home/user/repo], and [/etc] is denied under
    [/repos/a]. *)
Theorem validateRepoPath_access_denied_iff_no_prefix :
  forall (sys : os.OS) (requestedPath : string) (allowedPaths : list string),
    requestedPath <> "" ->
    allowedPaths <> [] ->
    (forall p,
        validateRepoPath sys requestedPath allowedPaths = inr (AccessDenied p)
        <-> filepath.Abs sys requestedPath = inl p
            /\ forall repoPath, In repoPath allowedPaths ->
                                ~ exists t, p = repoPath ++ t)
    /\ isAllowedLoop "/home/user/repo-other" ["/home/user/repo"] = true
    /\ (forall p, validateRepoPath sys "/home/user/repo-other"
                                   ["/home/user/repo"] <> inr (AccessDenied p))
    /\ validateRepoPath sys "/etc" ["/repos/a"] = inr (AccessDenied "/etc").
Proof.
  intros sys req allowed Hreq Hallowed. split; [|split; [|split]].
  - intros p. unfold validateRepoPath.
    apply String.eqb_neq in Hreq. rewrite Hreq.
    assert (Hlen : (0 <? List.length allowed)%nat = true)
      by (destruct allowed; [congruence | reflexivity]).
    assert (Hpre : forall q,
               isAllowedLoop q allowed = false
               <-> forall repoPath, In repoPath allowed ->
                                    ~ exists t, q = repoPath ++ t).
    { intros q. rewrite isAllowedLoop_false. split; intros H r Hr.
      - rewrite <- HasPrefix_spec. rewrite (H r Hr). discriminate.
      - destruct (HasPrefix q r) eqn:E; [|reflexivity].
        exfalso. apply (H r Hr). now apply HasPrefix_spec. }
    destruct (filepath.Abs sys req) as [absPath|err].
    + rewrite Hlen, andb_true_r.
      destruct (isAllowedLoop absPath allowed) eqn:E; simpl.
      * split.
        -- destruct (os.IsNotExist _); intros H; discriminate.
        -- intros [H1 H2]. injection H1 as <-.
           apply Hpre in H2. congruence.
      * split.
        -- intros H. injection H as <-. split; [reflexivity|].
           now apply Hpre.
        -- intros [H1 _]. now injection H1 as <-.
    + split; [discriminate | intros [H _]; discriminate].
  - reflexivity.
  - intros p. unfold validateRepoPath. simpl.
    destruct (os.IsNotExist _); discriminate.
  - reflexivity.
Qed.

Lemma validateRepoPath_access_denied_iff_no_prefix_witness :
  validateRepoPath emptyFS "/etc" ["/repos/a"] = inr (AccessDenied "/etc").
Proof.
  refine (proj2 (proj2 (proj2
    (validateRepoPath_access_denied_iff_no_prefix
       emptyFS "/etc" ["/repos/a"] _ _)))); discriminate.
Defined.

(** Past the empty-request branch, the resolution and the containment
    gate, [validateRepoPath] fails with the not-a-git-repository error
    exactly when [stat] of [absPath/.git] reports that the entry does not
    exist; otherwise (the entry is found, or [stat] fails for another
    reason) it returns [absPath]. *)
Lemma validateRepoPath_not_a_repository_iff_stat_not_exist
      (sys : os.OS) (requestedPath : string) (allowedPaths : list string)
      (absPath : string) :
  requestedPath <> "" ->
  filepath.Abs sys requestedPath = inl absPath ->
  allowedPaths = [] \/ isAllowedLoop absPath allowedPaths = true ->
  (validateRepoPath sys requestedPath allowedPaths
   = inr (NotAGitRepository absPath)
   <-> os.IsNotExist (os.Stat sys (filepath.Join [absPath; ".git"])) = true)
  /\ (os.IsNotExist (os.Stat sys (filepath.Join [absPath; ".git"])) = false ->
      validateRepoPath sys requestedPath allowedPaths = inl absPath)
  /\ (hasGitEntry sys absPath ->
      validateRepoPath sys requestedPath allowedPaths = inl absPath).
Proof.
  intros Hreq Habs Hallowed.
  assert (Hgate : negb (isAllowedLoop absPath allowedPaths)
                  && (0 <? List.length allowedPaths)%nat = false).
  { destruct Hallowed as [-> | ->]; [apply andb_false_r | reflexivity]. }
  rewrite (validateRepoPath_resolved sys requestedPath allowedPaths absPath
             Hreq Habs Hgate).
  unfold hasGitEntry.
  destruct (os.Stat sys (filepath.Join [absPath; ".git"])) as [[]|] eqn:E;
    simpl; (split; [split; congruence | split; congruence]).
Qed.

(** With no [.git] under [/repos/a/sub], the request [/repos/a/sub] under
    the root [/repos/a] is not a git repository. *)
Lemma validateRepoPath_sub_not_a_repository (sys : os.OS) :
  os.Stat sys "/repos/a/sub/.git" = Some os.ENOENT ->
  validateRepoPath sys "/repos/a/sub" ["/repos/a"]
  = inr (NotAGitRepository "/repos/a/sub").
Proof.
  intros H.
  rewrite (validateRepoPath_resolved sys "/repos/a/sub" ["/repos/a"]
                                     "/repos/a/sub");
    try reflexivity; try discriminate.
  change (filepath.Join ["/repos/a/sub"; ".git"]) with "/repos/a/sub/.git".
  now rewrite H.
Qed.

(** The equivalence of C4 does not hold of the code in every file
    system. *)
Lemma validateRepoPath_not_a_repository_not_iff :
  ~ (forall (sys : os.OS) (requestedPath : string)
            (allowedPaths : list string) (absPath : string),
        requestedPath <> "" ->
        filepath.Abs sys requestedPath = inl absPath ->
        allowedPaths = [] \/ isAllowedLoop absPath allowedPaths = true ->
        (validateRepoPath sys requestedPath allowedPaths
         = inr (NotAGitRepository absPath)
         <-> ~ hasGitEntry sys absPath)).
Proof.
  intros H.
  specialize (H passwdIsAFile "/etc/passwd" [] "/etc/passwd").
  destruct H as [_ H]; try discriminate; try reflexivity; try (now left).
  discriminate H. unfold hasGitEntry. vm_compute. discriminate.
Qed.

(** C4. The code lets through a path with no [.git] entry beneath it when
    [stat] fails otherwise than with not-exist: where [/etc/passwd] is a
    regular file, [stat] of [/etc/passwd/.git] fails with [ENOTDIR], no
    [.git] entry is found, and [validateRepoPath] returns [/etc/passwd],
    with an empty allowed list and under the root [/etc] alike. *)
Theorem validateRepoPath_admits_regular_file :
  filepath.Abs passwdIsAFile "/etc/passwd" = inl "/etc/passwd"
  /\ os.Stat passwdIsAFile (filepath.Join ["/etc/passwd"; ".git"])
     = Some os.ENOTDIR
  /\ ~ hasGitEntry passwdIsAFile "/etc/passwd"
  /\ validateRepoPath passwdIsAFile "/etc/passwd" [] = inl "/etc/passwd"
  /\ validateRepoPath passwdIsAFile "/etc/passwd" ["/etc"]
     = inl "/etc/passwd".
Proof.
  repeat split; try reflexivity. unfold hasGitEntry. vm_compute. discriminate.
Qed.

(** ** FilterBody *)

(** C8. Whatever rules are configured, the output of [FilterBody] holds no
    run of three line feeds, begins with no white space and ends with
    none; so a text made of white space only is filtered to the empty
    string. *)
Theorem FilterBody_whitespace_normalised :
  forall (filterPatterns : list Regexp) (x : string),
    ~ Contains (FilterBody filterPatterns x) (LF ++ LF ++ LF)
    /\ startsWithSpace (FilterBody filterPatterns x) = false
    /\ endsWithSpace (FilterBody filterPatterns x) = false
    /\ (whitespaceOnly x -> FilterBody filterPatterns x = "").
Proof.
  intros ps x. unfold FilterBody.
  destruct (String.eqb x "") eqn:E.
  - apply String.eqb_eq in E. subst x. repeat split; try reflexivity.
    intros (a & b & H). destruct a; discriminate.
  - set (filtered := fold_left _ ps x).
    split; [|split; [|split]].
    + destruct (TrimSpace_slice
                  (ReplaceAllString multipleNewlines filtered (LF ++ LF)))
        as (i & j & ->).
      intros H. apply Contains_take, Contains_drop in H.
      exact (ReplaceAllString_multipleNewlines _ H).
    + apply TrimSpace_no_leading_space.
    + apply TrimSpace_no_trailing_space.
    + intros H. apply TrimSpace_whitespaceOnly.
      apply (ReplaceAllString_whitespaceOnly _ _ _
               [mkRune 10 LF; mkRune 10 LF]).
      * repeat constructor; apply spaceRune_LF.
      * reflexivity.
      * now apply fold_rules_whitespaceOnly.
Qed.

Lemma FilterBody_whitespace_normalised_witness :
  FilterBody defaultFilterRegexps ("   " ++ LF ++ LF ++ "   ") = "".
Proof.
  apply (proj2 (proj2 (proj2
    (FilterBody_whitespace_normalised defaultFilterRegexps
       ("   " ++ LF ++ LF ++ "   "))))).
  unfold whitespaceOnly. vm_compute. repeat constructor.
Defined.

(** C6. The footer rule matches every footer of the documented form,
    whatever white space (a line break included) stands between the
    marker and the phrase; at any position of any text a match of the rule
    ends with the attribution, which holds no line feed and is followed by
    a line feed or by the end of the text; and the minimal footer of the
    test table is filtered to [Quick fix]. *)
Theorem prFooterRe_spans_line_break_and_stops_at_line_end :
  (forall (prev : option N) (ws tool url attribution rest : list Rune),
      Forall (fun x => perlSpace (code x) = true) ws ->
      tool <> [] -> Forall (fun x => code x <> 93%N) tool ->
      url <> [] -> Forall (fun x => code x <> 41%N) url ->
      attribution <> [] -> Forall (fun x => code x <> 10%N) attribution ->
      stopsAt (notRune 10) rest ->
      exists pv,
        matchAt prFooterRe prev
          (asciiRunes "---" ++ ws ++ asciiRunes "Pull Request opened by ["
           ++ tool ++ asciiRunes "](" ++ url
           ++ asciiRunes ") with guidance from " ++ attribution ++ rest)%list
        = Some (pv, rest))
  /\ (forall (text : string) (before inp : list Rune) (prev pv : option N)
             (rest : list Rune),
         runes text = (before ++ inp)%list ->
         matchAt prFooterRe prev inp = Some (pv, rest) ->
         exists head attribution,
           inp = (head ++ attribution ++ rest)%list
           /\ (exists h, map code head = (h ++ guidanceFrom)%list)
           /\ attribution <> []
           /\ noLF (bytes attribution) = true
           /\ (bytes rest = "" \/ exists t, bytes rest = LF ++ t))
  /\ FilterBody defaultFilterRegexps minimalFooter = "Quick fix".
Proof.
  split; [|split].
  - intros. now apply prFooterRe_matches.
  - intros text before inp prev pv rest Htext M.
    destruct (prFooterRe_match_ends_line _ _ _ _ M)
      as (head & attribution & E & Hh & Hne & Ha & Hstop).
    pose proof (runes_wf text) as W. rewrite Htext, E in W.
    apply Forall_app in W. destruct W as [_ W].
    apply Forall_app in W. destruct W as [_ W].
    apply Forall_app in W. destruct W as [Wa Wr].
    exists head, attribution. repeat split; auto.
    + now apply noLF_bytes.
    + now apply stopsAt_bytes.
  - vm_compute. reflexivity.
Qed.

Lemma prFooterRe_spans_line_break_and_stops_at_line_end_witness :
  exists pv,
    matchAt prFooterRe None
      (runes ("---" ++ LF
              ++ "Pull Request opened by [X](http://x.com) with guidance from Y"
              ++ LF ++ "More text"))
    = Some (pv, runes (LF ++ "More text")).
Proof.
  apply (proj1 prFooterRe_spans_line_break_and_stops_at_line_end None
           (runes LF) (runes "X") (runes "http://x.com") (runes "Y")
           (runes (LF ++ "More text")));
    try discriminate; try (vm_compute; repeat constructor; discriminate).
Defined.

(** C1. [FilterBody] is not idempotent under the default rules: the
    trailer behind a blank is no match of the line-anchored rule, the
    final [TrimSpace] moves it to the start of the text, and a second pass
    removes it. *)
Theorem FilterBody_second_pass_differs :
  FilterBody defaultFilterRegexps indentedTrailer = "Co-Authored-By: x"
  /\ FilterBody defaultFilterRegexps
       (FilterBody defaultFilterRegexps indentedTrailer) = ""
  /\ FilterBody defaultFilterRegexps
       (FilterBody defaultFilterRegexps indentedTrailer)
     <> FilterBody defaultFilterRegexps indentedTrailer.
Proof. repeat split; vm_compute; try reflexivity; discriminate. Qed.

(** C2. The output of [FilterBody] under the default rules can hold a
    match of either rule: the trailer moved to the start of the text by
    [TrimSpace], and the footer put together when the footer between its
    marker and its phrase is removed. *)
Theorem FilterBody_output_matches_default_rules :
  FilterBody defaultFilterRegexps indentedTrailer = "Co-Authored-By: x"
  /\ MatchString coAuthoredByRe
       (FilterBody defaultFilterRegexps indentedTrailer) = true
  /\ FilterBody defaultFilterRegexps nestedFooter
     = "--- " ++ LF ++ "Pull Request opened by [X](u) with guidance from Z"
  /\ MatchString prFooterRe
       (FilterBody defaultFilterRegexps nestedFooter) = true.
Proof. repeat split; vm_compute; reflexivity. Qed.

(** * Further properties *)

(** ** path/filepath: the normal form of rooted paths *)

Lemma noSeparator_append (a b : string) :
  noSeparator (a ++ b) = noSeparator a && noSeparator b.
Proof.
  induction a as [|c a IH]; simpl; [reflexivity|].
  now rewrite IH, andb_assoc.
Qed.

Lemma splitElems_noSeparator (path : string) :
  forall cur, noSeparator cur = true ->
              Forall (fun e => noSeparator e = true)
                     (filepath.splitElems path cur).
Proof.
  induction path as [|c path IH]; intros cur Hcur; simpl.
  - now constructor.
  - destruct (os.IsPathSeparator c) eqn:E.
    + constructor; [exact Hcur | now apply IH].
    + apply IH. rewrite noSeparator_append, Hcur. simpl. now rewrite E.
Qed.

Lemma cleanStep_rooted_real (out : list string) (elem : string) :
  noSeparator elem = true -> Forall realElem out ->
  Forall realElem (filepath.cleanStep true out elem).
Proof.
  intros He Hout. unfold filepath.cleanStep.
  destruct (String.eqb elem "") eqn:E1; [exact Hout|].
  destruct (String.eqb elem ".") eqn:E2; [exact Hout|]. simpl.
  destruct (String.eqb elem "..") eqn:E3.
  - destruct out as [|top out']; [constructor|].
    inversion Hout as [|? ? Htop Hout']; subst.
    destruct (String.eqb top ".." ) eqn:E4; [|exact Hout'].
    apply String.eqb_eq in E4. destruct Htop as (_ & _ & H & _). congruence.
  - constructor; [|exact Hout].
    apply String.eqb_neq in E1, E2, E3. repeat split; assumption.
Qed.

Lemma fold_cleanStep_rooted_real (elems : list string) :
  forall out,
    Forall (fun e => noSeparator e = true) elems -> Forall realElem out ->
    Forall realElem (fold_left (filepath.cleanStep true) elems out).
Proof.
  induction elems as [|e elems IH]; intros out He Hout; simpl; [exact Hout|].
  inversion He; subst. apply IH; [assumption|].
  now apply cleanStep_rooted_real.
Qed.

(** [Clean] of a rooted path is in normal form. *)
Lemma Clean_rooted (path : string) :
  filepath.IsAbs path = true -> cleanRooted (filepath.Clean path).
Proof.
  intros H. destruct path as [|c path]; [discriminate|].
  assert (Hc : os.IsPathSeparator c = true).
  { unfold os.IsPathSeparator.
    destruct (Ascii.eqb c "/") eqn:E; [reflexivity|].
    unfold filepath.IsAbs, HasPrefix in H. cbn in H.
    rewrite ?E in H. cbn in H. rewrite ?andb_false_r in H. discriminate. }
  unfold filepath.Clean. rewrite Hc.
  eexists. split; [|reflexivity].
  apply Forall_rev. apply fold_cleanStep_rooted_real; [|constructor].
  now apply splitElems_noSeparator.
Qed.

Lemma splitElems_append (e rest cur : string) :
  noSeparator e = true ->
  filepath.splitElems (e ++ rest) cur = filepath.splitElems rest (cur ++ e).
Proof.
  revert cur; induction e as [|c e IH]; intros cur H; simpl.
  - now rewrite append_nil_r.
  - simpl in H. apply andb_true_iff in H. destruct H as [Hc He].
    apply negb_true_iff in Hc. rewrite Hc, IH by exact He.
    now rewrite append_assoc.
Qed.

Lemma splitElems_concat (elems : list string) :
  Forall (fun e => noSeparator e = true) elems ->
  forall cur,
    filepath.splitElems (String.concat "/" elems) cur
    = match elems with
      | [] => [cur]
      | e :: es => (cur ++ e) :: es
      end.
Proof.
  induction 1 as [|e es He Hes IH]; intros cur; [reflexivity|].
  destruct es as [|e2 es].
  - simpl. rewrite <- (append_nil_r e) at 1.
    now rewrite splitElems_append.
  - change (String.concat "/" (e :: e2 :: es))
      with (e ++ String "/" (String.concat "/" (e2 :: es))).
    rewrite splitElems_append by exact He.
    cbn [filepath.splitElems]. change (os.IsPathSeparator "/") with true.
    cbv iota. now rewrite IH.
Qed.

Lemma cleanStep_real (rooted : bool) (out : list string) (e : string) :
  realElem e -> filepath.cleanStep rooted out e = e :: out.
Proof.
  intros (H1 & H2 & H3 & _). unfold filepath.cleanStep.
  apply String.eqb_neq in H1, H2, H3. now rewrite H1, H2, H3.
Qed.

Lemma fold_cleanStep_real (rooted : bool) (elems : list string) :
  Forall realElem elems ->
  forall out, fold_left (filepath.cleanStep rooted) elems out
              = (rev elems ++ out)%list.
Proof.
  induction 1 as [|e es He _ IH]; intros out; [reflexivity|].
  simpl. rewrite cleanStep_real by exact He. rewrite IH.
  now rewrite <- app_assoc.
Qed.

(** [Clean] leaves a rooted path in normal form as it is. *)
Lemma Clean_cleanRooted (p : string) :
  cleanRooted p -> filepath.Clean p = p.
Proof.
  intros (elems & Hreal & ->).
  change ("/" ++ String.concat "/" elems)
    with (String "/" (String.concat "/" elems)).
  unfold filepath.Clean. change (os.IsPathSeparator "/") with true.
  cbv iota. cbn [filepath.splitElems].
  change (os.IsPathSeparator "/") with true. cbv iota.
  assert (Hsep : Forall (fun e => noSeparator e = true) elems).
  { revert Hreal. apply Forall_impl. now intros e (_ & _ & _ & H). }
  rewrite splitElems_concat by exact Hsep.
  destruct elems as [|e es].
  - reflexivity.
  - change ("" ++ e) with e.
    replace (fold_left (filepath.cleanStep true) ("" :: e :: es) [])
      with (fold_left (filepath.cleanStep true) (e :: es) [])
      by reflexivity.
    rewrite (fold_cleanStep_real true (e :: es) Hreal).
    now rewrite app_nil_r, rev_involutive.
Qed.

Lemma cleanRooted_IsAbs (p : string) :
  cleanRooted p -> filepath.IsAbs p = true.
Proof. intros (elems & _ & ->). reflexivity. Qed.

Lemma IsAbs_nonempty (p : string) : filepath.IsAbs p = true -> p <> "".
Proof. intros H ->. discriminate. Qed.

Lemma IsAbs_append (p t : string) :
  filepath.IsAbs p = true -> filepath.IsAbs (p ++ t) = true.
Proof.
  unfold filepath.IsAbs. rewrite !HasPrefix_spec. intros [u ->].
  exists (u ++ t). now rewrite append_assoc.
Qed.

(** [Abs] resolves to a rooted path in normal form. *)
Lemma Abs_cleanRooted (sys : os.OS) (path p : string) :
  absoluteWd sys -> filepath.Abs sys path = inl p -> cleanRooted p.
Proof.
  intros Hwd. unfold filepath.Abs.
  destruct (filepath.IsAbs path) eqn:E.
  - intros H. injection H as <-. now apply Clean_rooted.
  - destruct (os.Getwd sys) as [wd|err] eqn:G; [|discriminate].
    intros H. injection H as <-. specialize (Hwd wd G).
    pose proof (IsAbs_nonempty wd Hwd) as Hne.
    cbn [filepath.Join]. apply String.eqb_neq in Hne. rewrite Hne.
    apply Clean_rooted. cbn [String.concat].
    now apply IsAbs_append.
Qed.

(** [Abs] leaves a rooted path in normal form as it is. *)
Lemma Abs_cleanRooted_id (sys : os.OS) (p : string) :
  cleanRooted p -> filepath.Abs sys p = inl p.
Proof.
  intros H. unfold filepath.Abs.
  rewrite (cleanRooted_IsAbs p H). now rewrite Clean_cleanRooted.
Qed.

(** What a successful validation of a non-empty request went through. *)
Lemma validateRepoPath_ok_inv (sys : os.OS) (requestedPath : string)
      (allowedPaths : list string) (p : string) :
  requestedPath <> "" ->
  validateRepoPath sys requestedPath allowedPaths = inl p ->
  filepath.Abs sys requestedPath = inl p
  /\ negb (isAllowedLoop p allowedPaths)
     && (0 <? List.length allowedPaths)%nat = false
  /\ os.IsNotExist (os.Stat sys (filepath.Join [p; ".git"])) = false.
Proof.
  intros Hreq. unfold validateRepoPath.
  apply String.eqb_neq in Hreq. rewrite Hreq.
  destruct (filepath.Abs sys requestedPath) as [absPath|err]; [|discriminate].
  destruct (negb (isAllowedLoop absPath allowedPaths)
            && (0 <? List.length allowedPaths)%nat) eqn:G; [discriminate|].
  destruct (os.IsNotExist _) eqn:S; [discriminate|].
  intros H. injection H as <-. auto.
Qed.

(** ** validateRepoPath: what a caller can rely on *)

Lemma concat_snoc (sep e : string) (elems : list string) :
  elems <> [] ->
  String.concat sep (elems ++ [e])%list
  = String.concat sep elems ++ sep ++ e.
Proof.
  induction elems as [|x xs IH]; intros Hne; [congruence|].
  destruct xs as [|y ys]; [reflexivity|].
  change (String.concat sep ((x :: y :: ys) ++ [e])%list)
    with (x ++ sep ++ String.concat sep ((y :: ys) ++ [e])%list).
  rewrite IH by discriminate.
  change (String.concat sep (x :: y :: ys))
    with (x ++ sep ++ String.concat sep (y :: ys)).
  now rewrite !append_assoc.
Qed.

(** The path whose [stat] decides: the entry [.git] directly beneath a
    rooted path in normal form. *)
Lemma Join_dot_git (p : string) :
  cleanRooted p ->
  filepath.Join [p; ".git"]
  = if String.eqb p "/" then "/.git" else p ++ "/.git".
Proof.
  intros (elems & Hreal & ->).
  destruct elems as [|e es]; [reflexivity|].
  assert (Hne : "/" ++ String.concat "/" (e :: es) <> "/").
  { inversion Hreal as [|? ? (He & _) _]; subst.
    destruct e as [|c e']; [congruence|]. destruct es; discriminate. }
  apply String.eqb_neq in Hne. rewrite Hne.
  assert (E : ("/" ++ String.concat "/" (e :: es)) ++ "/.git"
              = "/" ++ String.concat "/" ((e :: es) ++ [".git"])%list)
    by (rewrite concat_snoc by discriminate; reflexivity).
  change (filepath.Join ["/" ++ String.concat "/" (e :: es); ".git"])
    with (filepath.Clean (("/" ++ String.concat "/" (e :: es)) ++ "/.git")).
  rewrite E.
  apply Clean_cleanRooted. eexists. split; [|reflexivity].
  apply Forall_app. split; [exact Hreal|].
  constructor; [|constructor].
  repeat split; (discriminate || reflexivity).
Qed.

(** X1.  Where allowed paths are configured, every path that
    [validateRepoPath] returns begins with the bytes of one of them: the
    default is the first of them, and a requested path is returned only
    once the prefix loop has found its root. *)
Theorem validateRepoPath_result_under_allowed_root :
  forall (sys : os.OS) (requestedPath : string) (allowedPaths : list string)
         (p : string),
    allowedPaths <> [] ->
    validateRepoPath sys requestedPath allowedPaths = inl p ->
    exists root t, In root allowedPaths /\ p = root ++ t.
Proof.
  intros sys req allowed p Hne H.
  destruct (string_dec req "") as [-> | Hreq].
  - destruct allowed as [|first rest]; [congruence|].
    simpl in H. injection H as <-. exists first, "".
    split; [now left | now rewrite append_nil_r].
  - destruct (validateRepoPath_ok_inv _ _ _ _ Hreq H) as (_ & G & _).
    assert (Hlen : (0 <? List.length allowed)%nat = true)
      by (destruct allowed; [congruence | reflexivity]).
    rewrite Hlen, andb_true_r in G. apply negb_false_iff in G.
    apply isAllowedLoop_true in G. destruct G as (root & Hin & Hp).
    apply HasPrefix_spec in Hp. destruct Hp as [t ->]. eauto.
Qed.

Lemma validateRepoPath_result_under_allowed_root_witness :
  exists root t, In root ["/srv"; "/repos"] /\ "/repos/a" = root ++ t.
Proof.
  apply (validateRepoPath_result_under_allowed_root
           oneRepo "/repos/x/../a/" ["/srv"; "/repos"] "/repos/a").
  - discriminate.
  - vm_compute. reflexivity.
Defined.



(** X3.  The two errors raised before any path is compared:
    [validateRepoPath] reports that no repository is specified exactly
    when the request is empty and no path is configured, and an invalid
    path exactly when the request is relative and the working directory
    cannot be read, with the error of [Getwd]. *)
Theorem validateRepoPath_error_cases :
  forall (sys : os.OS) (requestedPath : string) (allowedPaths : list string),
    (validateRepoPath sys requestedPath allowedPaths = inr NoRepository
     <-> requestedPath = "" /\ allowedPaths = [])
    /\ (forall err,
           validateRepoPath sys requestedPath allowedPaths
           = inr (InvalidPath err)
           <-> requestedPath <> "" /\ filepath.IsAbs requestedPath = false
               /\ os.Getwd sys = inr err).
Proof.
  intros sys req allowed. unfold validateRepoPath, filepath.Abs.
  destruct (String.eqb req "") eqn:E;
    [apply String.eqb_eq in E | apply String.eqb_neq in E].
  - subst req. destruct allowed;
      (split; [split | intros err; split]);
      intuition (try congruence; try discriminate).
  - destruct (filepath.IsAbs req) eqn:A;
      [|destruct (os.Getwd sys) as [wd|e] eqn:G];
      try (destruct (_ && _); [|destruct (os.IsNotExist _)]);
      (split; [split | intros err; split]);
      intuition (try congruence; try discriminate).
Qed.

(** X4.  Where the working directory is absolute, a requested path that
    passes comes back in normal form: rooted, its elements separated by
    single slashes, none of them empty, [.] or [..], and no slash at the
    end.  (The default path, returned for an empty request, is handed
    back as configured.) *)
Theorem validateRepoPath_result_normalised :
  forall (sys : os.OS) (requestedPath : string) (allowedPaths : list string)
         (p : string),
    absoluteWd sys -> requestedPath <> "" ->
    validateRepoPath sys requestedPath allowedPaths = inl p ->
    exists elems, Forall realElem elems /\ p = "/" ++ String.concat "/" elems.
Proof.
  intros sys req allowed p Hwd Hreq H.
  destruct (validateRepoPath_ok_inv _ _ _ _ Hreq H) as (Habs & _).
  exact (Abs_cleanRooted sys req p Hwd Habs).
Qed.

Lemma validateRepoPath_result_normalised_witness :
  exists elems,
    Forall realElem elems /\ "/repos/a" = "/" ++ String.concat "/" elems.
Proof.
  apply (validateRepoPath_result_normalised
           oneRepo "//repos/./x/../a//" ["/repos"] "/repos/a").
  - intros wd H. injection H as <-. reflexivity.
  - discriminate.
  - vm_compute. reflexivity.
Defined.

(** X5.  Validation is stable: where the working directory is absolute,
    a path returned for a non-empty request is returned again,
    unchanged, when it is itself the request. *)
Theorem validateRepoPath_idempotent :
  forall (sys : os.OS) (requestedPath : string) (allowedPaths : list string)
         (p : string),
    absoluteWd sys -> requestedPath <> "" ->
    validateRepoPath sys requestedPath allowedPaths = inl p ->
    validateRepoPath sys p allowedPaths = inl p.
Proof.
  intros sys req allowed p Hwd Hreq H.
  destruct (validateRepoPath_ok_inv _ _ _ _ Hreq H) as (Habs & G & S).
  pose proof (Abs_cleanRooted sys req p Hwd Habs) as Hp.
  rewrite (validateRepoPath_resolved sys p allowed p).
  - now rewrite S.
  - apply IsAbs_nonempty. now apply cleanRooted_IsAbs.
  - now apply Abs_cleanRooted_id.
  - exact G.
Qed.

Lemma validateRepoPath_idempotent_witness :
  validateRepoPath oneRepo "/repos/a" ["/repos"] = inl "/repos/a".
Proof.
  apply (validateRepoPath_idempotent oneRepo "../../repos/./a" ["/repos"]).
  - intros wd H. injection H as <-. reflexivity.
  - discriminate.
  - vm_compute. reflexivity.
Defined.

(** X6.  Only the resolved path counts: an absolute request is judged
    exactly as its cleaned form is, whatever dots, doubled or trailing
    slashes it is written with. *)
Theorem validateRepoPath_depends_on_clean_path :
  forall (sys : os.OS) (requestedPath : string) (allowedPaths : list string),
    filepath.IsAbs requestedPath = true ->
    validateRepoPath sys requestedPath allowedPaths
    = validateRepoPath sys (filepath.Clean requestedPath) allowedPaths.
Proof.
  intros sys req allowed Habs.
  pose proof (Clean_rooted req Habs) as Hc.
  unfold validateRepoPath.
  pose proof (IsAbs_nonempty req Habs) as H1.
  pose proof (IsAbs_nonempty _ (cleanRooted_IsAbs _ Hc)) as H2.
  apply String.eqb_neq in H1, H2. rewrite H1, H2.
  rewrite (Abs_cleanRooted_id sys _ Hc).
  unfold filepath.Abs. now rewrite Habs.
Qed.

Lemma validateRepoPath_depends_on_clean_path_witness :
  validateRepoPath oneRepo "/repos//x/../a/" ["/repos"]
  = validateRepoPath oneRepo (filepath.Clean "/repos//x/../a/") ["/repos"].
Proof.
  apply (validateRepoPath_depends_on_clean_path oneRepo "/repos//x/../a/").
  reflexivity.
Defined.

(** X7.  A relative request is judged exactly as the working directory
    joined with it is. *)
Theorem validateRepoPath_relative_to_working_directory :
  forall (sys : os.OS) (requestedPath wd : string)
         (allowedPaths : list string),
    requestedPath <> "" -> filepath.IsAbs requestedPath = false ->
    os.Getwd sys = inl wd -> filepath.IsAbs wd = true ->
    validateRepoPath sys requestedPath allowedPaths
    = validateRepoPath sys (wd ++ "/" ++ requestedPath) allowedPaths.
Proof.
  intros sys req wd allowed Hreq Hrel Hwd Habs.
  pose proof (IsAbs_append wd ("/" ++ req) Habs) as Hj.
  pose proof (IsAbs_nonempty _ Hj) as H2.
  pose proof (IsAbs_nonempty _ Habs) as H3.
  unfold validateRepoPath.
  apply String.eqb_neq in Hreq, H2, H3. rewrite Hreq, H2.
  unfold filepath.Abs. rewrite Hrel, Hwd, Hj.
  cbn [filepath.Join]. rewrite H3. reflexivity.
Qed.

Lemma validateRepoPath_relative_to_working_directory_witness :
  validateRepoPath oneRepo "../../repos/a" ["/repos"]
  = validateRepoPath oneRepo ("/home/u" ++ "/" ++ "../../repos/a") ["/repos"].
Proof.
  apply (validateRepoPath_relative_to_working_directory
           oneRepo "../../repos/a" "/home/u");
    (discriminate || reflexivity).
Defined.

(** X8.  An allowed path configured with a slash at its end shuts out the
    directory it names and admits what lies beneath it: the resolved
    request for the directory has no slash at its end, so the longer
    configured path is no prefix of it and the request is denied, while
    a path in normal form beneath the directory is not denied. *)
Theorem validateRepoPath_trailing_slash_root :
  forall (sys : os.OS) (root : string),
    filepath.IsAbs root = true -> filepath.Clean root = root ->
    validateRepoPath sys root [root ++ "/"] = inr (AccessDenied root)
    /\ (forall t,
           cleanRooted (root ++ "/" ++ t) ->
           forall absPath,
             validateRepoPath sys (root ++ "/" ++ t) [root ++ "/"]
             <> inr (AccessDenied absPath)).
Proof.
  intros sys root Habs Hclean. split.
  - assert (Hpre : HasPrefix root (root ++ "/") = false).
    { unfold HasPrefix. rewrite length_append. simpl.
      replace (String.length root + 1 <=? String.length root)%nat with false
        by (symmetry; apply Nat.leb_gt; lia). reflexivity. }
    unfold validateRepoPath.
    pose proof (IsAbs_nonempty root Habs) as Hne.
    apply String.eqb_neq in Hne. rewrite Hne.
    unfold filepath.Abs. rewrite Habs, Hclean. cbn [isAllowedLoop].
    now rewrite Hpre.
  - intros t Ht absPath.
    pose proof (IsAbs_nonempty _ (cleanRooted_IsAbs _ Ht)) as Hne.
    rewrite (validateRepoPath_resolved
               sys _ [root ++ "/"] _ Hne (Abs_cleanRooted_id sys _ Ht)).
    + destruct (os.IsNotExist _); discriminate.
    + cbn [isAllowedLoop].
      replace (HasPrefix (root ++ "/" ++ t) (root ++ "/")) with true;
        [reflexivity|].
      symmetry. apply HasPrefix_spec. exists t. now rewrite append_assoc.
Qed.

Lemma validateRepoPath_trailing_slash_root_witness :
  validateRepoPath oneRepo "/repos" ["/repos" ++ "/"]
  = inr (AccessDenied "/repos")
  /\ forall absPath,
      validateRepoPath oneRepo ("/repos" ++ "/" ++ "a") ["/repos" ++ "/"]
      <> inr (AccessDenied absPath).
Proof.
  destruct (validateRepoPath_trailing_slash_root
              oneRepo "/repos" eq_refl eq_refl) as [Hroot Hbeneath].
  split; [exact Hroot|].
  apply (Hbeneath "a").
  exists ["repos"; "a"]. split; [|reflexivity].
  repeat constructor; discriminate.
Defined.

(** X9.  What is examined of a requested path that passes, where the
    working directory is absolute: [stat] was asked about the entry
    [.git] directly beneath the returned path, and did not answer that
    it is missing. *)
Theorem validateRepoPath_result_has_dot_git :
  forall (sys : os.OS) (requestedPath : string) (allowedPaths : list string)
         (p : string),
    absoluteWd sys -> requestedPath <> "" ->
    validateRepoPath sys requestedPath allowedPaths = inl p ->
    os.IsNotExist
      (os.Stat sys (if String.eqb p "/" then "/.git" else p ++ "/.git"))
    = false.
Proof.
  intros sys req allowed p Hwd Hreq H.
  destruct (validateRepoPath_ok_inv _ _ _ _ Hreq H) as (Habs & _ & S).
  pose proof (Abs_cleanRooted sys req p Hwd Habs) as Hp.
  now rewrite (Join_dot_git p Hp) in S.
Qed.

Lemma validateRepoPath_result_has_dot_git_witness :
  os.IsNotExist (os.Stat oneRepo "/repos/a/.git") = false.
Proof.
  apply (validateRepoPath_result_has_dot_git
           oneRepo "../../repos/a" ["/repos"] "/repos/a").
  - intros wd H. injection H as <-. reflexivity.
  - discriminate.
  - vm_compute. reflexivity.
Defined.

(** ** FilterBody: length and fixed points *)

Lemma length_bytes_app (l1 l2 : list Rune) :
  String.length (bytes (l1 ++ l2)%list)
  = String.length (bytes l1) + String.length (bytes l2).
Proof. now rewrite bytes_app, length_append. Qed.

Lemma length_bytes_wf (l : list Rune) :
  Forall wfRune l -> (List.length l <= String.length (bytes l))%nat.
Proof.
  induction 1 as [|x l Hx _ IH]; simpl; [lia|].
  rewrite length_append. pose proof (wf_nonempty x Hx).
  destruct (raw x); [congruence | simpl; lia].
Qed.

(** Removing matches does not lengthen the text. *)
Lemma replaceAll_empty_length (re : Regexp) (fuel : nat) :
  forall prev inp afterMatch,
    (String.length (replaceAll fuel re "" prev inp afterMatch)
     <= String.length (bytes inp))%nat.
Proof.
  induction fuel as [|fuel IH]; intros prev inp am; [simpl; lia|].
  rewrite replaceAll_step.
  assert (Hstep : (String.length
                     match inp with
                     | [] => ""
                     | x :: inp' =>
                       raw x ++ replaceAll fuel re "" (Some (code x)) inp' false
                     end <= String.length (bytes inp))%nat).
  { destruct inp as [|x inp']; [simpl; lia|].
    cbn [bytes]. rewrite !length_append.
    specialize (IH (Some (code x)) inp' false). lia. }
  destruct (matchAt re prev inp) as [[pv rest]|] eqn:M; [|exact Hstep].
  destruct (List.length rest <? List.length inp)%nat.
  - apply matchAt_sound in M. destruct M as (m & -> & _).
    rewrite length_bytes_app. cbn [append].
    specialize (IH pv rest true). lia.
  - destruct am; exact Hstep.
Qed.

Lemma replaceAll_multipleNewlines_length (fuel : nat) :
  forall prev inp afterMatch,
    Forall wfRune inp ->
    (String.length
       (replaceAll fuel multipleNewlines (LF ++ LF) prev inp afterMatch)
     <= String.length (bytes inp))%nat.
Proof.
  induction fuel as [|fuel IH]; intros prev inp am Hwf; [simpl; lia|].
  rewrite replaceAll_step.
  destruct (matchAt multipleNewlines prev inp) as [[pv rest]|] eqn:M.
  - apply matchAt_multipleNewlines_some in M. destruct M as [M ->].
    pose proof (lfRun_le inp) as Hle.
    replace (List.length (skipn (lfRun inp) inp) <? List.length inp)%nat
      with true by (symmetry; apply Nat.ltb_lt; rewrite length_skipn; lia).
    rewrite <- (firstn_skipn (lfRun inp) inp) in Hwf.
    apply Forall_app in Hwf. destruct Hwf as [Hf Hs].
    specialize (IH pv (skipn (lfRun inp) inp) true Hs).
    assert (E : String.length (bytes inp)
                = String.length (bytes (firstn (lfRun inp) inp))
                  + String.length (bytes (skipn (lfRun inp) inp)))
      by (now rewrite <- length_bytes_app, firstn_skipn).
    pose proof (length_bytes_wf _ Hf) as Hn.
    rewrite length_firstn in Hn. rewrite length_append.
    change (String.length (LF ++ LF)) with 2.
    rewrite Nat.min_l in Hn by exact Hle.
    rewrite E. apply Nat.add_le_mono; [lia | exact IH].
  - destruct inp as [|x inp']; [simpl; lia|].
    inversion Hwf as [|? ? Hx Hwf']; subst. cbn [bytes]. rewrite !length_append.
    specialize (IH (Some (code x)) inp' false Hwf'). lia.
Qed.

Lemma ReplaceAllString_empty_length (re : Regexp) (s : string) :
  (String.length (ReplaceAllString re s "") <= String.length s)%nat.
Proof.
  unfold ReplaceAllString. rewrite <- (bytes_runes s) at 3.
  apply replaceAll_empty_length.
Qed.

Lemma fold_rules_length (filterPatterns : list Regexp) (s : string) :
  (String.length
     (fold_left (fun filtered pattern => ReplaceAllString pattern filtered "")
                filterPatterns s)
   <= String.length s)%nat.
Proof.
  revert s; induction filterPatterns as [|re ps IH]; intros s; simpl; [lia|].
  specialize (IH (ReplaceAllString re s "")).
  pose proof (ReplaceAllString_empty_length re s). lia.
Qed.

Lemma TrimSpace_length (s : string) :
  (String.length (strings.TrimSpace s) <= String.length s)%nat.
Proof.
  destruct (TrimSpace_slice s) as (i & j & ->).
  rewrite length_take, length_drop. lia.
Qed.

(** X10.  [FilterBody] only removes: whatever rules are installed, its
    result is never longer, in bytes, than the body it was given. *)
Theorem FilterBody_never_longer :
  forall (filterPatterns : list Regexp) (x : string),
    (String.length (FilterBody filterPatterns x) <= String.length x)%nat.
Proof.
  intros ps x. unfold FilterBody. destruct (String.eqb x ""); [lia|].
  set (filtered := fold_left _ ps x).
  pose proof (fold_rules_length ps x) as H1. fold filtered in H1.
  pose proof (TrimSpace_length
                (ReplaceAllString multipleNewlines filtered (LF ++ LF))) as H2.
  assert (H3 : (String.length
                  (ReplaceAllString multipleNewlines filtered (LF ++ LF))
                <= String.length filtered)%nat).
  { unfold ReplaceAllString. rewrite <- (bytes_runes filtered) at 3.
    apply replaceAll_multipleNewlines_length. apply runes_wf. }
  lia.
Qed.

(** Where a rule matches nowhere the text is copied. *)
Lemma replaceAll_no_match (re : Regexp) (repl : string) (inp : list Rune) :
  forall prev fuel afterMatch,
    matchFrom re prev inp = false ->
    replaceAll fuel re repl prev inp afterMatch = bytes inp.
Proof.
  induction inp as [|x inp IH]; intros prev fuel am H;
    (destruct fuel as [|fuel]; [reflexivity|]);
    rewrite replaceAll_step; cbn [matchFrom] in H;
    destruct (matchAt re prev _); try discriminate; [reflexivity|].
  cbn [bytes]. now rewrite IH.
Qed.

Lemma ReplaceAllString_no_match (re : Regexp) (s repl : string) :
  MatchString re s = false -> ReplaceAllString re s repl = s.
Proof.
  intros H. unfold ReplaceAllString.
  rewrite replaceAll_no_match by exact H. apply bytes_runes.
Qed.

Lemma Contains_append_l (a s sub : string) :
  Contains s sub -> Contains (a ++ s) sub.
Proof.
  intros (u & v & ->). exists (a ++ u), v. now rewrite append_assoc.
Qed.

(** A match of [\n{3,}] stands on three line-feed bytes. *)
Lemma matchFrom_multipleNewlines_Contains (inp : list Rune) :
  Forall wfRune inp ->
  forall prev,
    matchFrom multipleNewlines prev inp = true ->
    Contains (bytes inp) (LF ++ LF ++ LF).
Proof.
  induction 1 as [|x inp Hx Hwf IH]; intros prev H; cbn [matchFrom] in H.
  - destruct (matchAt multipleNewlines prev []) as [[pv rest]|] eqn:M;
      [|discriminate].
    apply matchAt_multipleNewlines_some in M. simpl in M. lia.
  - destruct (matchAt multipleNewlines prev (x :: inp)) as [[pv rest]|] eqn:M.
    + apply matchAt_multipleNewlines_some in M. destruct M as [M _].
      destruct inp as [|y [|z inp']]; cbn [lfRun] in M;
        repeat match type of M with
               | context [if ?c then _ else _] => destruct c eqn:?
               end; try lia.
      inversion Hwf as [|? ? Hy Hwf']; subst.
      inversion Hwf' as [|? ? Hz _]; subst.
      repeat match goal with
             | H : (_ =? _)%N = true |- _ => apply N.eqb_eq in H
             end.
      exists "", (bytes inp'). cbn [bytes].
      rewrite (wf_lf x Hx), (wf_lf y Hy), (wf_lf z Hz) by assumption.
      reflexivity.
    + apply Contains_append_l. now apply (IH (Some (code x))).
Qed.

Lemma ReplaceAllString_multipleNewlines_id (s : string) :
  ~ Contains s (LF ++ LF ++ LF) ->
  ReplaceAllString multipleNewlines s (LF ++ LF) = s.
Proof.
  intros H. apply ReplaceAllString_no_match.
  destruct (MatchString multipleNewlines s) eqn:E; [|reflexivity].
  exfalso. apply H. rewrite <- (bytes_runes s).
  apply (matchFrom_multipleNewlines_Contains _ (runes_wf s) None E).
Qed.

Lemma TrimSpace_id (s : string) :
  startsWithSpace s = false -> endsWithSpace s = false ->
  strings.TrimSpace s = s.
Proof.
  unfold startsWithSpace, endsWithSpace. intros H1 H2.
  unfold strings.TrimSpace, strings.TrimFunc.
  assert (L : strings.TrimLeftFunc s unicode.IsSpace = s).
  { unfold strings.TrimLeftFunc. destruct s as [|c t]; [reflexivity|].
    cbn [String.length strings.trimLeftLoop].
    destruct (DecodeRuneInString (String c t)) as [r w]. cbn [fst] in H1.
    now rewrite H1. }
  rewrite L. unfold strings.TrimRightFunc. destruct s as [|c t]; [reflexivity|].
  cbn [String.length strings.trimRightLoop].
  destruct (DecodeLastRuneInString (String c t)) as [r w]. cbn [fst] in H2.
  now rewrite H2.
Qed.

Lemma fold_rules_no_match (filterPatterns : list Regexp) (s : string) :
  (forall re, In re filterPatterns -> MatchString re s = false) ->
  fold_left (fun filtered pattern => ReplaceAllString pattern filtered "")
            filterPatterns s = s.
Proof.
  induction filterPatterns as [|re ps IH]; intros H; simpl; [reflexivity|].
  rewrite ReplaceAllString_no_match by (apply H; now left).
  apply IH. intros re' Hin. apply H. now right.
Qed.

Lemma matchesNone_spec (rules : list Regexp) (s : string) :
  matchesNone rules s = true ->
  forall re, In re rules -> MatchString re s = false.
Proof.
  unfold matchesNone. rewrite forallb_forall. intros H re Hin.
  apply negb_true_iff. now apply H.
Qed.

(** A text on which no step of [FilterBody] has anything to do. *)
Lemma FilterBody_fixed (filterPatterns : list Regexp) (x : string) :
  (forall re, In re filterPatterns -> MatchString re x = false) ->
  ~ Contains x (LF ++ LF ++ LF) ->
  startsWithSpace x = false -> endsWithSpace x = false ->
  FilterBody filterPatterns x = x.
Proof.
  intros Hm Hn Hs He. unfold FilterBody.
  destruct (String.eqb x ""); [reflexivity|].
  rewrite fold_rules_no_match by exact Hm.
  rewrite ReplaceAllString_multipleNewlines_id by exact Hn.
  now apply TrimSpace_id.
Qed.

(** X11.  A body that none of the installed rules matches, that has no
    three line feeds in a row and no white space at either end, is
    returned byte for byte. *)
Theorem FilterBody_clean_text_unchanged :
  forall (filterPatterns : list Regexp) (x : string),
    matchesNone filterPatterns x = true ->
    noTripleLF x = true ->
    startsWithSpace x = false -> endsWithSpace x = false ->
    FilterBody filterPatterns x = x.
Proof.
  intros ps x Hm Hn Hs He. apply FilterBody_fixed; try assumption.
  - now apply matchesNone_spec.
  - now apply noTripleLF_not_contains.
Qed.

Lemma FilterBody_clean_text_unchanged_witness :
  FilterBody defaultFilterRegexps twoParagraphs = twoParagraphs.
Proof.
  apply (FilterBody_clean_text_unchanged defaultFilterRegexps twoParagraphs);
    vm_compute; reflexivity.
Defined.

(** X12.  A second pass changes nothing whenever the first pass leaves
    no match of an installed rule behind: the result of [FilterBody]
    already has its line feeds collapsed and its ends trimmed, so only a
    rule can still act on it. *)
Theorem FilterBody_idempotent_when_output_has_no_match :
  forall (filterPatterns : list Regexp) (x : string),
    matchesNone filterPatterns (FilterBody filterPatterns x) = true ->
    FilterBody filterPatterns (FilterBody filterPatterns x)
    = FilterBody filterPatterns x.
Proof.
  intros ps x Hm. apply FilterBody_fixed.
  - now apply matchesNone_spec.
  - unfold FilterBody. destruct (String.eqb x "") eqn:E.
    + apply String.eqb_eq in E. subst x.
      intros (a & b & H). destruct a; discriminate.
    + destruct (TrimSpace_slice
                  (ReplaceAllString multipleNewlines
                     (fold_left (fun filtered pattern =>
                                   ReplaceAllString pattern filtered "") ps x)
                     (LF ++ LF))) as (i & j & ->).
      intros H. apply Contains_take, Contains_drop in H.
      exact (ReplaceAllString_multipleNewlines _ H).
  - unfold FilterBody. destruct (String.eqb x "") eqn:E.
    + apply String.eqb_eq in E. now subst x.
    + apply TrimSpace_no_leading_space.
  - unfold FilterBody. destruct (String.eqb x "") eqn:E.
    + apply String.eqb_eq in E. now subst x.
    + apply TrimSpace_no_trailing_space.
Qed.

Lemma FilterBody_idempotent_when_output_has_no_match_witness :
  FilterBody defaultFilterRegexps
    (FilterBody defaultFilterRegexps otherTrailers)
  = FilterBody defaultFilterRegexps otherTrailers.
Proof.
  apply (FilterBody_idempotent_when_output_has_no_match
           defaultFilterRegexps otherTrailers).
  vm_compute. reflexivity.
Defined.

(** ** FilterBody: the default rules act on their markers only *)

Lemma wfRune_ascii_raw (x : Rune) (c : ascii) :
  wfRune x -> code x = N_of_ascii c -> (N_of_ascii c < 0x80)%N ->
  raw x = String c "".
Proof.
  intros Hx Hc Hlt.
  assert (Hne : code x <> RuneError)
    by (rewrite Hc; intros E; rewrite E in Hlt; vm_compute in Hlt;
        discriminate).
  pose proof (wf_stable x Hx Hne "") as D. rewrite append_nil_r in D.
  assert (Hlt' : (code x < 0x80)%N) by (now rewrite Hc).
  destruct (DecodeRuneInString_ascii_inv _ _ _ D Hlt')
    as (c' & t & E & Hc' & Hw).
  rewrite E in Hw |- *. destruct t; [|discriminate]. f_equal.
  rewrite <- (ascii_N_embedding c'), <- (ascii_N_embedding c). congruence.
Qed.

(** The bytes under a match of an ASCII literal are the literal. *)
Lemma bytes_literal (s : string) :
  Forall (fun c => (N_of_ascii c < 0x80)%N) (list_ascii_of_string s) ->
  forall m, Forall wfRune m ->
            map code m = map N_of_ascii (list_ascii_of_string s) ->
            bytes m = s.
Proof.
  induction s as [|c s IH]; intros Hs m Hm E; cbn in E.
  - destruct m; [reflexivity | discriminate].
  - destruct m as [|x m]; [discriminate|]. injection E as Ex Em.
    inversion Hs as [|? ? Hc Hs']; subst.
    inversion Hm as [|? ? Hx Hm']; subst.
    cbn [bytes]. rewrite (wfRune_ascii_raw x c Hx Ex Hc).
    cbn [append]. f_equal. now apply IH.
Qed.

(** Where [MatchString] holds, a span of the runes is a match. *)
Lemma matchFrom_sound (re : Regexp) (inp : list Rune) :
  forall prev,
    matchFrom re prev inp = true ->
    exists pre m rest, inp = (pre ++ m ++ rest)%list /\ denotes re m.
Proof.
  induction inp as [|x inp IH]; intros prev H; cbn [matchFrom] in H.
  - destruct (matchAt re prev []) as [[pv rest]|] eqn:M; [|discriminate].
    apply matchAt_sound in M. destruct M as (m & E & D).
    exists [], m, rest. auto.
  - destruct (matchAt re prev (x :: inp)) as [[pv rest]|] eqn:M.
    + apply matchAt_sound in M. destruct M as (m & E & D).
      exists [], m, rest. auto.
    + destruct (IH _ H) as (pre & m & rest & -> & D).
      exists (x :: pre), m, rest. auto.
Qed.

Lemma Index_step (s substr : string) :
  strings.Index s substr
  = if HasPrefix s substr then Some 0
    else match s with
         | EmptyString => None
         | String _ s' => option_map S (strings.Index s' substr)
         end.
Proof. destruct s; reflexivity. Qed.

Lemma Contains_bool (s sub : string) :
  Contains s sub -> strings.Contains s sub = true.
Proof.
  intros (a & b & ->). unfold strings.Contains.
  induction a as [|c a IH]; rewrite Index_step.
  - replace (HasPrefix ("" ++ sub ++ b) sub) with true; [reflexivity|].
    symmetry. apply HasPrefix_spec. now exists b.
  - destruct (HasPrefix _ sub); [reflexivity|]. cbn [append].
    destruct (strings.Index (a ++ sub ++ b) sub); [reflexivity|discriminate].
Qed.

(** A text matched by a rule that goes through an ASCII literal holds
    the literal. *)
Lemma literal_in_text (re : Regexp) (lit s : string) :
  Forall (fun c => (N_of_ascii c < 0x80)%N) (list_ascii_of_string lit) ->
  (forall m, denotes re m ->
             exists m1 m2 m3,
               m = (m1 ++ m2 ++ m3)%list /\ denotes (Str lit) m2) ->
  MatchString re s = true -> strings.Contains s lit = true.
Proof.
  intros Hlit Hre H. apply Contains_bool.
  apply matchFrom_sound in H. destruct H as (pre & m & rest & E & D).
  destruct (Hre m D) as (m1 & m2 & m3 & -> & D2).
  pose proof (runes_wf s) as W. rewrite E in W.
  apply Forall_app in W. destruct W as [_ W].
  apply Forall_app in W. destruct W as [W _].
  apply Forall_app in W. destruct W as [_ W].
  apply Forall_app in W. destruct W as [W _].
  exists (bytes pre ++ bytes m1), (bytes m3 ++ bytes rest).
  rewrite <- (bytes_runes s), E, !bytes_app.
  rewrite (bytes_literal lit Hlit m2 W D2).
  now rewrite !append_assoc.
Qed.

Lemma ascii_literal (s : string) :
  forallb (fun c => (N_of_ascii c <? 0x80)%N) (list_ascii_of_string s) = true ->
  Forall (fun c => (N_of_ascii c < 0x80)%N) (list_ascii_of_string s).
Proof.
  rewrite forallb_forall, Forall_forall. intros H c Hc.
  apply N.ltb_lt. now apply H.
Qed.

(** X13.  The default rules act on their markers only, letter for
    letter: a body that holds neither the text [Co-Authored-By:] nor
    three hyphens in a row is matched by neither rule, and [FilterBody]
    does no more to it than collapse its line feeds and trim its
    ends. *)
Theorem FilterBody_default_rules_need_their_marker :
  forall x : string,
    strings.Contains x "Co-Authored-By:" = false ->
    strings.Contains x "---" = false ->
    matchesNone defaultFilterRegexps x = true
    /\ FilterBody defaultFilterRegexps x
       = strings.TrimSpace (ReplaceAllString multipleNewlines x (LF ++ LF)).
Proof.
  intros x H1 H2.
  assert (M1 : MatchString coAuthoredByRe x = false).
  { destruct (MatchString coAuthoredByRe x) eqn:M; [|reflexivity].
    rewrite (literal_in_text coAuthoredByRe "Co-Authored-By:" x) in H1;
      [discriminate | now apply ascii_literal | | exact M].
    intros m (m1 & m' & -> & _ & m2 & m3 & -> & D & _). eauto. }
  assert (M2 : MatchString prFooterRe x = false).
  { destruct (MatchString prFooterRe x) eqn:M; [|reflexivity].
    rewrite (literal_in_text prFooterRe "---" x) in H2;
      [discriminate | now apply ascii_literal | | exact M].
    intros m (m2 & m3 & -> & D & _). exists [], m2, m3. auto. }
  split.
  - unfold matchesNone, defaultFilterRegexps. cbn [forallb].
    now rewrite M1, M2.
  - unfold FilterBody. destruct (String.eqb x "") eqn:E.
    + apply String.eqb_eq in E. now subst x.
    + unfold defaultFilterRegexps. cbn [fold_left].
      rewrite (ReplaceAllString_no_match coAuthoredByRe x "" M1).
      now rewrite (ReplaceAllString_no_match prFooterRe x "" M2).
Qed.

Lemma FilterBody_default_rules_need_their_marker_witness :
  matchesNone defaultFilterRegexps ("co-authored-by: x" ++ LF ++ "-- ")
  = true
  /\ FilterBody defaultFilterRegexps ("co-authored-by: x" ++ LF ++ "-- ")
     = strings.TrimSpace
         (ReplaceAllString multipleNewlines
            ("co-authored-by: x" ++ LF ++ "-- ") (LF ++ LF)).
Proof.
  apply (FilterBody_default_rules_need_their_marker
           ("co-authored-by: x" ++ LF ++ "-- "));
    vm_compute; reflexivity.
Defined.

(** ** FilterBody: the blank-line rule, byte by byte *)

Lemma capLF_noLF (u : string) :
  noLF u = true ->
  forall run t,
    capLF run (u ++ t) = u ++ capLF (if String.eqb u "" then run else 0) t.
Proof.
  induction u as [|c u IH]; intros H run t; [reflexivity|].
  cbn [noLF] in H. apply andb_true_iff in H. destruct H as [Hc Hu].
  apply negb_true_iff in Hc. cbn [append capLF]. rewrite Hc.
  rewrite (IH Hu 0 t). destruct (String.eqb u ""); reflexivity.
Qed.

Lemma capLF_capRunes (inp : list Rune) :
  Forall wfRune inp -> forall run, capLF run (bytes inp) = capRunes run inp.
Proof.
  induction 1 as [|x inp Hx _ IH]; intros run; [reflexivity|].
  cbn [bytes capRunes]. destruct (code x =? 10)%N eqn:E.
  - apply N.eqb_eq in E. rewrite (wf_lf x Hx E).
    change (LF ++ bytes inp) with (String (ascii_of_nat 10) (bytes inp)).
    cbn [capLF]. change (N_of_ascii (ascii_of_nat 10) =? 10)%N with true.
    cbv iota. destruct (run <? 2)%nat; now rewrite IH.
  - apply N.eqb_neq in E. rewrite (capLF_noLF _ (wf_nolf x Hx E)).
    pose proof (wf_nonempty x Hx) as Hne. apply String.eqb_neq in Hne.
    now rewrite Hne, IH.
Qed.

Lemma capRunes_reset (inp : list Rune) (run : nat) :
  lfRun inp = 0%nat -> capRunes run inp = capRunes 0 inp.
Proof.
  destruct inp as [|x inp]; [reflexivity|]. cbn [lfRun capRunes].
  destruct (code x =? 10)%N; [discriminate | reflexivity].
Qed.

Lemma capRunes_skip (inp : list Rune) (run : nat) :
  (2 <= run)%nat -> capRunes run inp = capRunes run (skipn (lfRun inp) inp).
Proof.
  intros Hrun. induction inp as [|x inp IH]; [reflexivity|].
  cbn [lfRun]. destruct (code x =? 10)%N eqn:E; [|reflexivity].
  cbn [skipn capRunes]. rewrite E.
  replace (run <? 2)%nat with false by (symmetry; apply Nat.ltb_ge; lia).
  exact IH.
Qed.

Lemma matchAt_multipleNewlines_run (prev : option N) (inp : list Rune) :
  match matchAt multipleNewlines prev inp with
  | Some (_, rest) => (3 <= lfRun inp)%nat /\ rest = skipn (lfRun inp) inp
  | None => (lfRun inp <= 2)%nat
  end.
Proof.
  destruct (matchAt multipleNewlines prev inp) as [[pv rest]|] eqn:M.
  - now apply matchAt_multipleNewlines_some in M.
  - now apply matchAt_multipleNewlines_none in M.
Qed.

(** The regexp loop over [\n{3,}] keeps at most two line feeds of each
    run and everything else. *)
Lemma replaceAll_multipleNewlines_cap (fuel : nat) :
  forall prev inp afterMatch run,
    (List.length inp < fuel)%nat -> Forall wfRune inp ->
    run = 0%nat \/ (run + lfRun inp <= 2)%nat ->
    replaceAll fuel multipleNewlines (LF ++ LF) prev inp afterMatch
    = capRunes run inp.
Proof.
  induction fuel as [|fuel IH]; intros prev inp am run Hlen Hwf Hrun; [lia|].
  rewrite replaceAll_step.
  pose proof (matchAt_multipleNewlines_run prev inp) as M.
  destruct (matchAt multipleNewlines prev inp) as [[pv rest]|].
  - destruct M as [M ->].
    assert (run = 0%nat) by lia. subst run.
    pose proof (lfRun_le inp) as Hle.
    replace (List.length (skipn (lfRun inp) inp) <? List.length inp)%nat
      with true by (symmetry; apply Nat.ltb_lt; rewrite length_skipn; lia).
    rewrite (IH pv (skipn (lfRun inp) inp) true 0%nat);
      [| rewrite length_skipn; lia
       | rewrite <- (firstn_skipn (lfRun inp) inp) in Hwf;
         apply Forall_app in Hwf; tauto
       | now left].
    destruct inp as [|x1 [|x2 inp2]]; cbn [lfRun] in M; try lia.
    { destruct (code x1 =? 10)%N; cbn in M; lia. }
    inversion Hwf as [|? ? H1 Hwf1]; subst.
    inversion Hwf1 as [|? ? H2 _]; subst.
    cbn [lfRun capRunes] in *.
    destruct (code x1 =? 10)%N eqn:E1; [|lia].
    destruct (code x2 =? 10)%N eqn:E2; [|lia].
    apply N.eqb_eq in E1, E2. cbn [skipn Nat.ltb Nat.leb].
    rewrite (wf_lf x1 H1 E1), (wf_lf x2 H2 E2).
    rewrite (capRunes_skip inp2 2) by lia.
    rewrite (capRunes_reset _ 2 (lfRun_skipn inp2)).
    now rewrite append_assoc.
  - destruct inp as [|x inp']; [reflexivity|].
    inversion Hwf as [|? ? Hx Hwf']; subst.
    cbn [List.length] in Hlen. cbn [lfRun capRunes] in *.
    destruct (code x =? 10)%N.
    + replace (run <? 2)%nat with true by (symmetry; apply Nat.ltb_lt; lia).
      f_equal. apply IH; [lia | exact Hwf' | right; lia].
    + f_equal. apply IH; [lia | exact Hwf' | now left].
Qed.

Lemma ReplaceAllString_multipleNewlines_cap (s : string) :
  ReplaceAllString multipleNewlines s (LF ++ LF) = capLF 0 s.
Proof.
  unfold ReplaceAllString.
  rewrite (replaceAll_multipleNewlines_cap _ None (runes s) false 0%nat);
    [| lia | apply runes_wf | now left].
  rewrite <- (capLF_capRunes _ (runes_wf s)). now rewrite bytes_runes.
Qed.

(** X14.  The blank-line step of [FilterBody] is a function of the bytes:
    behind the rules, every run of line feeds is cut down to two and no
    other byte is touched (valid UTF-8 or not), and the result is
    trimmed. *)
Theorem FilterBody_caps_line_feed_runs :
  forall (filterPatterns : list Regexp) (body : string),
    FilterBody filterPatterns body
    = strings.TrimSpace
        (capLF 0
           (fold_left
              (fun filtered pattern => ReplaceAllString pattern filtered "")
              filterPatterns body)).
Proof.
  intros ps body. unfold FilterBody.
  destruct (String.eqb body "") eqn:E.
  - apply String.eqb_eq in E. subst body.
    assert (H : fold_left
                  (fun filtered pattern => ReplaceAllString pattern filtered "")
                  ps "" = "").
    { pose proof (fold_rules_length ps "") as L.
      destruct (fold_left _ ps ""); [reflexivity | simpl in L; lia]. }
    rewrite H. reflexivity.
  - now rewrite ReplaceAllString_multipleNewlines_cap.
Qed.

(** ** FilterBody: a co-author line between other trailers *)

















(** ** strings.Split on a one-byte separator, and the files of GitAdd *)

Lemma HasPrefix_byte (c : ascii) (s : string) :
  HasPrefix s (String c "")
  = match s with
    | EmptyString => false
    | String d _ => Ascii.eqb d c
    end.
Proof.
  destruct s as [|d t]; [reflexivity|].
  unfold HasPrefix. cbn. destruct (Ascii.eqb d c); reflexivity.
Qed.

Lemma Index_byte (c : ascii) (s : string) :
  strings.Index s (String c "") = indexByte c s.
Proof.
  induction s as [|d t IH]; cbn [strings.Index indexByte];
    rewrite HasPrefix_byte; [reflexivity|].
  destruct (Ascii.eqb d c); [reflexivity | now rewrite IH].
Qed.

Lemma indexByte_None (c : ascii) (s : string) :
  indexByte c s = None <-> lacks c s = true.
Proof.
  induction s as [|d t IH]; simpl; [tauto|].
  destruct (Ascii.eqb d c); simpl; [split; discriminate|].
  rewrite <- IH. destruct (indexByte c t); simpl; split; congruence.
Qed.

Lemma Contains_byte (c : ascii) (s : string) :
  strings.Contains s (String c "") = negb (lacks c s).
Proof.
  unfold strings.Contains. rewrite Index_byte.
  destruct (indexByte c s) eqn:E.
  - destruct (lacks c s) eqn:L; [|reflexivity].
    apply indexByte_None in L. congruence.
  - apply indexByte_None in E. now rewrite E.
Qed.

Lemma pieces_lacks (c : ascii) (s : string) :
  lacks c s = true -> forall cur, pieces c s cur = [cur ++ s].
Proof.
  induction s as [|d t IH]; intros H cur; simpl in *.
  - now rewrite append_nil_r.
  - apply andb_true_iff in H. destruct H as [Hd Ht].
    apply negb_true_iff in Hd. rewrite Hd, IH by exact Ht.
    now rewrite append_assoc.
Qed.

Lemma pieces_indexByte (c : ascii) (s : string) :
  forall m cur,
    indexByte c s = Some m ->
    (m < String.length s)%nat
    /\ pieces c s cur = (cur ++ take m s) :: pieces c (drop (m + 1) s) "".
Proof.
  induction s as [|d t IH]; intros m cur H; simpl in H; [discriminate|].
  cbn [pieces]. destruct (Ascii.eqb d c) eqn:E.
  - injection H as <-. simpl. rewrite append_nil_r. split; [lia | reflexivity].
  - destruct (indexByte c t) as [m'|] eqn:I; [|discriminate].
    injection H as <-.
    destruct (IH m' (cur ++ String d "") eq_refl) as [Hlt ->].
    simpl. rewrite append_assoc. split; [lia | reflexivity].
Qed.

Lemma splitLoop_pieces (c : ascii) (fuel : nat) :
  forall s, (String.length s <= fuel)%nat ->
            strings.splitLoop fuel s (String c "") = pieces c s "".
Proof.
  induction fuel as [|fuel IH]; intros s Hlen.
  - destruct s; [reflexivity | simpl in Hlen; lia].
  - cbn [strings.splitLoop]. rewrite Index_byte.
    destruct (indexByte c s) as [m|] eqn:I.
    + destruct (pieces_indexByte c s m "" I) as [Hm ->].
      change (String.length (String c "")) with 1.
      rewrite IH; [reflexivity|].
      rewrite length_drop. lia.
    + apply indexByte_None in I. now rewrite pieces_lacks.
Qed.

(** [Split] on a one-byte separator cuts at every such byte. *)
Lemma Split_byte (c : ascii) (s : string) :
  strings.Split s (String c "") = pieces c s "".
Proof. unfold strings.Split. cbn [String.eqb]. now apply splitLoop_pieces. Qed.

Lemma length_pieces (c : ascii) (s : string) :
  forall cur, List.length (pieces c s cur) = S (countByte c s).
Proof.
  induction s as [|d t IH]; intros cur; simpl; [reflexivity|].
  destruct (Ascii.eqb d c); simpl; now rewrite IH.
Qed.

Lemma countByte_lacks (c : ascii) (s : string) :
  (0 <? countByte c s)%nat = negb (lacks c s).
Proof.
  induction s as [|d t IH]; simpl; [reflexivity|].
  destruct (Ascii.eqb d c); simpl; [reflexivity | exact IH].
Qed.

Lemma lacks_append (c : ascii) (a b : string) :
  lacks c (a ++ b) = lacks c a && lacks c b.
Proof.
  induction a as [|d a IH]; simpl; [reflexivity|].
  now rewrite IH, andb_assoc.
Qed.

Lemma pieces_Forall_lacks (c : ascii) (s : string) :
  forall cur, lacks c cur = true ->
              Forall (fun p => lacks c p = true) (pieces c s cur).
Proof.
  induction s as [|d t IH]; intros cur Hcur; simpl.
  - now constructor.
  - destruct (Ascii.eqb d c) eqn:E.
    + constructor; [exact Hcur | now apply IH].
    + apply IH. rewrite lacks_append, Hcur. simpl. now rewrite E.
Qed.

Lemma concat_pieces (c : ascii) (s : string) :
  forall cur, String.concat (String c "") (pieces c s cur) = cur ++ s.
Proof.
  induction s as [|d t IH]; intros cur; simpl.
  - now rewrite append_nil_r.
  - destruct (Ascii.eqb d c) eqn:E.
    + apply Ascii.eqb_eq in E. subst d.
      specialize (IH ""). simpl in IH.
      destruct (pieces c t "") as [|p ps] eqn:P.
      * pose proof (length_pieces c t "") as L. rewrite P in L. discriminate.
      * cbn [String.concat]. cbn [String.concat] in IH. now rewrite IH.
    + rewrite IH. now rewrite append_assoc.
Qed.

Lemma pieces_append (c : ascii) (e rest : string) :
  lacks c e = true ->
  forall cur, pieces c (e ++ rest) cur = pieces c rest (cur ++ e).
Proof.
  induction e as [|d e IH]; intros H cur; simpl.
  - now rewrite append_nil_r.
  - simpl in H. apply andb_true_iff in H. destruct H as [Hd He].
    apply negb_true_iff in Hd. rewrite Hd, IH by exact He.
    now rewrite append_assoc.
Qed.

(** The pieces of a list joined by [c] are the list. *)
Lemma pieces_concat (c : ascii) (ps : list string) :
  Forall (fun p => lacks c p = true) ps ->
  forall cur,
    pieces c (String.concat (String c "") ps) cur
    = match ps with
      | [] => [cur]
      | p :: ps' => (cur ++ p) :: ps'
      end.
Proof.
  induction 1 as [|p ps Hp Hps IH]; intros cur; [reflexivity|].
  destruct ps as [|p2 ps].
  - simpl. rewrite <- (append_nil_r p) at 1.
    now rewrite pieces_append.
  - change (String.concat (String c "") (p :: p2 :: ps))
      with (p ++ String c (String.concat (String c "") (p2 :: ps))).
    rewrite pieces_append by exact Hp.
    cbn [pieces]. rewrite Ascii.eqb_refl. now rewrite IH.
Qed.

Lemma parseFiles_pieces (filesStr : string) :
  parseFiles filesStr
  = if negb (lacks "," filesStr)
    then map strings.TrimSpace (pieces "," filesStr "")
    else if negb (lacks " " filesStr)
         then map strings.TrimSpace (pieces " " filesStr "")
         else [filesStr].
Proof.
  unfold parseFiles. now rewrite !Contains_byte, !Split_byte.
Qed.

Lemma lacks_concat (c d : ascii) (ps : list string) :
  Forall (fun p => lacks c p = true) ps -> c <> d ->
  lacks c (String.concat (String d "") ps) = true.
Proof.
  intros H Hcd. induction H as [|p ps Hp Hps IH]; [reflexivity|].
  destruct ps as [|p2 ps]; [exact Hp|].
  change (String.concat (String d "") (p :: p2 :: ps))
    with (p ++ String d (String.concat (String d "") (p2 :: ps))).
  rewrite lacks_append, Hp. cbn [lacks andb].
  rewrite IH. apply Ascii.eqb_neq in Hcd. rewrite Ascii.eqb_sym in Hcd.
  now rewrite Hcd.
Qed.

Lemma Forall_trimmed_TrimSpace (ps : list string) :
  Forall trimmed (map strings.TrimSpace ps).
Proof.
  induction ps as [|p ps IH]; constructor; [|exact IH].
  split; [apply TrimSpace_no_leading_space | apply TrimSpace_no_trailing_space].
Qed.

(** X15.  [GitAdd] always hands git at least one file name: one more
    than the commas of the [files] string when it holds a comma, and
    otherwise one more than its blanks. *)
Theorem parseFiles_count :
  forall filesStr : string,
    List.length (parseFiles filesStr)
    = S (if (0 <? countByte "," filesStr)%nat
         then countByte "," filesStr
         else countByte " " filesStr).
Proof.
  intros s. rewrite parseFiles_pieces, countByte_lacks.
  destruct (lacks "," s); cbn [negb].
  - pose proof (countByte_lacks " " s) as H.
    destruct (lacks " " s); cbn [negb] in *.
    + apply Nat.ltb_ge in H. simpl. lia.
    + now rewrite length_map, length_pieces.
  - now rewrite length_map, length_pieces.
Qed.

(** X16.  When the [files] string holds a separator, the names handed
    to git are the pieces between the separators (commas if there is
    one, blanks otherwise), each trimmed of the white space at its ends:
    the pieces hold no separator and, joined by it, give the string
    back. *)
Theorem parseFiles_separated :
  forall filesStr : string,
    strings.Contains filesStr "," = true
    \/ strings.Contains filesStr " " = true ->
    exists (c : ascii) (ps : list string),
      c = (if strings.Contains filesStr "," then "," else " ")%char
      /\ String.concat (String c "") ps = filesStr
      /\ Forall (fun p => lacks c p = true) ps
      /\ parseFiles filesStr = map strings.TrimSpace ps
      /\ Forall trimmed (parseFiles filesStr).
Proof.
  intros s H. rewrite parseFiles_pieces. rewrite !Contains_byte in *.
  destruct (lacks "," s) eqn:L1; cbn [negb] in *.
  - destruct H as [H|H]; [discriminate|]. rewrite H.
    exists " "%char, (pieces " " s ""). split; [reflexivity|].
    split; [apply (concat_pieces " " s "")|].
    split; [now apply pieces_Forall_lacks|].
    split; [reflexivity | apply Forall_trimmed_TrimSpace].
  - exists ","%char, (pieces "," s ""). split; [reflexivity|].
    split; [apply (concat_pieces "," s "")|].
    split; [now apply pieces_Forall_lacks|].
    split; [reflexivity | apply Forall_trimmed_TrimSpace].
Qed.

Lemma parseFiles_separated_witness :
  exists (c : ascii) (ps : list string),
    c = (if strings.Contains "a.txt, b c.txt" "," then "," else " ")%char
    /\ String.concat (String c "") ps = "a.txt, b c.txt"
    /\ Forall (fun p => lacks c p = true) ps
    /\ parseFiles "a.txt, b c.txt" = map strings.TrimSpace ps
    /\ Forall trimmed (parseFiles "a.txt, b c.txt").
Proof.
  apply (parseFiles_separated "a.txt, b c.txt").
  left. vm_compute. reflexivity.
Defined.

(** X17.  No name is refused: when a piece between two separators is
    empty or holds white space only (a doubled comma, a comma at either
    end, two blanks in a row), the list handed to git holds the empty
    name. *)
Theorem parseFiles_blank_piece :
  forall (c : ascii) (ps : list string) (w : string),
    c = ","%char
    \/ (c = " "%char /\ Forall (fun p => lacks "," p = true) ps) ->
    (2 <= List.length ps)%nat ->
    Forall (fun p => lacks c p = true) ps ->
    In w ps -> blank w ->
    In "" (parseFiles (String.concat (String c "") ps)).
Proof.
  intros c ps w Hc Hlen Hps Hin Hw.
  pose proof (pieces_concat c ps Hps "") as P.
  destruct ps as [|p ps']; [simpl in Hlen; lia|].
  change ("" ++ p) with p in P.
  assert (Hsep : lacks c (String.concat (String c "") (p :: ps')) = false).
  { pose proof (length_pieces c (String.concat (String c "") (p :: ps')) "")
      as L.
    rewrite P in L.
    pose proof (countByte_lacks c (String.concat (String c "") (p :: ps')))
      as E.
    destruct (lacks c _); [|reflexivity].
    apply Nat.ltb_ge in E. cbn [List.length negb] in Hlen, L, E. lia. }
  assert (Hblank : In "" (map strings.TrimSpace (p :: ps'))).
  { rewrite <- (TrimSpace_whitespaceOnly w Hw). now apply in_map. }
  rewrite parseFiles_pieces.
  destruct Hc as [-> | [-> Hcomma]].
  - rewrite Hsep. cbn [negb]. now rewrite P.
  - rewrite (lacks_concat "," " " _ Hcomma) by discriminate. cbn [negb].
    rewrite Hsep. cbn [negb]. now rewrite P.
Qed.

Lemma parseFiles_blank_piece_witness :
  In "" (parseFiles (String.concat "," ["a.txt"; " "; "b.txt"])).
Proof.
  apply (parseFiles_blank_piece "," ["a.txt"; " "; "b.txt"] " ").
  - left. reflexivity.
  - simpl. lia.
  - repeat constructor.
  - right. left. reflexivity.
  - unfold blank, whitespaceOnly. vm_compute. repeat constructor.
Defined.

(** ** The tools: what a handler does before and when it calls git *)

Section ToolFacts.

Variable float64 : Type.
Variable int : float64 -> Z.
Variable sys : os.OS.
Variable errorText : os.Errno -> string.
Variable Unmarshal : string -> Args float64 + string.

(** Take a tool of [AllGitTools] apart: one goal for each handler. *)
Ltac each_tool H :=
  unfold AllGitTools in H; cbn [In] in H;
  repeat (destruct H as [H|H]; [injection H as <- <- |]);
  [ .. | contradiction ].

(** Unfold the handler at hand. *)
Ltac open_tool :=
  cbv beta delta [GitStatus GitDiffUnstaged GitDiffStaged GitDiff GitCommit
                  GitAdd GitReset GitLog GitCreateBranch GitCheckout GitShow
                  GitInit GitPush GitPull GitListRepositories
                  GitApplyPatchString GitApplyPatchFile].

Ltac open_tool_in H :=
  cbv beta delta [GitStatus GitDiffUnstaged GitDiffStaged GitDiff GitCommit
                  GitAdd GitReset GitLog GitCreateBranch GitCheckout GitShow
                  GitInit GitPush GitPull GitListRepositories
                  GitApplyPatchString GitApplyPatchFile] in H.

(** Decide the [match]es of a handler, in the goal or in [H]. *)
Ltac crack :=
  repeat (cbv beta iota zeta;
          match goal with
          | |- context [match ?x with _ => _ end] => destruct x eqn:?
          end).

Ltac crack_in H :=
  repeat (cbv beta iota zeta in H;
          match type of H with
          | context [match ?x with _ => _ end] => destruct x eqn:?
          end).

Lemma validateRepoPath_has_prefix (requestedPath p : string)
      (allowedPaths : list string) :
  allowedPaths <> [] ->
  validateRepoPath sys requestedPath allowedPaths = inl p ->
  exists root, In root allowedPaths /\ HasPrefix p root = true.
Proof.
  intros Hne H.
  destruct (string_dec requestedPath "") as [-> | Hreq].
  - destruct allowedPaths as [|first rest]; [congruence|].
    simpl in H. injection H as <-. exists first.
    split; [now left|]. apply HasPrefix_spec. exists "".
    now rewrite append_nil_r.
  - destruct (validateRepoPath_ok_inv _ _ _ _ Hreq H) as (_ & G & _).
    assert (Hlen : (0 <? List.length allowedPaths)%nat = true)
      by (destruct allowedPaths; [congruence | reflexivity]).
    rewrite Hlen, andb_true_r in G. apply negb_false_iff in G.
    now apply isAllowedLoop_true in G.
Qed.

(** X18.  Arguments that cannot be decoded stop every tool that reads
    them: the result is the error of the decoder, and no git operation
    is called. *)
Theorem tools_reject_undecodable_arguments :
  forall (name : string)
         (handler : GitToolDependencies -> CallToolRequest -> Outcome)
         (deps : GitToolDependencies) (request : CallToolRequest)
         (err : string),
    In (name, handler) (AllGitTools float64 int sys errorText Unmarshal) ->
    name <> "git_list_repositories" ->
    Unmarshal (ParamsArguments request) = inr err ->
    handler deps request
    = mkOutcome (NewToolResultError ("Failed to parse arguments: " ++ err)) [].
Proof.
  intros name handler deps request err Hin Hname Hu.
  each_tool Hin; try congruence;
    open_tool; now rewrite Hu.
Qed.

(** X19.  The repository path is settled first: when [validateRepoPath]
    refuses the path of the request, every tool but [git_init] and
    [git_list_repositories] answers with that error, whatever its other
    arguments are, and calls no git operation. *)
Theorem tools_report_path_error_first :
  forall (name : string)
         (handler : GitToolDependencies -> CallToolRequest -> Outcome)
         (deps : GitToolDependencies) (request : CallToolRequest)
         (args : Args float64) (err : PathError),
    In (name, handler) (AllGitTools float64 int sys errorText Unmarshal) ->
    name <> "git_init" -> name <> "git_list_repositories" ->
    Unmarshal (ParamsArguments request) = inl args ->
    validateRepoPath sys (requestedPathOf args) (GetRepoPaths deps)
    = inr err ->
    handler deps request
    = mkOutcome
        (NewToolResultError ("Repository path error: " ++ Error errorText err))
        [].
Proof.
  intros name handler deps request args err Hin Hn1 Hn2 Hu Hv.
  each_tool Hin; try congruence;
    open_tool; rewrite Hu; cbv beta iota zeta; now rewrite Hv.
Qed.

(** Whatever a tool other than [GitInit] calls, it calls in the
    directory [validateRepoPath] returned for the request. *)
Lemma tool_calls_validated
      (name : string)
      (handler : GitToolDependencies -> CallToolRequest -> Outcome)
      (deps : GitToolDependencies) (request : CallToolRequest) (c : Call) :
  In (name, handler) (AllGitTools float64 int sys errorText Unmarshal) ->
  name <> "git_init" ->
  In c (calls (handler deps request)) ->
  exists args,
    Unmarshal (ParamsArguments request) = inl args
    /\ validateRepoPath sys (requestedPathOf args) (GetRepoPaths deps)
       = inl (repoPathOf c).
Proof.
  intros Hin Hname Hc.
  each_tool Hin; try congruence;
    open_tool_in Hc;
    crack_in Hc; cbn in Hc;
    try contradiction;
    destruct Hc as [<- | []]; eexists; split; eauto.
Qed.

(** X20.  Git runs where the path was validated: whatever a tool other
    than [git_init] calls, it calls in the directory [validateRepoPath]
    returned for the request, and where allowed paths are configured
    that directory begins with one of them. *)
Theorem tools_call_git_in_validated_path :
  forall (name : string)
         (handler : GitToolDependencies -> CallToolRequest -> Outcome)
         (deps : GitToolDependencies) (request : CallToolRequest)
         (c : Call),
    In (name, handler) (AllGitTools float64 int sys errorText Unmarshal) ->
    name <> "git_init" ->
    In c (calls (handler deps request)) ->
    (exists args,
        Unmarshal (ParamsArguments request) = inl args
        /\ validateRepoPath sys (requestedPathOf args) (GetRepoPaths deps)
           = inl (repoPathOf c))
    /\ (GetRepoPaths deps <> [] ->
        exists root,
          In root (GetRepoPaths deps) /\ HasPrefix (repoPathOf c) root = true).
Proof.
  intros name handler deps request c Hin Hname Hc.
  pose proof (tool_calls_validated name handler deps request c Hin Hname Hc)
    as H.
  split; [exact H|].
  intros Hne. destruct H as (args & _ & Hv).
  exact (validateRepoPath_has_prefix _ _ _ Hne Hv).
Qed.

(** X21.  A request costs at most one git operation, and a tool that
    calls git answers with text only after its call. *)
Theorem tools_call_git_at_most_once :
  forall (name : string)
         (handler : GitToolDependencies -> CallToolRequest -> Outcome)
         (deps : GitToolDependencies) (request : CallToolRequest),
    In (name, handler) (AllGitTools float64 int sys errorText Unmarshal) ->
    (List.length (calls (handler deps request)) <= 1)%nat
    /\ (name <> "git_list_repositories" ->
        forall text,
          result (handler deps request) = NewToolResultText text ->
          List.length (calls (handler deps request)) = 1%nat).
Proof.
  intros name handler deps request Hin.
  each_tool Hin;
    (split; [|intros Hname text]);
    try congruence;
    open_tool;
    crack; cbn; try lia; try discriminate; try reflexivity.
Qed.

(** X22.  A [repo_path] that is not a string is no error: it is taken
    as absent.  Where repositories are configured, no tool but
    [git_init] then answers with a repository path error, whatever it
    calls it calls in the first configured repository, and the tools
    that need no other argument do call git there. *)
Theorem tools_take_mistyped_repo_path_as_absent :
  forall (name : string)
         (handler : GitToolDependencies -> CallToolRequest -> Outcome)
         (deps : GitToolDependencies) (request : CallToolRequest)
         (args : Args float64) (v : Value float64)
         (first : string) (rest : list string),
    In (name, handler) (AllGitTools float64 int sys errorText Unmarshal) ->
    name <> "git_init" ->
    Unmarshal (ParamsArguments request) = inl args ->
    args "repo_path" = Some v -> asString (Some v) = None ->
    GetRepoPaths deps = first :: rest ->
    (forall err,
        result (handler deps request)
        <> NewToolResultError
             ("Repository path error: " ++ Error errorText err))
    /\ (forall c, In c (calls (handler deps request)) -> repoPathOf c = first)
    /\ (In name ["git_status"; "git_diff_unstaged"; "git_diff_staged";
                 "git_reset"; "git_log"; "git_push"; "git_pull"] ->
        exists c,
          calls (handler deps request) = [c] /\ repoPathOf c = first).
Proof.
  intros name handler deps request args v first rest
         Hin Hname Hu Hv Hs Hpaths.
  assert (Hval : validateRepoPath sys (requestedPathOf args)
                                  (GetRepoPaths deps) = inl first).
  { unfold requestedPathOf. now rewrite Hv, Hs, Hpaths. }
  split; [|split].
  - intros err.
    each_tool Hin; try congruence; open_tool;
      try (rewrite Hu; cbv beta iota zeta; rewrite Hval);
      crack; cbn; intros E; discriminate E.
  - intros c Hc.
    destruct (tool_calls_validated name handler deps request c Hin Hname Hc)
      as (args' & Hu' & Hval').
    rewrite Hu in Hu'. injection Hu' as <-. congruence.
  - intros Hn.
    each_tool Hin;
      cbn [In] in Hn;
      try (exfalso;
           repeat (destruct Hn as [Hn|Hn]; [discriminate Hn|]);
           exact Hn);
      open_tool; rewrite Hu; cbv beta iota zeta; rewrite Hval;
      crack; cbn; eexists; split; reflexivity.
Qed.

Lemma validateRepoPath_denied_inv (requestedPath absPath : string)
      (allowedPaths : list string) :
  validateRepoPath sys requestedPath allowedPaths = inr (AccessDenied absPath)
  -> requestedPath <> "" /\ filepath.Abs sys requestedPath = inl absPath.
Proof.
  unfold validateRepoPath.
  destruct (String.eqb requestedPath "") eqn:E.
  - destruct allowedPaths; discriminate.
  - apply String.eqb_neq in E.
    destruct (filepath.Abs sys requestedPath) as [p|err]; [|discriminate].
    destruct (_ && _); [|destruct (os.IsNotExist _); discriminate].
    intros H. injection H as <-. auto.
Qed.

(** X23.  [git_init] does not ask [validateRepoPath]: a path that every
    other tool refuses as outside the allowed repositories is resolved
    and handed to [InitRepo]. *)
Theorem GitInit_runs_outside_allowed_paths :
  forall (deps : GitToolDependencies) (request : CallToolRequest)
         (args : Args float64) (requestedPath absPath : string),
    Unmarshal (ParamsArguments request) = inl args ->
    asString (args "repo_path") = Some requestedPath ->
    validateRepoPath sys requestedPath (GetRepoPaths deps)
    = inr (AccessDenied absPath) ->
    calls (GitInit float64 sys errorText Unmarshal deps request)
    = [InitRepoCall absPath].
Proof.
  intros deps request args req absPath Hu Hs Hv.
  destruct (validateRepoPath_denied_inv _ _ _ Hv) as [Hne Habs].
  unfold GitInit. rewrite Hu, Hs.
  apply String.eqb_neq in Hne. rewrite Hne, Habs.
  destruct (InitRepo _ _); reflexivity.
Qed.

(** X24.  A patch that is empty or white space only is refused before
    git is called, as a string and as a file name alike. *)
Theorem patch_tools_reject_blank_patch :
  forall (deps : GitToolDependencies) (request : CallToolRequest)
         (args : Args float64) (repoPath : string),
    Unmarshal (ParamsArguments request) = inl args ->
    validateRepoPath sys (requestedPathOf args) (GetRepoPaths deps)
    = inl repoPath ->
    (forall patchString,
        asString (args "patch_string") = Some patchString ->
        blank patchString ->
        GitApplyPatchString float64 sys errorText Unmarshal deps request
        = mkOutcome (NewToolResultError "patch_string cannot be empty") [])
    /\ (forall patchFile,
           asString (args "patch_file") = Some patchFile ->
           blank patchFile ->
           GitApplyPatchFile float64 sys errorText Unmarshal deps request
           = mkOutcome (NewToolResultError "patch_file cannot be empty") []).
Proof.
  intros deps request args repoPath Hu Hv. split.
  - intros patch Hs Hb. unfold GitApplyPatchString.
    rewrite Hu. cbv beta iota zeta. rewrite Hv, Hs.
    now rewrite (TrimSpace_whitespaceOnly patch Hb).
  - intros patch Hs Hb. unfold GitApplyPatchFile.
    rewrite Hu. cbv beta iota zeta. rewrite Hv, Hs.
    now rewrite (TrimSpace_whitespaceOnly patch Hb).
Qed.

(** X25.  The patch file is looked up, not validated: a file that
    exists is handed to git even where [validateRepoPath] refuses its
    path as outside the allowed repositories. *)
Theorem GitApplyPatchFile_reads_outside_allowed_paths :
  forall (deps : GitToolDependencies) (request : CallToolRequest)
         (args : Args float64) (repoPath patchFile absPath : string),
    Unmarshal (ParamsArguments request) = inl args ->
    validateRepoPath sys (requestedPathOf args) (GetRepoPaths deps)
    = inl repoPath ->
    asString (args "patch_file") = Some patchFile ->
    strings.TrimSpace patchFile <> "" ->
    validateRepoPath sys patchFile (GetRepoPaths deps)
    = inr (AccessDenied absPath) ->
    os.IsNotExist (os.Stat sys absPath) = false ->
    calls (GitApplyPatchFile float64 sys errorText Unmarshal deps request)
    = [ApplyPatchFromFileCall repoPath absPath].
Proof.
  intros deps request args repoPath patchFile absPath Hu Hv Hs Ht Hd Hst.
  destruct (validateRepoPath_denied_inv _ _ _ Hd) as [_ Habs].
  unfold GitApplyPatchFile. rewrite Hu. cbv beta iota zeta.
  rewrite Hv, Hs. apply String.eqb_neq in Ht. rewrite Ht, Habs, Hst.
  destruct (ApplyPatchFromFile _ _ _); reflexivity.
Qed.

End ToolFacts.

Lemma tools_reject_undecodable_arguments_witness :
  GitCommit Z oneRepo errnoText rejects reposDeps aRequest
  = mkOutcome
      (NewToolResultError
         ("Failed to parse arguments: " ++ "unexpected end of JSON input"))
      [].
Proof.
  apply (tools_reject_undecodable_arguments
           Z (fun f => f) oneRepo errnoText rejects "git_commit").
  - do 4 right. left. reflexivity.
  - discriminate.
  - reflexivity.
Defined.

Lemma tools_report_path_error_first_witness :
  GitCommit Z oneRepo errnoText (decodesTo [("repo_path", "/etc")])
            reposDeps aRequest
  = mkOutcome
      (NewToolResultError
         ("Repository path error: "
          ++ Error errnoText (AccessDenied "/etc")))
      [].
Proof.
  apply (tools_report_path_error_first
           Z (fun f => f) oneRepo errnoText
           (decodesTo [("repo_path", "/etc")]) "git_commit"
           _ reposDeps aRequest (stringArgs [("repo_path", "/etc")])).
  - do 4 right. left. reflexivity.
  - discriminate.
  - discriminate.
  - reflexivity.
  - vm_compute. reflexivity.
Defined.

Lemma tools_call_git_in_validated_path_witness :
  (exists args,
      decodesTo [("repo_path", "/repos/a/")] (ParamsArguments aRequest)
      = inl args
      /\ validateRepoPath oneRepo (requestedPathOf args)
                          (GetRepoPaths reposDeps)
         = inl (repoPathOf (GetStatusCall "/repos/a")))
  /\ (GetRepoPaths reposDeps <> [] ->
      exists root,
        In root (GetRepoPaths reposDeps)
        /\ HasPrefix (repoPathOf (GetStatusCall "/repos/a")) root = true).
Proof.
  apply (tools_call_git_in_validated_path
           Z (fun f => f) oneRepo errnoText
           (decodesTo [("repo_path", "/repos/a/")]) "git_status"
           (GitStatus Z oneRepo errnoText
                      (decodesTo [("repo_path", "/repos/a/")]))).
  - left. reflexivity.
  - discriminate.
  - vm_compute. left. reflexivity.
Defined.

Lemma tools_call_git_at_most_once_witness :
  (List.length
     (calls (GitLog Z (fun f => f) oneRepo errnoText
                    (decodesTo [("repo_path", "/repos/a")])
                    reposDeps aRequest)) <= 1)%nat
  /\ ("git_log" <> "git_list_repositories" ->
      forall text,
        result (GitLog Z (fun f => f) oneRepo errnoText
                       (decodesTo [("repo_path", "/repos/a")])
                       reposDeps aRequest)
        = NewToolResultText text ->
        List.length
          (calls (GitLog Z (fun f => f) oneRepo errnoText
                         (decodesTo [("repo_path", "/repos/a")])
                         reposDeps aRequest)) = 1%nat).
Proof.
  apply (tools_call_git_at_most_once
           Z (fun f => f) oneRepo errnoText
           (decodesTo [("repo_path", "/repos/a")]) "git_log").
  do 7 right. left. reflexivity.
Defined.

Lemma tools_take_mistyped_repo_path_as_absent_witness :
  exists c,
    calls (GitDiffStaged Z oneRepo errnoText (fun _ => inl numberAsPath)
                         reposDeps aRequest)
    = [c]
    /\ repoPathOf c = "/repos".
Proof.
  apply (tools_take_mistyped_repo_path_as_absent
           Z (fun f => f) oneRepo errnoText (fun _ => inl numberAsPath)
           "git_diff_staged"
           (GitDiffStaged Z oneRepo errnoText (fun _ => inl numberAsPath))
           reposDeps aRequest numberAsPath (VFloat64 42%Z) "/repos" []).
  - do 2 right. left. reflexivity.
  - discriminate.
  - reflexivity.
  - reflexivity.
  - reflexivity.
  - reflexivity.
  - do 2 right. left. reflexivity.
Defined.

Lemma GitInit_runs_outside_allowed_paths_witness :
  calls (GitInit Z oneRepo errnoText
                 (decodesTo [("repo_path", "/etc/cron.d")])
                 reposDeps aRequest)
  = [InitRepoCall "/etc/cron.d"].
Proof.
  apply (GitInit_runs_outside_allowed_paths
           Z oneRepo errnoText (decodesTo [("repo_path", "/etc/cron.d")])
           reposDeps aRequest (stringArgs [("repo_path", "/etc/cron.d")])
           "/etc/cron.d").
  - reflexivity.
  - reflexivity.
  - vm_compute. reflexivity.
Defined.

Lemma patch_tools_reject_blank_patch_witness :
  GitApplyPatchString
    Z oneRepo errnoText
    (decodesTo [("repo_path", "/repos/a"); ("patch_string", " ")])
    reposDeps aRequest
  = mkOutcome (NewToolResultError "patch_string cannot be empty") [].
Proof.
  apply (proj1 (patch_tools_reject_blank_patch
                  Z oneRepo errnoText
                  (decodesTo [("repo_path", "/repos/a");
                              ("patch_string", " ")])
                  reposDeps aRequest
                  (stringArgs [("repo_path", "/repos/a");
                               ("patch_string", " ")])
                  "/repos/a" eq_refl eq_refl) " ").
  - reflexivity.
  - unfold blank, whitespaceOnly. vm_compute. repeat constructor.
Defined.

Lemma GitApplyPatchFile_reads_outside_allowed_paths_witness :
  calls (GitApplyPatchFile
           Z oneRepo errnoText
           (decodesTo [("repo_path", "/repos/a");
                       ("patch_file", "/tmp/fix.patch")])
           reposDeps aRequest)
  = [ApplyPatchFromFileCall "/repos/a" "/tmp/fix.patch"].
Proof.
  apply (GitApplyPatchFile_reads_outside_allowed_paths
           Z oneRepo errnoText
           (decodesTo [("repo_path", "/repos/a");
                       ("patch_file", "/tmp/fix.patch")])
           reposDeps aRequest
           (stringArgs [("repo_path", "/repos/a");
                        ("patch_file", "/tmp/fix.patch")])
           "/repos/a" "/tmp/fix.patch" "/tmp/fix.patch").
  - reflexivity.
  - vm_compute. reflexivity.
  - reflexivity.
  - vm_compute. discriminate.
  - vm_compute. reflexivity.
  - reflexivity.
Defined.

(** ** GitListRepositories *)

Lemma Contains_append_r (s b sub : string) :
  Contains s sub -> Contains (s ++ b) sub.
Proof.
  intros (u & v & ->). exists u, (v ++ b). now rewrite !append_assoc.
Qed.

Lemma Contains_self_prefix (sub b : string) : Contains (sub ++ b) sub.
Proof. now exists "", b. Qed.

Lemma listRepositoriesLoop_lists (repoPaths : list string) :
  forall (k i : nat) (repoPath : string),
    nth_error repoPaths i = Some repoPath ->
    Contains (listRepositoriesLoop k repoPaths)
             (strconv.Itoa (k + i + 1) ++ ". " ++ filepath.Base repoPath ++ " ("
              ++ repoPath ++ ")" ++ LF).
Proof.
  induction repoPaths as [|p ps IH]; intros k i repoPath H.
  - destruct i; discriminate.
  - cbn [listRepositoriesLoop]. destruct i as [|i]; cbn [nth_error] in H.
    + injection H as <-. rewrite Nat.add_0_r.
      apply Contains_self_prefix.
    + apply Contains_append_l.
      replace (k + S i + 1)%nat with (k + 1 + i + 1)%nat by lia.
      now apply IH.
Qed.

(** X26.  [git_list_repositories] calls no git operation and never
    fails: it answers with text, and where repositories are configured
    the text holds, for each of them, a line with its number in the
    list, its last path element and the path as configured. *)
Theorem GitListRepositories_lists_every_path :
  forall (deps : GitToolDependencies) (request : CallToolRequest),
    calls (GitListRepositories deps request) = []
    /\ exists text,
        result (GitListRepositories deps request) = NewToolResultText text
        /\ forall (i : nat) (repoPath : string),
            nth_error (GetRepoPaths deps) i = Some repoPath ->
            Contains text
                     (strconv.Itoa (i + 1) ++ ". " ++ filepath.Base repoPath
                      ++ " (" ++ repoPath ++ ")" ++ LF).
Proof.
  intros deps request. unfold GitListRepositories.
  destruct (GetRepoPaths deps) as [|p ps] eqn:E.
  - split; [reflexivity|]. eexists. split; [reflexivity|].
    intros i repoPath H. destruct i; discriminate.
  - cbn [List.length Nat.eqb]. split; [reflexivity|].
    eexists. split; [reflexivity|].
    intros i repoPath H. apply Contains_append_l.
    now apply (listRepositoriesLoop_lists (p :: ps) 0 i).
Qed.

(** ** pkg/translations *)

Section TranslationFacts.

Variable ToUpper : string -> string.
Variable Viper : Type.
Variable New : Viper.
Variable ReadInConfig : Viper -> Viper * option translations.ConfigError.
Variable IsSet : Viper -> string -> bool.
Variable GetStringSlice : Viper -> string -> list string.
Variable SetDefault : Viper -> string -> string -> Viper.
Variable GetString : Viper -> string -> string.
Variable Compile : string -> Regexp + string.
Variable Quote : string -> string.

Lemma store_same (m : translations.Map) (key value : string) :
  translations.store m key value key = Some value.
Proof. unfold translations.store. now rewrite String.eqb_refl. Qed.

Lemma store_other (m : translations.Map) (key value k : string) :
  k <> key -> translations.store m key value k = m k.
Proof.
  intros H. unfold translations.store.
  apply String.eqb_neq in H. now rewrite H.
Qed.

(** X27.  The translation helper remembers what it answers: after a
    call, [translationKeyMap] holds the answer under the upper-cased
    key, whether it came from the map, the environment or viper. *)
Theorem translate_caches_its_answer :
  forall (env : string -> option string)
         (st : translations.Captured Viper) (key defaultValue : string),
    translations.translationKeyMap Viper
      (snd (translations.translate ToUpper Viper SetDefault GetString
                                   env st key defaultValue))
      (ToUpper key)
    = Some (fst (translations.translate ToUpper Viper SetDefault GetString
                                        env st key defaultValue)).
Proof.
  intros env st key d. unfold translations.translate.
  destruct (translations.translationKeyMap Viper st (ToUpper key)) eqn:E.
  - exact E.
  - destruct (env _); cbn; apply store_same.
Qed.

(** X28.  The first value wins: an entry of [translationKeyMap] is never
    overwritten by a later call, and it is what the helper answers for
    every key with that upper-cased form, whatever the environment, the
    configuration or the default value say by then. *)
Theorem translate_keeps_cached_entries :
  forall (env : string -> option string)
         (st : translations.Captured Viper)
         (key defaultValue k value : string),
    translations.translationKeyMap Viper st k = Some value ->
    translations.translationKeyMap Viper
      (snd (translations.translate ToUpper Viper SetDefault GetString
                                   env st key defaultValue)) k
    = Some value
    /\ (ToUpper key = k ->
        translations.translate ToUpper Viper SetDefault GetString
                               env st key defaultValue
        = (value, st)).
Proof.
  intros env st key d k value Hk. unfold translations.translate.
  destruct (translations.translationKeyMap Viper st (ToUpper key)) eqn:E.
  - split; [exact Hk|]. intros <-. congruence.
  - assert (Hne : k <> ToUpper key) by congruence.
    split; [|congruence].
    destruct (env _); cbn; now rewrite store_other.
Qed.

(** X29.  The filter patterns of the configuration replace the rules in
    force, they are not added to them: when [filter_patterns] is set to
    a list that is not empty, [TranslationHelper] leaves exactly the
    patterns of the list that compile (none, if none does); when it is
    not set or empty, the rules in force stay. *)
Theorem TranslationHelper_installs_configured_patterns :
  forall pkg : Package,
    filterPatterns
      (snd (translations.TranslationHelper
              Viper New ReadInConfig IsSet GetStringSlice Compile Quote pkg))
    = if IsSet (fst (ReadInConfig New)) "filter_patterns"
         && (0 <? List.length
                    (GetStringSlice (fst (ReadInConfig New))
                                    "filter_patterns"))%nat
      then compiledInOrder
             Compile
             (GetStringSlice (fst (ReadInConfig New)) "filter_patterns")
      else filterPatterns pkg.
Proof.
  intros pkg. unfold translations.TranslationHelper.
  destruct (ReadInConfig New) as [v err]. cbn [fst snd].
  assert (Hlog : forall line,
             filterPatterns (translations.Printf line pkg)
             = filterPatterns pkg) by reflexivity.
  destruct (IsSet v "filter_patterns"); cbn [andb].
  - destruct (0 <? List.length (GetStringSlice v "filter_patterns"))%nat.
    + unfold SetFilterPatterns. rewrite setFilterPatterns_loop. reflexivity.
    + destruct err as [[|text]|]; reflexivity.
  - destruct err as [[|text]|]; reflexivity.
Qed.

(** X30.  At start-up the default rules are in force: once [init] has
    run with patterns that compile to the two default rules, a
    configuration that does not set [filter_patterns] leaves
    [FilterBody] with exactly these two, in order. *)
Theorem startup_keeps_default_rules :
  forall pkg : Package,
    map Compile defaultFilterPatterns = [inl coAuthoredByRe; inl prFooterRe] ->
    IsSet (fst (ReadInConfig New)) "filter_patterns" = false ->
    filterPatterns
      (snd (translations.TranslationHelper
              Viper New ReadInConfig IsSet GetStringSlice Compile Quote
              (init Compile Quote pkg)))
    = defaultFilterRegexps.
Proof.
  intros pkg Hc Hset. unfold translations.TranslationHelper.
  destruct (ReadInConfig New) as [v err]. cbn [fst snd] in *.
  rewrite Hset.
  destruct err as [[|text]|]; cbn [translations.Printf filterPatterns];
    now apply init_installs_defaults.
Qed.

End TranslationFacts.

Lemma startup_keeps_default_rules_witness :
  filterPatterns
    (snd (translations.TranslationHelper
            unit tt (fun v => (v, Some translations.ConfigFileNotFoundError))
            (fun _ _ => false) (fun _ _ => []) compilesDefaults
            (fun pattern => pattern)
            (init compilesDefaults (fun pattern => pattern)
                  (mkPackage [] []))))
  = defaultFilterRegexps.
Proof.
  apply (startup_keeps_default_rules
           unit tt (fun v => (v, Some translations.ConfigFileNotFoundError))
           (fun _ _ => false) (fun _ _ => []) compilesDefaults
           (fun pattern => pattern) (mkPackage [] []));
    reflexivity.
Defined.

Lemma translate_keeps_cached_entries_witness :
  translations.translationKeyMap unit
    (snd (translations.translate
            (fun key => key) unit (fun v _ _ => v) (fun _ _ => "from viper")
            (fun _ => Some "from the environment")
            (translations.mkCaptured
               unit (translations.store translations.emptyMap "TITLE" "Git")
               tt)
            "TITLE" "default")) "TITLE"
  = Some "Git"
  /\ ((fun key : string => key) "TITLE" = "TITLE" ->
      translations.translate
        (fun key => key) unit (fun v _ _ => v) (fun _ _ => "from viper")
        (fun _ => Some "from the environment")
        (translations.mkCaptured
           unit (translations.store translations.emptyMap "TITLE" "Git") tt)
        "TITLE" "default"
      = ("Git",
         translations.mkCaptured
           unit (translations.store translations.emptyMap "TITLE" "Git") tt)).
Proof.
  apply (translate_keeps_cached_entries
           (fun key => key) unit (fun v _ _ => v) (fun _ _ => "from viper")).
  reflexivity.
Defined.
